(** * Page Session Manager ([SocketPage], common.js)

    A shallow embedding of the page-scoped Socket.IO helper and of the
    browser objects it drives (the shared socket, the interval table of
    [window], [document.hidden], the [beforeunload] hooks), followed by
    the properties of the session API.

    Line numbers refer to common.js as it stands in the sources
    (src/unnamed/part_001) and, where said, to jobs.js.

    Conventions.
    - A JavaScript function value supplied by a page is represented by
      its identity (a [handler]); calling it is recorded in a call log
      together with the call site of common.js that made the call.
      Handlers are opaque: they do not call back into the session API.
    - The socket is the Socket.IO client, an external library.  Its
      emitter is modelled after the emitter that client is built on:
      [on] appends, [off event fn] removes the first callback [cb] with
      [cb === fn] or [cb.fn === fn], [off event] drops every callback of
      the event, [once] appends a self-removing wrapper whose [.fn] is
      the wrapped function, and a dispatch walks a copy of the list.
    - [scope.listeners] is a plain object used as a map from event
      names to handlers; it is a [gmap string handler].  Event names
      are ordinary keys, stored as own properties of that object (this
      leaves out the one name [__proto__]).
    - Timer handles are the positive integers [setInterval] returns,
      each one distinct from the handles of the intervals still active.

    The second half covers the scripts around the helper: the ready
    handlers of resources.js, dashboard.js, jobs.js and main.js, the job
    filters and the jobs table of jobs.js, the stored settings of
    common.js and settings.js, and the notification bell of notif.js.

    Further conventions.
    - Data sent by the server is JSON: a job and a notification payload
      are objects, held as the [gmap] of their own properties; a property
      value is [undefined], [null], a boolean, a number, a string, or an
      array or object known by what its [toString()] gives.  Numbers,
      the case mappings of strings and the properties inherited from
      [Object.prototype] are parameters ([JsRuntime]).
    - An exception is a value ([Thrown]); a handler that throws keeps
      the assignments it made before.
    - [localStorage] is a [gmap string string]; a [<select>] is the list
      of its option values with the index of the selected one.
    - The elements the page scripts look up by id are those of their
      pages: the lookups succeed. *)

From Stdlib Require Import Ascii.
From stdpp Require Import gmap strings list fin_maps pretty.

Local Open Scope string_scope.
Local Open Scope list_scope.
Local Open Scope stdpp_scope.

(** ** Identities of JavaScript values *)

Definition handler := nat.      (* a function value passed in by a page *)
Definition session_id := nat.   (* a [scope] object *)
Definition wrapper_id := nat.   (* a wrapper allocated by [socket.once] *)
Definition timer_id := positive. (* handle returned by [setInterval] *)

(** Function values that can sit in the emitter of the socket. *)
Inductive callback :=
  | Fn (h : handler)                     (* a page function *)
  | OnceWrap (w : wrapper_id) (h : handler) (* wrapper of [once], [.fn = h] *)
  | ReconnectCb (sid : session_id)       (* the arrow function of lines 133-138 *)
  | LogCb (tag : string).                (* lifecycle loggers, lines 40-50 *)

Global Instance callback_eq_dec : EqDecision callback.
Proof. solve_decision. Defined.

(** Call sites of common.js that invoke a page function. *)
Inductive call :=
  | CallDirect (h : handler)                   (* [emitFn()], line 89 *)
  | CallDeferred (w : wrapper_id) (h : handler) (* wrapper [w] of line 91 fires *)
  | CallTick (t : timer_id) (h : handler)      (* [fn()] in [tick], line 104 *)
  | CallReconnect (sid : session_id) (h : handler) (* [scope._onReconnect()], line 136 *)
  | CallListener (ev : string) (h : handler).  (* the socket delivers event [ev] *)

Global Instance call_eq_dec : EqDecision call.
Proof. solve_decision. Defined.

(** ** The emitter of the shared socket *)

Module Emitter.

(** [cb === fn || cb.fn === fn] *)
Definition matches (fn cb : callback) : bool :=
  bool_decide (cb = fn) ||
  match cb with
  | OnceWrap _ h => bool_decide (Fn h = fn)
  | _ => false
  end.

(** The loop of [off event fn]: splice out the first match, then stop. *)
Fixpoint remove_first (fn : callback) (l : list callback) : list callback :=
  match l with
  | [] => []
  | cb :: l' => if matches fn cb then l' else cb :: remove_first fn l'
  end.

Definition callbacks_of (e : gmap string (list callback)) (ev : string)
  : list callback := default [] (e !! ev).

Definition on (ev : string) (cb : callback) (e : gmap string (list callback))
  : gmap string (list callback) := <[ev := callbacks_of e ev ++ [cb]]> e.

(** [off event fn]; the entry is deleted once its list is empty. *)
Definition off (ev : string) (fn : callback) (e : gmap string (list callback))
  : gmap string (list callback) :=
  match e !! ev with
  | None => e
  | Some l =>
      match remove_first fn l with
      | [] => delete ev e
      | l' => <[ev := l']> e
      end
  end.

(** [off event] *)
Definition off_all (ev : string) (e : gmap string (list callback))
  : gmap string (list callback) := delete ev e.

End Emitter.

(** ** Session and browser state *)

(** The closure [tick] of [poll] together with the period handed to
    [setInterval]. *)
Record interval := Interval {
  period : Z;
  tick_visibleOnly : bool;
  tick_fn : handler;
}.

(** The object [scope] of [SocketPage]. *)
Record scope := Scope {
  name : string;
  timers : list timer_id;
  listeners : gmap string handler;
  started : bool;
  _onReconnect : option handler;
}.

Record world := World {
  connected : bool;                         (* [socket.connected] *)
  emitter : gmap string (list callback);    (* callbacks of [socket] *)
  next_wrapper : wrapper_id;                (* allocation of [once] wrappers *)
  intervals : gmap timer_id interval;       (* active intervals of [window] *)
  hidden : bool;                            (* [document.hidden] *)
  beforeunload : list session_id;           (* [scope.cleanup] hooks of [window] *)
  scopes : gmap session_id scope;           (* the [scope] objects alive *)
  calls : list call;                        (* call log, oldest first *)
}.

Definition set_connected (b : bool) (s : world) : world :=
  World b (emitter s) (next_wrapper s) (intervals s) (hidden s)
        (beforeunload s) (scopes s) (calls s).
Definition set_emitter (e : gmap string (list callback)) (s : world) : world :=
  World (connected s) e (next_wrapper s) (intervals s) (hidden s)
        (beforeunload s) (scopes s) (calls s).
Definition set_next_wrapper (n : wrapper_id) (s : world) : world :=
  World (connected s) (emitter s) n (intervals s) (hidden s)
        (beforeunload s) (scopes s) (calls s).
Definition set_intervals (i : gmap timer_id interval) (s : world) : world :=
  World (connected s) (emitter s) (next_wrapper s) i (hidden s)
        (beforeunload s) (scopes s) (calls s).
Definition set_hidden (b : bool) (s : world) : world :=
  World (connected s) (emitter s) (next_wrapper s) (intervals s) b
        (beforeunload s) (scopes s) (calls s).
Definition set_beforeunload (l : list session_id) (s : world) : world :=
  World (connected s) (emitter s) (next_wrapper s) (intervals s) (hidden s)
        l (scopes s) (calls s).
Definition set_scopes (m : gmap session_id scope) (s : world) : world :=
  World (connected s) (emitter s) (next_wrapper s) (intervals s) (hidden s)
        (beforeunload s) m (calls s).
Definition log (c : call) (s : world) : world :=
  World (connected s) (emitter s) (next_wrapper s) (intervals s) (hidden s)
        (beforeunload s) (scopes s) (calls s ++ [c]).

Definition set_scope (sid : session_id) (sc : scope) (s : world) : world :=
  set_scopes (<[sid := sc]> (scopes s)) s.

Definition set_timers (l : list timer_id) (sc : scope) : scope :=
  Scope (name sc) l (listeners sc) (started sc) (_onReconnect sc).
Definition set_listeners (m : gmap string handler) (sc : scope) : scope :=
  Scope (name sc) (timers sc) m (started sc) (_onReconnect sc).
Definition set_started (b : bool) (sc : scope) : scope :=
  Scope (name sc) (timers sc) (listeners sc) b (_onReconnect sc).
Definition set_onReconnect (f : option handler) (sc : scope) : scope :=
  Scope (name sc) (timers sc) (listeners sc) (started sc) f.

(** ** The socket *)

Definition cbs (s : world) (ev : string) : list callback :=
  Emitter.callbacks_of (emitter s) ev.

Definition socket_on (ev : string) (cb : callback) (s : world) : world :=
  set_emitter (Emitter.on ev cb (emitter s)) s.

Definition socket_off (ev : string) (fn : callback) (s : world) : world :=
  set_emitter (Emitter.off ev fn (emitter s)) s.

Definition socket_off_all (ev : string) (s : world) : world :=
  set_emitter (Emitter.off_all ev (emitter s)) s.

(** [socket.once(ev, fn)]: a fresh wrapper that removes itself and then
    applies [fn]. *)
Definition socket_once (ev : string) (h : handler) (s : world) : world :=
  set_next_wrapper (S (next_wrapper s))
    (socket_on ev (OnceWrap (next_wrapper s) h) s).

(** One callback of a dispatch of [ev] runs. *)
Definition fire (ev : string) (s : world) (cb : callback) : world :=
  match cb with
  | Fn h => log (CallListener ev h) s
  | OnceWrap w h => log (CallDeferred w h) (socket_off ev (OnceWrap w h) s)
  | ReconnectCb sid =>
      match scopes s !! sid with
      | Some sc =>
          if started sc then
            match _onReconnect sc with
            | Some f => log (CallReconnect sid f) s
            | None => s
            end
          else s
      | None => s
      end
  | LogCb _ => s
  end.

(** The socket emits [ev] locally: a copy of the callbacks is walked in
    registration order. *)
Definition dispatch (ev : string) (s : world) : world :=
  foldl (fire ev) s (cbs s ev).

(** ** [window]: intervals *)

Definition setInterval (iv : interval) (s : world) : timer_id * world :=
  let id := fresh (dom (intervals s)) in
  (id, set_intervals (<[id := iv]> (intervals s)) s).

Definition clearInterval (s : world) (id : timer_id) : world :=
  set_intervals (delete id (intervals s)) s.

(** ** [SocketPage(name)] and the methods of [scope] *)

Definition SocketPage (nm : string) (s : world) : session_id * world :=
  let sid := fresh (dom (scopes s)) in
  let s1 := set_scope sid (Scope nm [] ∅ false None) s in
  let s2 := set_beforeunload (beforeunload s1 ++ [sid]) s1 in
  let s3 := socket_on "reconnect" (ReconnectCb sid)
              (socket_off_all ("reconnect." +:+ nm) s2) in
  (sid, s3).

Definition on (sid : session_id) (ev : string) (h : handler) (s : world) : world :=
  match scopes s !! sid with
  | None => s
  | Some sc =>
      let s1 := match listeners sc !! ev with
                | Some old => socket_off ev (Fn old) s
                | None => s
                end in
      let s2 := set_scope sid (set_listeners (<[ev := h]> (listeners sc)) sc) s1 in
      socket_on ev (Fn h) s2
  end.

Definition emitWhenReady (sid : session_id) (emitFn : handler) (s : world) : world :=
  match scopes s !! sid with
  | None => s
  | Some _ =>
      if connected s then log (CallDirect emitFn) s
      else socket_once "connect" emitFn s
  end.

Definition poll (sid : session_id) (ms : Z) (fn : handler)
    (immediate visibleOnly : option bool) (s : world) : world :=
  match scopes s !! sid with
  | None => s
  | Some _ =>
      let s1 := if default true immediate then emitWhenReady sid fn s else s in
      let '(id, s2) :=
        setInterval (Interval ms (default true visibleOnly) fn) s1 in
      match scopes s2 !! sid with
      | Some sc => set_scope sid (set_timers (timers sc ++ [id]) sc) s2
      | None => s2
      end
  end.

Definition cleanup (sid : session_id) (s : world) : world :=
  match scopes s !! sid with
  | None => s
  | Some sc =>
      let s1 := foldl clearInterval s (timers sc) in
      let s2 := set_scope sid (set_timers [] sc) s1 in
      let s3 := foldl (λ s' '(ev, fn), socket_off ev (Fn fn) s') s2
                      (map_to_list (listeners sc)) in
      set_scope sid (set_listeners ∅ (set_timers [] sc)) s3
  end.

Definition onReconnect (sid : session_id) (fn : handler) (s : world) : world :=
  match scopes s !! sid with
  | None => s
  | Some sc => set_scope sid (set_onReconnect (Some fn) sc) s
  end.

Definition markStarted (sid : session_id) (s : world) : world :=
  match scopes s !! sid with
  | None => s
  | Some sc => set_scope sid (set_started true sc) s
  end.

(** ** The environment: socket signals, timer ticks, visibility, unload *)

(** A lifecycle signal or a server event named [ev] reaches the socket.
    [socket.connected] follows the [connect] and [disconnect] signals. *)
Definition signal (ev : string) (s : world) : world :=
  let s1 := if bool_decide (ev = "connect") then set_connected true s
            else if bool_decide (ev = "disconnect") then set_connected false s
            else s in
  dispatch ev s1.

(** The interval [t] fires: the closure [tick] of [poll] runs. *)
Definition tick (t : timer_id) (s : world) : world :=
  match intervals s !! t with
  | None => s
  | Some iv =>
      if negb (tick_visibleOnly iv) || negb (hidden s)
      then log (CallTick t (tick_fn iv)) s
      else s
  end.

(** [beforeunload]: every hooked [scope.cleanup] runs. *)
Definition unload (s : world) : world :=
  foldl (λ s' sid, cleanup sid s') s (beforeunload s).

(** Everything that can happen to a page, as one step. *)
Inductive op :=
  | OpSocketPage (nm : string)
  | OpOn (sid : session_id) (ev : string) (h : handler)
  | OpEmitWhenReady (sid : session_id) (h : handler)
  | OpPoll (sid : session_id) (ms : Z) (h : handler) (immediate visibleOnly : option bool)
  | OpCleanup (sid : session_id)
  | OpOnReconnect (sid : session_id) (h : handler)
  | OpMarkStarted (sid : session_id)
  | Signal (ev : string)
  | Tick (t : timer_id)
  | Visibility (hid : bool)
  | Unload.

Definition step (s : world) (o : op) : world :=
  match o with
  | OpSocketPage nm => (SocketPage nm s).2
  | OpOn sid ev h => on sid ev h s
  | OpEmitWhenReady sid h => emitWhenReady sid h s
  | OpPoll sid ms h im vo => poll sid ms h im vo s
  | OpCleanup sid => cleanup sid s
  | OpOnReconnect sid h => onReconnect sid h s
  | OpMarkStarted sid => markStarted sid s
  | Signal ev => signal ev s
  | Tick t => tick t s
  | Visibility hid => set_hidden hid s
  | Unload => unload s
  end.

Definition run (ops : list op) (s : world) : world := foldl step s ops.

(** The page right after the first part of common.js ran (lines 28-50):
    the socket exists, is not connected yet, and carries the three
    lifecycle loggers. *)
Definition init : world :=
  let e := Emitter.on "connect_error" (LogCb "connect_error")
             (Emitter.off_all "connect_error"
               (Emitter.on "disconnect" (LogCb "disconnect")
                 (Emitter.off_all "disconnect"
                   (Emitter.on "connect" (LogCb "connect")
                     (Emitter.off_all "connect" ∅))))) in
  World false e 0 ∅ false [] ∅ [].

(** A page with one session, [jobs], created right after load; the
    socket has not connected yet. *)
Definition jobs_page : world := (SocketPage "jobs" init).2.
Definition jobs_scope : scope := Scope "jobs" [] ∅ false None.

(** Calls made since the log had length [n]. *)
Definition calls_since (n : nat) (s : world) : list call := drop n (calls s).

(** ** Observations on a state *)

(** Page functions subscribed in a callback list. *)
Definition user_handlers (l : list callback) : list handler :=
  omap (λ cb, match cb with Fn h => Some h | _ => None end) l.

(** Identities of the [once] wrappers in a callback list. *)
Definition wrapper_ids (l : list callback) : list wrapper_id :=
  omap (λ cb, match cb with OnceWrap w _ => Some w | _ => None end) l.

Definition is_wrapper (cb : callback) : bool :=
  match cb with OnceWrap _ _ => true | _ => false end.

(** Handlers that the sessions of [m] track for [ev] in their
    [listeners] object, one per session at most. *)
Definition bound_in (m : gmap session_id scope) (ev : string) : list handler :=
  (map_to_list (omap (λ sc, listeners sc !! ev) m)).*2.

Definition bound (s : world) (ev : string) : list handler :=
  bound_in (scopes s) ev.


(** The [if (scope.listeners[event]) socket.off(...)] of [on], which is
    also what [cleanup] does for each entry. *)
Definition unbind (old : option handler) (l : list callback) : list callback :=
  match old with
  | Some h => Emitter.remove_first (Fn h) l
  | None => l
  end.

(** What one callback logs when the socket delivers [ev]. *)
Definition emitted (ev : string) (m : gmap session_id scope) (cb : callback)
  : list call :=
  match cb with
  | Fn h => [CallListener ev h]
  | OnceWrap w h => [CallDeferred w h]
  | ReconnectCb sid =>
      match m !! sid with
      | Some sc =>
          if started sc then
            match _onReconnect sc with
            | Some f => [CallReconnect sid f]
            | None => []
            end
          else []
      | None => []
      end
  | LogCb _ => []
  end.

Definition is_deferred (w : wrapper_id) (c : call) : bool :=
  match c with CallDeferred w' _ => bool_decide (w' = w) | _ => false end.

(** How often wrapper [w] has fired so far. *)
Definition fired (w : wrapper_id) (s : world) : nat :=
  length (filter (λ c, is_deferred w c = true) (calls s)).

Definition reconnect_ids (l : list callback) : list session_id :=
  omap (λ cb, match cb with ReconnectCb sid => Some sid | _ => None end) l.

(** Wrapper [w] is queued this many times on [connect]. *)
Definition pending (w : wrapper_id) (s : world) : nat :=
  length (filter (λ x, x = w) (wrapper_ids (cbs s "connect"))).

(** The functions the reconnect listener of session [sid] called, read
    off a stretch of the log. *)
Definition reconnect_calls (sid : session_id) (l : list call) : list handler :=
  omap (λ c, match c with
             | CallReconnect sid' h => if decide (sid' = sid) then Some h else None
             | _ => None
             end) l.

(** What the reconnect listener of a session calls when it runs. *)
Definition reconnect_action (m : gmap session_id scope) (sid : session_id)
  : list handler :=
  match m !! sid with
  | Some sc => if started sc then option_list (_onReconnect sc) else []
  | None => []
  end.

(** The ticks of timer [t] under a given sequence of visibility states:
    before each tick [document.hidden] is set, [true] in the list
    meaning that the page is visible at that tick. *)
Definition ticks_under (t : timer_id) (vis : list bool) : list op :=
  flat_map (λ v : bool, [Visibility (negb v); Tick t]) vis.

(** ** Invariants of the pages the API can produce *)

(** Facts that hold in [init] and after every step:
    - a [once] wrapper is only ever queued on [connect], its identity
      was allocated earlier, and no identity is queued twice;
    - the socket carries exactly one reconnect listener per session;
    - a wrapper found in the log was allocated earlier;
    - a handler a session tracks for [connect] is subscribed there. *)
Record wf (s : world) : Prop := WF {
  wf_wrapper_fresh : ∀ ev w, w ∈ wrapper_ids (cbs s ev) → w < next_wrapper s;
  wf_wrapper_connect : ∀ ev w, w ∈ wrapper_ids (cbs s ev) → ev = "connect";
  wf_wrapper_nodup : NoDup (wrapper_ids (cbs s "connect"));
  wf_reconnect : reconnect_ids (cbs s "reconnect") ≡ₚ elements (dom (scopes s));
  wf_log : ∀ w h, CallDeferred w h ∈ calls s → w < next_wrapper s;
  wf_bound : bound s "connect" ⊆+ user_handlers (cbs s "connect");
}.







(** ** The caller in jobs.js (lines 26-58) *)

(** The properties [SocketPage] puts on the object it returns
    (lines 65-70, 75, 87, 102, 115, 128, 143), and [_onReconnect],
    which [onReconnect] adds. *)
Inductive member :=
  | M_name | M_timers | M_listeners | M_started | M__onReconnect
  | M_on | M_emitWhenReady | M_poll | M_cleanup | M_onReconnect | M_markStarted.

Definition scope_members : list (string * member) :=
  [("name", M_name); ("timers", M_timers); ("listeners", M_listeners);
   ("started", M_started); ("on", M_on); ("emitWhenReady", M_emitWhenReady);
   ("poll", M_poll); ("cleanup", M_cleanup); ("onReconnect", M_onReconnect);
   ("_onReconnect", M__onReconnect); ("markStarted", M_markStarted)].

(** [scope[prop]] for the properties the object itself carries; [None]
    is [undefined].  What every object inherits ([toString] and the
    like) is left out. *)
Definition scope_member (prop : string) : option member :=
  (list_to_map scope_members : gmap string member) !! prop.

Inductive js_error := TypeError (msg : string).

Inductive outcome (A : Type) :=
  | Returned (a : A)
  | Thrown (e : js_error).
Arguments Returned {A} a.
Arguments Thrown {A} e.

Definition is_function (m : member) : bool :=
  match m with
  | M_on | M_emitWhenReady | M_poll | M_cleanup | M_onReconnect | M_markStarted => true
  | _ => false
  end.

(** Looking up [page.<prop>] in order to call it. *)
Definition get_method (prop : string) : outcome member :=
  match scope_member prop with
  | Some m =>
      if is_function m then Returned m
      else Thrown (TypeError ("page." +:+ prop +:+ " is not a function"))
  | None => Thrown (TypeError ("page." +:+ prop +:+ " is not a function"))
  end.

(** [startJobsPolling] of jobs.js.  [jobsPollId] is the module variable:
    [None] while it is [undefined] or [null], afterwards whatever
    [page.poll] returned, which is the [scope] itself (line 109 of
    common.js).  When it is set, line 41 calls [page.stopPoll]; lines
    42-45 then clear the timers of [page] by hand. *)
Definition startJobsPolling (jobsPollId : option session_id) (rateMs : Z)
    (requestJobs : handler) (s : world) : outcome (option session_id * world) :=
  let '(page, s1) := SocketPage "jobs" s in
  let start s2 :=
    Returned (Some page,
              poll page rateMs requestJobs (Some true) (Some true) s2) in
  match jobsPollId with
  | Some _ =>
      match get_method "stopPoll" with
      | Thrown e => Thrown e
      | Returned _ =>
          match scopes s1 !! page with
          | Some sc =>
              start (set_scope page (set_timers [] sc)
                       (foldl clearInterval s1 (timers sc)))
          | None => start s1
          end
      end
  | None => start s1
  end.

(** ** Timers and hooks of the sessions *)

(** [scope.timers] of session [sid], if the session exists. *)
Definition timers_of (s : world) (sid : session_id) : option (list timer_id) :=
  timers <$> scopes s !! sid.

(** The bookkeeping of intervals: a handle a session tracks is an
    active interval, an active interval is tracked by one session, at
    one position of its list, and the [cleanup] of every session is
    hooked on [beforeunload]. *)
Record timers_ok (s : world) : Prop := TimersOk {
  tracked_is_active : ∀ sid l t,
    timers_of s sid = Some l → t ∈ l → is_Some (intervals s !! t);
  active_is_tracked : ∀ t,
    is_Some (intervals s !! t) → ∃ sid l, timers_of s sid = Some l ∧ t ∈ l;
  tracked_by_one : ∀ sid1 sid2 l1 l2 t,
    timers_of s sid1 = Some l1 → timers_of s sid2 = Some l2 →
    t ∈ l1 → t ∈ l2 → sid1 = sid2;
  tracked_once : ∀ sid l, timers_of s sid = Some l → NoDup l;
  cleanup_hooked : ∀ sid, is_Some (scopes s !! sid) → sid ∈ beforeunload s;
}.


(** The session whose method a step calls. *)
Definition acts_on (o : op) : option session_id :=
  match o with
  | OpOn sid _ _ | OpEmitWhenReady sid _ | OpPoll sid _ _ _ _
  | OpCleanup sid | OpOnReconnect sid _ | OpMarkStarted sid => Some sid
  | _ => None
  end.

(** Event names that no [SocketPage(name)] clears: those that are not
    ["reconnect." + name] for any [name]. *)
Definition plain_event (ev : string) : Prop :=
  ∀ nm, ev ≠ "reconnect." +:+ nm.

(** Every handler a session tracks for [ev] is subscribed to [ev]. *)
Definition tracked_live (s : world) (ev : string) : Prop :=
  bound s ev ⊆+ user_handlers (cbs s ev).

(** [emitWhenReady] called for each function of a list, in order. *)
Definition emit_all (sid : session_id) (fs : list handler) (s : world) : world :=
  foldl (λ s' f, emitWhenReady sid f s') s fs.

(** Steps that create a session. *)
Definition creates (o : op) : bool :=
  match o with OpSocketPage _ => true | _ => false end.

(** ** The page scripts *)

(** The ready handler of resources.js (lines 10-42) and the one of
    dashboard.js (lines 322-356): a session with one listener, a
    reconnect callback, a poll every 180000 ms and [markStarted].  The
    guard on [window.socket] and [window.SocketPage] holds once
    common.js has run. *)
Definition standard_onload (nm ev : string) (on_payload refresh request : handler)
    (s : world) : session_id * world :=
  let '(page, s1) := SocketPage nm s in
  let s2 := on page ev on_payload s1 in
  let s3 := onReconnect page refresh s2 in
  let s4 := poll page 180000 request (Some true) (Some true) s3 in
  (page, markStarted page s4).

Definition resources_onload : handler → handler → handler → world → session_id * world :=
  standard_onload "resources" "resources_list".

Definition dashboard_onload : handler → handler → handler → world → session_id * world :=
  standard_onload "dashboard" "stats_list".

(** The ready handler of jobs.js (lines 60-119): four listeners, a
    reconnect callback, [startJobsPolling()], [markStarted].  The
    function polled is the [requestJobs] of [startJobsPolling], another
    closure than the one the reconnect callback uses. *)
Definition jobs_onload (jobsPollId : option session_id) (rateMs : Z)
    (on_list on_error on_submitted on_output refresh requestJobs : handler)
    (s : world) : outcome (session_id * option session_id * world) :=
  let '(page, s1) := SocketPage "jobs" s in
  let s2 := on page "view_output" on_output
              (on page "job_submitted" on_submitted
                 (on page "error" on_error
                    (on page "jobs_list" on_list s1))) in
  let s3 := onReconnect page refresh s2 in
  match startJobsPolling jobsPollId rateMs requestJobs s3 with
  | Thrown e => Thrown e
  | Returned (id, s4) => Returned (page, id, markStarted page s4)
  end.

(** The listeners the jobs page tracks once its ready handler has run. *)
Definition jobs_listeners (on_list on_error on_submitted on_output : handler)
  : gmap string handler :=
  <["view_output" := on_output]>
    (<["job_submitted" := on_submitted]>
       (<["error" := on_error]> {["jobs_list" := on_list]})).

(** The ready handler of main.js (lines 1-22), run on every page: a
    listener and an interval set directly on [window.socket] and
    [window], outside every session.  Its interval calls
    [socket.emit] whatever the visibility. *)
Definition main_onload (on_stats request : handler) (s : world) : timer_id * world :=
  setInterval (Interval 180000 false request) (socket_on "stats" (Fn on_stats) s).

(** An interval that is active and that no session tracks. *)
Definition untracked (t : timer_id) (iv : interval) (s : world) : Prop :=
  intervals s !! t = Some iv ∧
  ∀ sid sc, scopes s !! sid = Some sc → t ∉ timers sc.

(** ** The job filters of jobs.js (lines 317-439) *)

(** What the filters use of the JavaScript runtime: numbers with their
    truthiness and their [toString], the case mappings of strings, and,
    for a property name, the [toString] of what a plain object inherits
    under that name from [Object.prototype] ([None]: nothing). *)
Class JsRuntime := {
  number : Type;
  number_truthy : number → bool;
  number_toString : number → string;
  toUpperCase : string → string;
  toLowerCase : string → string;
  inherited : string → option string;
}.

(** A property value of a job as the server sends it.  [Obj repr] is an
    array, an object or a function, [repr] what its [toString()] gives. *)
Inductive js_value `{JsRuntime} :=
  | Undefined
  | Null
  | Bool (b : bool)
  | Num (n : number)
  | Str (s : string)
  | Obj (repr : string).

#[global] Instance js_error_eq_dec : EqDecision js_error.
Proof. solve_decision. Defined.

#[global] Instance outcome_eq_dec {A} `{EqDecision A} : EqDecision (outcome A).
Proof. solve_decision. Defined.

(** A job is an object ([Job.to_dict()] on the server): its own
    properties. *)
Abbreviation job := (gmap string js_value) (only parsing).

(** [job[k]] *)
Definition get_prop `{JsRuntime} (o : job) (k : string) : js_value :=
  match o !! k with
  | Some v => v
  | None => match inherited k with Some repr => Obj repr | None => Undefined end
  end.

Definition truthy `{JsRuntime} (v : js_value) : bool :=
  match v with
  | Undefined | Null => false
  | Bool b => b
  | Num n => number_truthy n
  | Str s => negb (bool_decide (s = ""))
  | Obj _ => true
  end.

(** [a || b] *)
Definition js_or `{JsRuntime} (a b : js_value) : js_value :=
  if truthy a then a else b.

(** [v.toUpperCase()] *)
Definition call_toUpperCase `{JsRuntime} (v : js_value) : outcome string :=
  match v with
  | Str s => Returned (toUpperCase s)
  | Undefined | Null =>
      Thrown (TypeError "Cannot read properties of undefined (reading 'toUpperCase')")
  | _ => Thrown (TypeError "toUpperCase is not a function")
  end.

(** [v.toString()] *)
Definition call_toString `{JsRuntime} (v : js_value) : outcome string :=
  match v with
  | Undefined | Null =>
      Thrown (TypeError "Cannot read properties of undefined (reading 'toString')")
  | Bool b => Returned (if b then "true" else "false")
  | Num n => Returned (number_toString n)
  | Str s => Returned s
  | Obj repr => Returned repr
  end.

(** An entry of [activeFilters]; its three fields are strings read from
    the form. *)
Record job_filter := Filter {
  filter_type : string;
  filter_value : string;
  filter_label : string;
}.

Definition EXIT_STATES : list string :=
  ["FAILED"; "TIMEOUT"; "CANCELLED"; "NODE_FAIL"; "OUT_OF_MEMORY"].

(** The callback of [activeFilters.every] (lines 337-354). *)
Definition passes `{JsRuntime} (jb : job) (f : job_filter) : outcome bool :=
  let jobValue := get_prop jb (filter_type f) in
  if bool_decide (filter_type f = "state") || bool_decide (filter_type f = "status")
  then
    match call_toUpperCase
            (js_or (js_or (get_prop jb "state") (get_prop jb "status")) (Str "")) with
    | Thrown e => Thrown e
    | Returned stateUpper =>
        let filterUpper := toUpperCase (filter_value f) in
        if bool_decide (filterUpper = "EXITED")
        then Returned (bool_decide (stateUpper ∈ EXIT_STATES))
        else Returned (bool_decide (stateUpper = filterUpper))
    end
  else
    match call_toString jobValue with
    | Thrown e => Thrown e
    | Returned s =>
        Returned (bool_decide (toLowerCase s = toLowerCase (filter_value f)))
    end.

(** [Array.prototype.every] and [Array.prototype.filter] with a callback
    that may throw: the elements are visited in order, [every] stops at
    the first [false], and an exception ends the call. *)
Fixpoint array_every {A} (p : A → outcome bool) (l : list A) : outcome bool :=
  match l with
  | [] => Returned true
  | x :: l' =>
      match p x with
      | Thrown e => Thrown e
      | Returned false => Returned false
      | Returned true => array_every p l'
      end
  end.

Fixpoint array_filter {A} (p : A → outcome bool) (l : list A) : outcome (list A) :=
  match l with
  | [] => Returned []
  | x :: l' =>
      match p x with
      | Thrown e => Thrown e
      | Returned b =>
          match array_filter p l' with
          | Thrown e => Thrown e
          | Returned r => Returned (if b then x :: r else r)
          end
      end
  end.

(** [filterJobs] (lines 328-358) on the two globals it reads.  The result
    is the list it hands to [updateJobsTable], or the exception that ends
    it before that call. *)
Definition filterJobs `{JsRuntime} (activeFilters : list job_filter)
    (jobsData : list job) : outcome (list job) :=
  match activeFilters with
  | [] => Returned jobsData
  | _ => array_filter (λ jb, array_every (passes jb) activeFilters) jobsData
  end.

(** [Array.prototype.splice(start, deleteCount)] on the array: what is
    left.  [start] is a number that is an integer or [NaN] ([None]), as
    [parseInt] gives it. *)
Definition splice {A} (start : option Z) (deleteCount : Z) (l : list A) : list A :=
  let len := Z.of_nat (length l) in
  let relativeStart := default 0%Z start in
  let actualStart :=
    if (relativeStart <? 0)%Z then Z.max (len + relativeStart) 0
    else Z.min relativeStart len in
  let actualDeleteCount := Z.min (Z.max deleteCount 0) (len - actualStart) in
  take (Z.to_nat actualStart) l ++ drop (Z.to_nat (actualStart + actualDeleteCount)) l.

(** [removeFilter(index)] (lines 320-323): what it leaves in
    [activeFilters]. *)
Definition removeFilter (index : option Z) (activeFilters : list job_filter)
  : list job_filter :=
  splice index 1 activeFilters.

(** [handleApplyFilter] (lines 414-439): what it leaves in
    [activeFilters].  [type] is the value of [#filterType]; [valueEl] is
    [#filterValue] where it exists, with its value and the text of its
    selected option. *)
Definition handleApplyFilter (type : string) (valueEl : option (string * string))
    (activeFilters : list job_filter) : list job_filter :=
  match valueEl with
  | None => activeFilters
  | Some (value, text) =>
      if bool_decide (type = "") || bool_decide (value = "") then activeFilters
      else
        let label := type +:+ ": " +:+ text in
        let isDuplicate :=
          existsb (λ f, bool_decide (filter_type f = type) &&
                        bool_decide (filter_value f = value)) activeFilters in
        if isDuplicate then activeFilters
        else activeFilters ++ [Filter type value label]
  end.

(** The [data-index] attribute [renderActiveFilters] writes on the
    remove button of the badge at [index] (line 307): the index in
    decimal. *)
Definition badge_index (index : nat) : string := pretty index.

(** What the user does with the filter form. *)
Inductive filter_action :=
  | Apply (type : string) (valueEl : option (string * string))
  | Remove (index : option Z).

Definition filter_step (activeFilters : list job_filter) (a : filter_action)
  : list job_filter :=
  match a with
  | Apply type valueEl => handleApplyFilter type valueEl activeFilters
  | Remove index => removeFilter index activeFilters
  end.

(** What [handleApplyFilter] compares to find a duplicate. *)
Definition filter_key (f : job_filter) : string * string :=
  (filter_type f, filter_value f).

(** The shape of [activeFilters]: no two entries with the same type and
    value, no empty type or value, labels made of the type and a text. *)
Definition filters_ok (activeFilters : list job_filter) : Prop :=
  NoDup (filter_key <$> activeFilters) ∧
  Forall (λ f, filter_type f ≠ "" ∧ filter_value f ≠ "" ∧
               ∃ text, filter_label f = filter_type f +:+ ": " +:+ text)
         activeFilters.

(** *** The jobs table

    The page as the filters and the [jobs_list] listener see it: the two
    globals and the jobs whose rows are in [#jobs].  The elements the
    functions look up ([#jobs], [#activeFiltersContainer],
    [#filterModal]) are those of the jobs page. *)
Record jobs_view `{JsRuntime} := JobsView {
  activeFilters : list job_filter;
  jobsData : list job;
  table : list job;
}.

Arguments JobsView {_} _ _ _.

Definition set_activeFilters `{JsRuntime} (fs : list job_filter) (v : jobs_view)
  : jobs_view := JobsView fs (jobsData v) (table v).

Definition set_jobsData `{JsRuntime} (l : list job) (v : jobs_view) : jobs_view :=
  JobsView (activeFilters v) l (table v).

Definition set_table `{JsRuntime} (l : list job) (v : jobs_view) : jobs_view :=
  JobsView (activeFilters v) (jobsData v) l.

(** [getJobBadgeClasses] (lines 204-226) *)
Definition getJobBadgeClasses `{JsRuntime} (state : js_value) : outcome string :=
  match call_toUpperCase state with
  | Thrown e => Thrown e
  | Returned status =>
      Returned
        (if bool_decide (status = "RUNNING")
         then "bg-green-100 text-green-800 dark:bg-green-700 dark:text-green-100"
         else if bool_decide (status = "FAILED")
         then "bg-red-100 text-red-800 dark:bg-red-700 dark:text-red-100"
         else if bool_decide (status = "PENDING")
         then "bg-yellow-100 text-yellow-800 dark:bg-yellow-700 dark:text-yellow-100"
         else if bool_decide (status = "TIMEOUT")
         then "bg-orange-100 text-orange-800 dark:bg-orange-700 dark:text-orange-100"
         else if bool_decide (status = "CANCELLED")
         then "bg-purple-100 text-purple-800 dark:bg-purple-700 dark:text-purple-100"
         else if bool_decide (status = "COMPLETED")
         then "bg-blue-100 text-blue-800 dark:bg-blue-700 dark:text-blue-100"
         else "bg-gray-100 text-gray-800 dark:bg-gray-600 dark:text-gray-200")
  end.

(** [Array.prototype.map] with a callback that may throw. *)
Fixpoint array_map {A B} (f : A → outcome B) (l : list A) : outcome (list B) :=
  match l with
  | [] => Returned []
  | x :: l' =>
      match f x with
      | Thrown e => Thrown e
      | Returned y =>
          match array_map f l' with
          | Thrown e => Thrown e
          | Returned r => Returned (y :: r)
          end
      end
  end.

(** [updateJobsTable(jobs)] (lines 231-289): the jobs whose rows it
    writes into [#jobs], none for the [No jobs found] row.  Building a
    row calls [getJobBadgeClasses] on the job's state; the rows are
    written only once all are built. *)
Definition updateJobsTable `{JsRuntime} (jobs : list job) : outcome (list job) :=
  match jobs with
  | [] => Returned []
  | _ =>
      match array_map
              (λ jb, getJobBadgeClasses
                       (js_or (js_or (get_prop jb "state") (get_prop jb "status"))
                              (Str "UNKNOWN"))) jobs with
      | Thrown e => Thrown e
      | Returned _ => Returned jobs
      end
  end.

(** A call that ends a handler: the page after it, and the exception
    where it threw. *)
Definition show `{JsRuntime} (rows : outcome (list job)) (v : jobs_view)
  : jobs_view * option js_error :=
  match rows with
  | Returned l => (set_table l v, None)
  | Thrown e => (v, Some e)
  end.

(** [filterJobs()] on the page. *)
Definition filterJobs_view `{JsRuntime} (v : jobs_view) : jobs_view * option js_error :=
  match filterJobs (activeFilters v) (jobsData v) with
  | Thrown e => (v, Some e)
  | Returned l => show (updateJobsTable l) v
  end.

(** [renderActiveFilters()] (lines 294-315): the badges, then
    [filterJobs()], with or without active filters. *)
Definition renderActiveFilters `{JsRuntime} (v : jobs_view)
  : jobs_view * option js_error :=
  match activeFilters v with
  | [] => filterJobs_view v
  | _ => filterJobs_view v
  end.

(** The payload of [jobs_list]: [success], and [jobs] where it is an
    array. *)
Record response `{JsRuntime} := Response {
  success : js_value;
  jobs : option (list job);
}.

Arguments Response {_} _ _.

(** The [jobs_list] listener (lines 79-94). *)
Definition on_jobs_list `{JsRuntime} (r : response) (v : jobs_view)
  : jobs_view * option js_error :=
  if truthy (success r) then
    let v1 := set_jobsData (default [] (jobs r)) v in
    match activeFilters v1 with
    | [] => show (updateJobsTable (jobsData v1)) v1
    | _ => filterJobs_view v1
    end
  else
    let v1 := set_jobsData [] v in
    show (updateJobsTable []) v1.

(** [handleApplyFilter] and [removeFilter] on the page: the change of
    [activeFilters] and the rendering that follows it. *)
Definition handleApplyFilter_view `{JsRuntime} (type : string)
    (valueEl : option (string * string)) (v : jobs_view)
  : jobs_view * option js_error :=
  match valueEl with
  | None => (v, None)
  | Some (value, text) =>
      if bool_decide (type = "") || bool_decide (value = "") then (v, None)
      else
        let label := type +:+ ": " +:+ text in
        let isDuplicate :=
          existsb (λ f, bool_decide (filter_type f = type) &&
                        bool_decide (filter_value f = value)) (activeFilters v) in
        if isDuplicate then (v, None)
        else renderActiveFilters
               (set_activeFilters (activeFilters v ++ [Filter type value label]) v)
  end.

Definition removeFilter_view `{JsRuntime} (index : option Z) (v : jobs_view)
  : jobs_view * option js_error :=
  renderActiveFilters (set_activeFilters (removeFilter index (activeFilters v)) v).

(** What happens on the jobs page. *)
Inductive view_event `{JsRuntime} :=
  | JobsList (r : response)
  | FilterAction (a : filter_action).

Definition view_step `{JsRuntime} (v : jobs_view) (ev : view_event)
  : jobs_view * option js_error :=
  match ev with
  | JobsList r => on_jobs_list r v
  | FilterAction (Apply type valueEl) => handleApplyFilter_view type valueEl v
  | FilterAction (Remove index) => removeFilter_view index v
  end.

(** A sequence of events: the page after them, and the exceptions they
    ended with. *)
Fixpoint view_run `{JsRuntime} (evs : list view_event) (v : jobs_view)
  : jobs_view * list js_error :=
  match evs with
  | [] => (v, [])
  | ev :: evs' =>
      let '(v1, e) := view_step v ev in
      let '(v2, es) := view_run evs' v1 in
      (v2, option_list e ++ es)
  end.

(** The page as it is loaded: no filter, no data, no row. *)
Definition view_init `{JsRuntime} : jobs_view := JobsView [] [] [].

(** The table shows the filtered jobs. *)
Definition shows_filtered `{JsRuntime} (v : jobs_view) : Prop :=
  filterJobs (activeFilters v) (jobsData v) = Returned (table v).

(** The filter actions among the events of the page. *)
Definition filter_actions `{JsRuntime} (evs : list view_event) : list filter_action :=
  omap (λ ev, match ev with FilterAction a => Some a | JobsList _ => None end) evs.

(** ** The notification bell (notif.js) *)

(** [`${v}`] *)
Definition template_string `{JsRuntime} (v : js_value) : string :=
  match v with
  | Undefined => "undefined"
  | Null => "null"
  | Bool b => if b then "true" else "false"
  | Num n => number_toString n
  | Str s => s
  | Obj repr => repr
  end.

(** The id of a notification: [data.id], or the string
    [Date.now() + '-' + nextClientId], kept here as its two parts. *)
Inductive notification_id `{JsRuntime} :=
  | ServerId (v : js_value)
  | ClientId (now : number) (k : Z).

Record notification `{JsRuntime} := Notification {
  notification_uid : notification_id;
  notification_title : string;
  notification_message : js_value;
  notification_job_id : js_value;
  notification_type : js_value;
  notification_timestamp : js_value;
  notification_read : bool;
}.
Arguments Notification {_} _ _ _ _ _ _ _.

(** The data of the component [notificationsComponent()] returns. *)
Record bell `{JsRuntime} := Bell {
  bell_open : bool;
  count : Z;
  notifications : list notification;
  nextClientId : Z;
}.
Arguments Bell {_} _ _ _ _.

(** The title and the message [addNotification] chooses (lines 35-52);
    [None] where it returns without adding. *)
Definition notification_text `{JsRuntime} (data : job) : option (string * js_value) :=
  let jobName :=
    template_string (js_or (get_prop data "job_name") (get_prop data "job_id")) in
  let jobId := template_string (get_prop data "job_id") in
  match get_prop data "type" with
  | Str type =>
      if bool_decide (type = "FAILED")
      then Some ("Job " +:+ jobName +:+ " Failed",
                 Str ("Job " +:+ jobId +:+ " finished with status FAILED."))
      else if bool_decide (type = "CANCELLED")
      then Some ("Job " +:+ jobName +:+ " Cancelled",
                 Str ("Job " +:+ jobId +:+ " was cancelled."))
      else if bool_decide (type = "TIMEOUT")
      then Some ("Job " +:+ jobName +:+ " Timeout",
                 Str ("Job " +:+ jobId +:+ " exceeded time limit."))
      else if bool_decide (type = "COMPLETED")
      then Some ("Job " +:+ jobName +:+ " Completed",
                 Str ("Job " +:+ jobId +:+ " finished successfully."))
      else if bool_decide (type = "MAINTENANCE")
      then Some ("MAINTENANCE ALERT",
                 js_or (get_prop data "message")
                       (Str "Cluster maintenance is scheduled soon."))
      else None
  | _ => None
  end.

(** [addNotification(data)] (lines 28-80).  [now] is what [Date.now()]
    gives for the id and [iso] what [new Date().toISOString()] gives;
    [saveNotifications] writes to [localStorage] only. *)
Definition addNotification `{JsRuntime} (now : number) (iso : string) (data : job)
    (c : bell) : bell :=
  let '(uniqueId, next) :=
    if truthy (get_prop data "id")
    then (ServerId (get_prop data "id"), nextClientId c)
    else (ClientId now (nextClientId c), (nextClientId c + 1)%Z) in
  match notification_text data with
  | None => Bell (bell_open c) (count c) (notifications c) next
  | Some (title, message) =>
      let newNotification :=
        Notification uniqueId title message (get_prop data "job_id")
          (get_prop data "type")
          (js_or (get_prop data "timestamp") (Str iso)) false in
      let unshifted := newNotification :: notifications c in
      Bell (bell_open c) (count c + 1)%Z
        (if bool_decide (50 < length unshifted)%nat then take 50 unshifted
         else unshifted)
        next
  end.

(** The payloads of [new_job_notification], each with the clock readings
    of its handling. *)
Definition add_all `{JsRuntime} (payloads : list (number * string * job)) (c : bell)
  : bell :=
  foldl (λ c' '(now, iso, data), addNotification now iso data c') c payloads.

Definition shown_payloads `{JsRuntime} (payloads : list (number * string * job))
  : list (number * string * job) :=
  filter (λ p, is_Some (notification_text p.2)) payloads.

Definition anonymous_payloads `{JsRuntime} (payloads : list (number * string * job))
  : list (number * string * job) :=
  filter (λ p, truthy (get_prop p.2 "id") = false) payloads.

(** An ASCII runtime, for examples: integers for numbers. *)
Definition ascii_upper (a : Ascii.ascii) : Ascii.ascii :=
  let n := Ascii.nat_of_ascii a in
  if (97 <=? n)%nat && (n <=? 122)%nat then Ascii.ascii_of_nat (n - 32) else a.

Definition ascii_lower (a : Ascii.ascii) : Ascii.ascii :=
  let n := Ascii.nat_of_ascii a in
  if (65 <=? n)%nat && (n <=? 90)%nat then Ascii.ascii_of_nat (n + 32) else a.

Fixpoint map_string (f : Ascii.ascii → Ascii.ascii) (s : string) : string :=
  match s with
  | EmptyString => EmptyString
  | String a s' => String (f a) (map_string f s')
  end.

Definition ascii_runtime : JsRuntime :=
  {| number := Z;
     number_truthy := λ z, negb (z =? 0)%Z;
     number_toString := λ z, pretty z;
     toUpperCase := map_string ascii_upper;
     toLowerCase := map_string ascii_lower;
     inherited := λ k, if bool_decide (k = "toString")
                       then Some "function toString() { [native code] }"
                       else None |}.

(** ** Stored settings (common.js lines 152-165, settings.js) *)

(** [localStorage]: string keys, string values; [getItem] gives [null]
    ([None]) for a key that is not stored. *)
Abbreviation storage := (gmap string string) (only parsing).

(** [localStorage.getItem(k) || d] *)
Definition item_or (k d : string) (st : storage) : string :=
  match st !! k with
  | Some v => if bool_decide (v = "") then d else v
  | None => d
  end.

(** [parseInt(s)] without a radix, on ASCII strings: leading white space,
    a sign, a [0x] prefix, then the longest run of digits of the radix;
    [None] is [NaN].  The integer is exact; JavaScript rounds it to a
    double above 2^53. *)
Definition is_white_space (a : Ascii.ascii) : bool :=
  let n := Ascii.nat_of_ascii a in
  ((9 <=? n)%nat && (n <=? 13)%nat) || (n =? 32)%nat.

Fixpoint skip_white_space (s : string) : string :=
  match s with
  | String a s' => if is_white_space a then skip_white_space s' else s
  | EmptyString => s
  end.

Definition digit_value (a : Ascii.ascii) : option Z :=
  let n := Z.of_nat (Ascii.nat_of_ascii a) in
  if (48 <=? n)%Z && (n <=? 57)%Z then Some (n - 48)%Z
  else if (97 <=? n)%Z && (n <=? 122)%Z then Some (n - 87)%Z
  else if (65 <=? n)%Z && (n <=? 90)%Z then Some (n - 55)%Z
  else None.

Fixpoint parse_digits (radix : Z) (acc : option Z) (s : string) : option Z :=
  match s with
  | String a s' =>
      match digit_value a with
      | Some d =>
          if (d <? radix)%Z
          then parse_digits radix (Some (default 0 acc * radix + d)%Z) s'
          else acc
      | None => acc
      end
  | EmptyString => acc
  end.

Definition parseInt (s : string) : option Z :=
  let s1 := skip_white_space s in
  let '(sign, s2) :=
    match s1 with
    | String "-"%char r => ((-1)%Z, r)
    | String "+"%char r => (1%Z, r)
    | _ => (1%Z, s1)
    end in
  let '(radix, s3) :=
    match s2 with
    | String "0"%char (String "x"%char r)
    | String "0"%char (String "X"%char r) => (16%Z, r)
    | _ => (10%Z, s2)
    end in
  Z.mul sign <$> parse_digits radix None s3.

(** Strings of decimal digits. *)
Definition is_digit (a : ascii) : bool :=
  let n := nat_of_ascii a in (48 <=? n)%nat && (n <=? 57)%nat.

Fixpoint all_digits (s : string) : bool :=
  match s with
  | EmptyString => true
  | String a s' => is_digit a && all_digits s'
  end.

(** The click listener of jobs.js (lines 447-453) on a remove button:
    [removeFilter(parseInt(btn.dataset.index))]; [dataIndex] is [None]
    for a button without the attribute. *)
Definition on_remove_click (dataIndex : option string)
    (activeFilters : list job_filter) : list job_filter :=
  removeFilter (parseInt (default "undefined" dataIndex)) activeFilters.

(** common.js *)
Definition getCurrentRefreshRateMs (st : storage) : option Z :=
  let rateSeconds := item_or "refreshRate" "180" st in
  (λ n, n * 1000)%Z <$> parseInt rateSeconds.

Definition getDefaultQos (st : storage) : string :=
  item_or "defaultQos" "normal" st.

Definition getDefaultPartition (st : storage) : string :=
  item_or "defaultPartition" "standard" st.

(** A [<select>] of the settings page: the values of its options and the
    index of the selected one.  Reading [value] gives the value of the
    selected option, and the empty string when none is selected;
    assigning [value] selects the first option with that value, and
    none when there is no such option. *)
Record select := Select {
  options : list string;
  selectedIndex : option nat;
}.

Definition select_value (sel : select) : string :=
  default "" (selectedIndex sel ≫= λ i, options sel !! i).

Definition select_set_value (v : string) (sel : select) : select :=
  Select (options sel) (fst <$> list_find (λ o, o = v) (options sel)).

(** settings.js, on the elements it looks up and on [localStorage]. *)
Definition loadRefreshRate (refreshRateSelect : select) (st : storage)
  : select * storage :=
  match st !! "refreshRate" with
  | Some savedRate =>
      if bool_decide (savedRate = "")
      then (select_set_value "60" refreshRateSelect, <["refreshRate" := "60"]> st)
      else (select_set_value savedRate refreshRateSelect, st)
  | None => (select_set_value "60" refreshRateSelect, <["refreshRate" := "60"]> st)
  end.

Definition loadDefaultSlurmSettings (defaultQosSelect defaultPartitionSelect : select)
    (st : storage) : select * select :=
  let qos :=
    match st !! "defaultQos" with
    | Some savedQos =>
        if bool_decide (savedQos = "") then defaultQosSelect
        else select_set_value savedQos defaultQosSelect
    | None => defaultQosSelect
    end in
  let partition :=
    match st !! "defaultPartition" with
    | Some savedPartition =>
        if bool_decide (savedPartition = "") then defaultPartitionSelect
        else select_set_value savedPartition defaultPartitionSelect
    | None => defaultPartitionSelect
    end in
  (qos, partition).


Definition saveDefaultSlurmSettings (defaultQosSelect defaultPartitionSelect : select)
    (st : storage) : storage :=
  <["defaultPartition" := select_value defaultPartitionSelect]>
    (<["defaultQos" := select_value defaultQosSelect]> st).

(** * Properties *)

(** The two scenarios of the specification, run on the model. *)

(** A session registers a handler for [jobs_list] and polls every
    180000 ms on a connected socket; the page is then hidden for three
    ticks and visible again for the fourth. *)
Example scenario_jobs_polling :
  calls (run [Signal "connect"; OpSocketPage "jobs"; OpOn 0 "jobs_list" 3;
              OpPoll 0 180000%Z 7 (Some true) (Some true);
              Visibility true; Tick 1%positive; Tick 1%positive; Tick 1%positive;
              Visibility false; Tick 1%positive] init)
  = [CallDirect 7; CallTick 1%positive 7].
Proof. by vm_compute. Qed.

(** The socket goes from connected to disconnected to reconnected while
    a started session has a reconnect callback. *)
Example scenario_reconnect :
  calls (run [Signal "connect"; OpSocketPage "jobs"; OpOnReconnect 0 9;
              OpMarkStarted 0; Signal "disconnect"; Signal "reconnect"] init)
  = [CallReconnect 0 9].
Proof. by vm_compute. Qed.

(** ** Lists *)

Lemma elem_of_flat_map {A B} (f : A → list B) (l : list A) (y : B) :
  y ∈ flat_map f l ↔ ∃ x, x ∈ l ∧ y ∈ f x.
Proof.
  rewrite list_elem_of_In, in_flat_map.
  split; intros (x & Hx & Hy); exists x; by rewrite ?list_elem_of_In in *.
Qed.

(** ** The emitter *)

Section emitter_facts.
Implicit Types (e : gmap string (list callback)) (l : list callback).

Lemma callbacks_of_on e ev cb ev' :
  Emitter.callbacks_of (Emitter.on ev cb e) ev' =
  if decide (ev = ev') then Emitter.callbacks_of e ev ++ [cb]
  else Emitter.callbacks_of e ev'.
Proof.
  unfold Emitter.callbacks_of at 1, Emitter.on.
  rewrite lookup_insert. by case_decide.
Qed.

Lemma callbacks_of_off e ev fn ev' :
  Emitter.callbacks_of (Emitter.off ev fn e) ev' =
  if decide (ev = ev') then Emitter.remove_first fn (Emitter.callbacks_of e ev)
  else Emitter.callbacks_of e ev'.
Proof.
  unfold Emitter.callbacks_of, Emitter.off.
  destruct (e !! ev) as [l|] eqn:He; simpl.
  - destruct (Emitter.remove_first fn l) as [|c l'] eqn:Hr.
    + rewrite lookup_delete. by case_decide.
    + rewrite lookup_insert. by case_decide.
  - case_decide; subst; by rewrite ?He.
Qed.

Lemma callbacks_of_off_all e ev ev' :
  Emitter.callbacks_of (Emitter.off_all ev e) ev' =
  if decide (ev = ev') then [] else Emitter.callbacks_of e ev'.
Proof.
  unfold Emitter.callbacks_of, Emitter.off_all.
  rewrite lookup_delete. by case_decide.
Qed.

(** [remove_first] either finds nothing or splices out one match. *)
Lemma remove_first_spec fn l :
  (Forall (λ cb, Emitter.matches fn cb = false) l ∧ Emitter.remove_first fn l = l)
  ∨ ∃ l1 cb l2, l = l1 ++ cb :: l2 ∧ Emitter.matches fn cb = true
      ∧ Forall (λ cb, Emitter.matches fn cb = false) l1
      ∧ Emitter.remove_first fn l = l1 ++ l2.
Proof.
  induction l as [|c l IH]; simpl.
  - left. by split.
  - destruct (Emitter.matches fn c) eqn:Hm.
    + right. exists [], c, l. by repeat split.
    + destruct IH as [[Hall Heq]|(l1 & cb & l2 & -> & Hcb & Hall & Heq)].
      * left. split; [by constructor|]. by rewrite Heq.
      * right. exists (c :: l1), cb, l2. rewrite Heq.
        repeat split; auto.
Qed.

Lemma remove_first_sublist fn l : Emitter.remove_first fn l `sublist_of` l.
Proof.
  destruct (remove_first_spec fn l) as [[_ ->]|(l1 & cb & l2 & -> & _ & _ & ->)];
    [done|].
  apply sublist_app; [done|]. by apply sublist_cons.
Qed.

Lemma matches_Fn h cb :
  Emitter.matches (Fn h) cb = true ↔ cb = Fn h ∨ ∃ w, cb = OnceWrap w h.
Proof.
  unfold Emitter.matches. rewrite orb_true_iff, bool_decide_eq_true.
  split.
  - intros [->|H]; [by left|]. destruct cb; try done.
    apply bool_decide_eq_true in H. right. exists w. congruence.
  - intros [->|[w ->]]; [by left|]. right. by apply bool_decide_eq_true.
Qed.

Lemma matches_OnceWrap w h cb :
  Emitter.matches (OnceWrap w h) cb = true ↔ cb = OnceWrap w h.
Proof.
  unfold Emitter.matches. rewrite orb_true_iff, bool_decide_eq_true.
  split; [|by left].
  intros [->|H]; [done|]. destruct cb; try done.
  all: by apply bool_decide_eq_true in H.
Qed.

End emitter_facts.

(** ** The socket inside a world *)

Section socket_facts.
Implicit Types (s : world) (l : list callback).

Lemma world_eta s :
  World (connected s) (emitter s) (next_wrapper s) (intervals s) (hidden s)
        (beforeunload s) (scopes s) (calls s) = s.
Proof. by destruct s. Qed.

Lemma cbs_socket_on s ev cb ev' :
  cbs (socket_on ev cb s) ev' =
  if decide (ev = ev') then cbs s ev ++ [cb] else cbs s ev'.
Proof. apply callbacks_of_on. Qed.

Lemma cbs_socket_off s ev fn ev' :
  cbs (socket_off ev fn s) ev' =
  if decide (ev = ev') then Emitter.remove_first fn (cbs s ev) else cbs s ev'.
Proof. apply callbacks_of_off. Qed.

Lemma cbs_socket_off_all s ev ev' :
  cbs (socket_off_all ev s) ev' = if decide (ev = ev') then [] else cbs s ev'.
Proof. apply callbacks_of_off_all. Qed.

Lemma remove_first_skip fn a cb l :
  Forall (λ x, Emitter.matches fn x = false) a →
  Emitter.matches fn cb = true →
  Emitter.remove_first fn (a ++ cb :: l) = a ++ l.
Proof.
  intros Ha Hcb. induction Ha as [|x a Hx _ IH]; simpl.
  - by rewrite Hcb.
  - by rewrite Hx, IH.
Qed.

Lemma remove_first_none fn l :
  Forall (λ x, Emitter.matches fn x = false) l →
  Emitter.remove_first fn l = l.
Proof.
  induction 1 as [|x a Hx _ IH]; simpl; [done|]. by rewrite Hx, IH.
Qed.

(** The unsubscriptions of [cleanup], lifted out of the world. *)
Lemma foldl_socket_off s (l : list (string * handler)) :
  foldl (λ s' '(ev, fn), socket_off ev (Fn fn) s') s l =
  set_emitter (foldl (λ e '(ev, fn), Emitter.off ev (Fn fn) e) (emitter s) l) s.
Proof.
  revert s. induction l as [|[ev fn] l IH]; intros s; simpl.
  - unfold set_emitter. by rewrite world_eta.
  - by rewrite IH.
Qed.

Lemma callbacks_of_foldl_off (l : list (string * handler)) e ev :
  NoDup l.*1 →
  Emitter.callbacks_of (foldl (λ e '(ev, fn), Emitter.off ev (Fn fn) e) e l) ev
  = unbind ((list_to_map l : gmap string handler) !! ev)
           (Emitter.callbacks_of e ev).
Proof.
  revert e. induction l as [|[e1 f1] l IH]; intros e Hnd; [done|].
  rewrite fmap_cons in Hnd. apply NoDup_cons in Hnd as [Hnotin Hnd].
  cbn [foldl]. rewrite IH by done. rewrite callbacks_of_off.
  change (list_to_map ((e1, f1) :: l))
    with (<[e1:=f1]> (list_to_map l : gmap string handler)).
  rewrite lookup_insert. case_decide; subst; [|done].
  by rewrite (not_elem_of_list_to_map_1 _ _ Hnotin).
Qed.

Lemma foldl_clearInterval s (l : list timer_id) :
  foldl clearInterval s l =
  set_intervals (foldl (λ m id, delete id m) (intervals s) l) s.
Proof.
  revert s. induction l as [|t l IH]; intros s; simpl.
  - unfold set_intervals. by rewrite world_eta.
  - by rewrite IH.
Qed.

Lemma lookup_foldl_delete (m : gmap timer_id interval) (l : list timer_id) t :
  foldl (λ m id, delete id m) m l !! t = if decide (t ∈ l) then None else m !! t.
Proof.
  revert m. induction l as [|x l IH]; intros m; cbn [foldl].
  - rewrite decide_False; [done|]. apply not_elem_of_nil.
  - rewrite IH. destruct (decide (t ∈ l)) as [Hin|Hnin].
    + rewrite decide_True; [done|]. by right.
    + destruct (decide (t = x)) as [->|Hne].
      * rewrite decide_True by left. apply lookup_delete_eq.
      * rewrite decide_False.
        -- by apply lookup_delete_ne.
        -- intros [?|?]%elem_of_cons; done.
Qed.

(** A dispatch only removes the wrappers that fire and extends the log. *)
Lemma foldl_fire ev s l :
  foldl (fire ev) s l =
  World (connected s)
        (foldl (λ e cb, if is_wrapper cb then Emitter.off ev cb e else e)
               (emitter s) l)
        (next_wrapper s) (intervals s) (hidden s) (beforeunload s) (scopes s)
        (calls s ++ flat_map (emitted ev (scopes s)) l).
Proof.
  revert s. induction l as [|cb l IH]; intros s; simpl.
  - rewrite app_nil_r. by rewrite world_eta.
  - rewrite IH. destruct cb as [h|w h|sid|tag]; simpl.
    + by rewrite <- app_assoc.
    + by rewrite <- app_assoc.
    + destruct (scopes s !! sid) as [sc|]; [|by rewrite app_nil_l].
      destruct (started sc); [|by rewrite app_nil_l].
      destruct (_onReconnect sc); simpl; [|done].
      by rewrite <- app_assoc.
    + done.
Qed.

Lemma callbacks_of_fired ev l a e :
  Emitter.callbacks_of e ev = a ++ l →
  Forall (λ cb, is_wrapper cb = false) a →
  Emitter.callbacks_of
    (foldl (λ e cb, if is_wrapper cb then Emitter.off ev cb e else e) e l) ev
  = a ++ filter (λ cb, is_wrapper cb = false) l.
Proof.
  revert a e. induction l as [|cb l IH]; intros a e He Ha; simpl.
  - by rewrite He.
  - destruct (is_wrapper cb) eqn:Hw.
    + rewrite filter_cons_False by (rewrite Hw; done).
      apply IH; [|done]. rewrite callbacks_of_off, decide_True by done.
      rewrite He. apply remove_first_skip.
      * eapply Forall_impl; [exact Ha|]. intros x Hx. simpl in Hx.
        destruct cb as [|w h| |]; try done.
        apply not_true_is_false. intros Hm%matches_OnceWrap. by subst.
      * destruct cb as [|w h| |]; try done. by apply matches_OnceWrap.
    + rewrite filter_cons_True by done.
      rewrite (IH (a ++ [cb]) e).
      * by rewrite <- app_assoc.
      * by rewrite <- app_assoc.
      * apply Forall_app. split; [done|]. by constructor.
Qed.

Lemma callbacks_of_fired_ne ev ev' l e :
  ev ≠ ev' →
  Emitter.callbacks_of
    (foldl (λ e cb, if is_wrapper cb then Emitter.off ev cb e else e) e l) ev'
  = Emitter.callbacks_of e ev'.
Proof.
  intros Hne. revert e. induction l as [|cb l IH]; intros e; simpl; [done|].
  rewrite IH. destruct (is_wrapper cb); [|done].
  by rewrite callbacks_of_off, decide_False.
Qed.

Lemma cbs_dispatch ev s ev' :
  cbs (dispatch ev s) ev' =
  if decide (ev = ev') then filter (λ cb, is_wrapper cb = false) (cbs s ev)
  else cbs s ev'.
Proof.
  unfold dispatch. rewrite foldl_fire. unfold cbs at 1. simpl.
  case_decide as Hev.
  - subst. by apply (callbacks_of_fired _ _ []).
  - by apply callbacks_of_fired_ne.
Qed.

Lemma calls_dispatch ev s :
  calls (dispatch ev s) = calls s ++ flat_map (emitted ev (scopes s)) (cbs s ev).
Proof. unfold dispatch. by rewrite foldl_fire. Qed.

Lemma scopes_dispatch ev s : scopes (dispatch ev s) = scopes s.
Proof. unfold dispatch. by rewrite foldl_fire. Qed.

Lemma next_wrapper_dispatch ev s : next_wrapper (dispatch ev s) = next_wrapper s.
Proof. unfold dispatch. by rewrite foldl_fire. Qed.

Lemma intervals_dispatch ev s : intervals (dispatch ev s) = intervals s.
Proof. unfold dispatch. by rewrite foldl_fire. Qed.

End socket_facts.

(** ** Observations under the list operations of the emitter *)

Section observation_facts.
Implicit Types (l : list callback) (m : gmap session_id scope).

Lemma wrapper_ids_app l1 l2 :
  wrapper_ids (l1 ++ l2) = wrapper_ids l1 ++ wrapper_ids l2.
Proof. apply omap_app. Qed.

Lemma user_handlers_app l1 l2 :
  user_handlers (l1 ++ l2) = user_handlers l1 ++ user_handlers l2.
Proof. apply omap_app. Qed.

Lemma reconnect_ids_app l1 l2 :
  reconnect_ids (l1 ++ l2) = reconnect_ids l1 ++ reconnect_ids l2.
Proof. apply omap_app. Qed.

Lemma elem_of_wrapper_ids w l : w ∈ wrapper_ids l ↔ ∃ h, OnceWrap w h ∈ l.
Proof.
  unfold wrapper_ids. rewrite list_elem_of_omap. split.
  - intros ([| |?|?] & Hin & Heq); simplify_eq. eauto.
  - intros [h Hin]. by exists (OnceWrap w h).
Qed.

Lemma elem_of_user_handlers h l : h ∈ user_handlers l ↔ Fn h ∈ l.
Proof.
  unfold user_handlers. rewrite list_elem_of_omap. split.
  - intros ([| |?|?] & Hin & Heq); by simplify_eq.
  - intros Hin. by exists (Fn h).
Qed.

Lemma wrapper_ids_nil_iff l :
  wrapper_ids l = [] ↔ Forall (λ cb, is_wrapper cb = false) l.
Proof.
  induction l as [|cb l IH]; [done|].
  rewrite Forall_cons, <- IH. destruct cb; simpl; split; try done.
  all: try (by intros [_ ?]); by intros [? _].
Qed.

Lemma wrapper_ids_remove_first fn l :
  wrapper_ids (Emitter.remove_first fn l) `sublist_of` wrapper_ids l.
Proof.
  destruct (remove_first_spec fn l) as [[_ ->]|(l1 & cb & l2 & -> & _ & _ & ->)];
    [done|].
  rewrite !wrapper_ids_app. apply sublist_app; [done|].
  change (cb :: l2) with ([cb] ++ l2). rewrite wrapper_ids_app.
  by apply sublist_inserts_l.
Qed.

Lemma wrapper_ids_unbind old l :
  wrapper_ids (unbind old l) `sublist_of` wrapper_ids l.
Proof. destruct old; [apply wrapper_ids_remove_first|done]. Qed.

Lemma reconnect_ids_remove_first fn l :
  (∀ sid, fn ≠ ReconnectCb sid) →
  reconnect_ids (Emitter.remove_first fn l) = reconnect_ids l.
Proof.
  intros Hfn.
  destruct (remove_first_spec fn l) as [[_ ->]|(l1 & cb & l2 & -> & Hm & _ & ->)];
    [done|].
  rewrite !reconnect_ids_app. f_equal.
  destruct cb as [| |sid|]; try done.
  unfold Emitter.matches in Hm. simpl in Hm. rewrite orb_false_r in Hm.
  apply bool_decide_eq_true in Hm. by destruct (Hfn sid).
Qed.

Lemma reconnect_ids_unbind old l :
  reconnect_ids (unbind old l) = reconnect_ids l.
Proof. destruct old; [by apply reconnect_ids_remove_first|done]. Qed.

Lemma wrapper_ids_filter l :
  wrapper_ids (filter (λ cb, is_wrapper cb = false) l) = [].
Proof.
  apply wrapper_ids_nil_iff, Forall_forall.
  by intros cb [? _]%list_elem_of_filter.
Qed.

Lemma reconnect_ids_filter l :
  reconnect_ids (filter (λ cb, is_wrapper cb = false) l) = reconnect_ids l.
Proof.
  induction l as [|cb l IH]; [done|].
  destruct cb; simpl;
    rewrite ?filter_cons_True, ?filter_cons_False by done; simpl;
    by rewrite ?IH.
Qed.

Lemma user_handlers_filter l :
  user_handlers (filter (λ cb, is_wrapper cb = false) l) = user_handlers l.
Proof.
  induction l as [|cb l IH]; [done|].
  destruct cb; simpl;
    rewrite ?filter_cons_True, ?filter_cons_False by done; simpl;
    by rewrite ?IH.
Qed.


(** What [off event handler] does to the subscribed page functions:
    nothing, or it removes one subscription of [handler], or it
    removes a wrapper of [handler] and leaves them alone. *)
Lemma user_handlers_remove_first h l :
  ((Fn h ∉ l) ∧ user_handlers (Emitter.remove_first (Fn h) l) = user_handlers l)
  ∨ (user_handlers l ≡ₚ h :: user_handlers (Emitter.remove_first (Fn h) l))
  ∨ (wrapper_ids l ≠ [] ∧
     user_handlers (Emitter.remove_first (Fn h) l) = user_handlers l).
Proof.
  destruct (remove_first_spec (Fn h) l)
    as [[Hall ->]|(l1 & cb & l2 & -> & Hm & _ & ->)].
  - left. split; [|done]. intros Hin.
    rewrite Forall_forall in Hall. specialize (Hall _ Hin).
    assert (Emitter.matches (Fn h) (Fn h) = true) by (apply matches_Fn; auto).
    congruence.
  - right. apply matches_Fn in Hm as [->|[w ->]].
    + left. rewrite !user_handlers_app. simpl.
      by rewrite Permutation_middle.
    + right. split.
      * rewrite wrapper_ids_app. simpl. by destruct (wrapper_ids l1).
      * by rewrite !user_handlers_app.
Qed.


Lemma unbind_subscribed old l (others : list handler) :
  option_list old ++ others ⊆+ user_handlers l →
  others ⊆+ user_handlers (unbind old l).
Proof.
  intros Hsub. destruct old as [h|]; [|done]. simpl in *.
  destruct (user_handlers_remove_first h l) as [[Hnin ->]|[Hp|[_ ->]]].
  - etrans; [|exact Hsub]. by apply submseteq_cons.
  - rewrite Hp in Hsub. by apply (submseteq_app_inv_l _ _ [h]).
  - etrans; [|exact Hsub]. by apply submseteq_cons.
Qed.

(** The handlers tracked for an event, session by session. *)
Lemma bound_in_insert m sid sc ev :
  bound_in (<[sid:=sc]> m) ev ≡ₚ
  option_list (listeners sc !! ev) ++ bound_in (delete sid m) ev.
Proof.
  unfold bound_in. rewrite <- (insert_delete_eq m).
  destruct (listeners sc !! ev) as [h|] eqn:Hh; simpl.
  - rewrite (omap_insert_Some _ _ _ _ h) by done.
    rewrite map_to_list_insert; [done|].
    by rewrite lookup_omap, lookup_delete_eq.
  - rewrite omap_insert_None by done.
    by rewrite delete_id by (by rewrite lookup_omap, lookup_delete_eq).
Qed.

Lemma bound_in_lookup m sid sc ev :
  m !! sid = Some sc →
  bound_in m ev ≡ₚ option_list (listeners sc !! ev) ++ bound_in (delete sid m) ev.
Proof.
  intros Hm. rewrite <- (insert_id m sid sc) at 1 by done.
  apply bound_in_insert.
Qed.

Lemma bound_in_insert_same m sid sc sc' ev :
  m !! sid = Some sc →
  listeners sc' !! ev = listeners sc !! ev →
  bound_in (<[sid:=sc']> m) ev ≡ₚ bound_in m ev.
Proof.
  intros Hm Heq. rewrite bound_in_insert, (bound_in_lookup m sid sc) by done.
  by rewrite Heq.
Qed.

Lemma bound_in_insert_fresh m sid sc ev :
  m !! sid = None → listeners sc = ∅ →
  bound_in (<[sid:=sc]> m) ev ≡ₚ bound_in m ev.
Proof.
  intros Hm Hl. rewrite bound_in_insert, Hl, lookup_empty. simpl.
  by rewrite delete_id.
Qed.

End observation_facts.

(** ** What each operation does to the state *)

Section effects.
Implicit Types (s : world) (sc : scope).

Lemma reconnect_name_ne (nm : string) : "reconnect." +:+ nm ≠ "reconnect".
Proof. intros H. cbn in H. discriminate H. Qed.

Lemma cbs_log c s ev : cbs (log c s) ev = cbs s ev.
Proof. done. Qed.

Lemma cbs_set_scope sid sc s ev : cbs (set_scope sid sc s) ev = cbs s ev.
Proof. done. Qed.

Lemma cbs_socket_once s ev h ev' :
  cbs (socket_once ev h s) ev' =
  if decide (ev = ev') then cbs s ev ++ [OnceWrap (next_wrapper s) h]
  else cbs s ev'.
Proof. apply callbacks_of_on. Qed.

(** *** [SocketPage] *)

Lemma SocketPage_fresh nm s : scopes s !! (SocketPage nm s).1 = None.
Proof. apply not_elem_of_dom, is_fresh. Qed.

Lemma scopes_SocketPage nm s :
  scopes (SocketPage nm s).2 =
  <[(SocketPage nm s).1 := Scope nm [] ∅ false None]> (scopes s).
Proof. done. Qed.

Lemma cbs_SocketPage nm s ev :
  cbs (SocketPage nm s).2 ev =
  if decide (ev = "reconnect")
  then cbs s "reconnect" ++ [ReconnectCb (SocketPage nm s).1]
  else if decide (ev = "reconnect." +:+ nm) then [] else cbs s ev.
Proof.
  unfold SocketPage. cbn [snd fst]. rewrite cbs_socket_on.
  rewrite !cbs_socket_off_all.
  pose proof (reconnect_name_ne nm).
  repeat case_decide; subst; done.
Qed.

(** *** [on] *)

Lemma cbs_on s sid sc ev h ev' :
  scopes s !! sid = Some sc →
  cbs (on sid ev h s) ev' =
  if decide (ev = ev') then unbind (listeners sc !! ev) (cbs s ev) ++ [Fn h]
  else cbs s ev'.
Proof.
  intros Hsc. unfold on. rewrite Hsc, cbs_socket_on, !cbs_set_scope.
  destruct (listeners sc !! ev) as [old|]; simpl; [|reflexivity].
  rewrite !cbs_socket_off. repeat case_decide; done.
Qed.

Lemma scopes_on s sid sc ev h :
  scopes s !! sid = Some sc →
  scopes (on sid ev h s) =
  <[sid := set_listeners (<[ev := h]> (listeners sc)) sc]> (scopes s).
Proof.
  intros Hsc. unfold on. rewrite Hsc. by destruct (listeners sc !! ev).
Qed.

Lemma on_frame s sid ev h :
  next_wrapper (on sid ev h s) = next_wrapper s ∧
  calls (on sid ev h s) = calls s ∧
  intervals (on sid ev h s) = intervals s ∧
  connected (on sid ev h s) = connected s ∧
  hidden (on sid ev h s) = hidden s.
Proof.
  unfold on. destruct (scopes s !! sid) as [sc|]; [|done].
  by destruct (listeners sc !! ev).
Qed.

(** *** [emitWhenReady] *)

Lemma emitWhenReady_connected s sid f :
  is_Some (scopes s !! sid) → connected s = true →
  emitWhenReady sid f s = log (CallDirect f) s.
Proof. intros [sc Hsc] Hc. unfold emitWhenReady. by rewrite Hsc, Hc. Qed.

Lemma emitWhenReady_disconnected s sid f :
  is_Some (scopes s !! sid) → connected s = false →
  emitWhenReady sid f s = socket_once "connect" f s.
Proof. intros [sc Hsc] Hc. unfold emitWhenReady. by rewrite Hsc, Hc. Qed.

Lemma emitWhenReady_frame s sid f :
  scopes (emitWhenReady sid f s) = scopes s ∧
  intervals (emitWhenReady sid f s) = intervals s ∧
  connected (emitWhenReady sid f s) = connected s ∧
  hidden (emitWhenReady sid f s) = hidden s.
Proof.
  unfold emitWhenReady. destruct (scopes s !! sid); [|done].
  destruct (connected s) eqn:Hc; repeat split; try done; exact Hc.
Qed.

(** *** [poll] *)

Lemma poll_unfold s sid sc ms fn im vo :
  scopes s !! sid = Some sc →
  poll sid ms fn im vo s =
  set_scope sid (set_timers (timers sc ++ [fresh (dom (intervals s))]) sc)
    (set_intervals
       (<[fresh (dom (intervals s)) := Interval ms (default true vo) fn]>
          (intervals s))
       (if default true im then emitWhenReady sid fn s else s)).
Proof.
  intros Hsc. unfold poll, setInterval. rewrite Hsc.
  destruct (emitWhenReady_frame s sid fn) as (Hs & Hi & _).
  destruct (default true im); cbn [scopes set_intervals];
    rewrite ?Hs, ?Hi, Hsc; done.
Qed.

(** *** [cleanup] *)

Lemma cleanup_unfold s sid sc :
  scopes s !! sid = Some sc →
  cleanup sid s =
  World (connected s)
    (foldl (λ e '(ev, fn), Emitter.off ev (Fn fn) e) (emitter s)
           (map_to_list (listeners sc)))
    (next_wrapper s)
    (foldl (λ m id, delete id m) (intervals s) (timers sc))
    (hidden s) (beforeunload s)
    (<[sid := set_listeners ∅ (set_timers [] sc)]> (scopes s))
    (calls s).
Proof.
  intros Hsc. unfold cleanup. rewrite Hsc.
  rewrite foldl_clearInterval, foldl_socket_off.
  unfold set_scope, set_scopes, set_emitter, set_intervals. cbn.
  by rewrite insert_insert_eq.
Qed.

Lemma cbs_cleanup s sid sc ev :
  scopes s !! sid = Some sc →
  cbs (cleanup sid s) ev = unbind (listeners sc !! ev) (cbs s ev).
Proof.
  intros Hsc. rewrite (cleanup_unfold _ _ _ Hsc). unfold cbs. cbn [emitter].
  rewrite callbacks_of_foldl_off by apply NoDup_fst_map_to_list.
  by rewrite list_to_map_to_list.
Qed.

Lemma cleanup_absent s sid : scopes s !! sid = None → cleanup sid s = s.
Proof. intros H. unfold cleanup. by rewrite H. Qed.

(** *** Signals and ticks *)

Lemma cbs_signal ev s ev' :
  cbs (signal ev s) ev' =
  if decide (ev = ev') then filter (λ cb, is_wrapper cb = false) (cbs s ev)
  else cbs s ev'.
Proof.
  unfold signal. rewrite cbs_dispatch.
  by repeat (case_bool_decide; try done).
Qed.

Lemma calls_signal ev s :
  calls (signal ev s) = calls s ++ flat_map (emitted ev (scopes s)) (cbs s ev).
Proof.
  unfold signal. rewrite calls_dispatch.
  by repeat (case_bool_decide; try done).
Qed.

Lemma signal_frame ev s :
  scopes (signal ev s) = scopes s ∧
  next_wrapper (signal ev s) = next_wrapper s ∧
  intervals (signal ev s) = intervals s ∧
  hidden (signal ev s) = hidden s.
Proof.
  unfold signal, dispatch. rewrite foldl_fire.
  by repeat (case_bool_decide; try done).
Qed.

Lemma tick_cases t s :
  tick t s = s ∨ ∃ h, tick t s = log (CallTick t h) s.
Proof.
  unfold tick. destruct (intervals s !! t) as [iv|]; [|by left].
  destruct (_ || _); [right; eauto|by left].
Qed.

End effects.

(** ** The invariant [wf] *)

Section wf_facts.
Implicit Types (s : world) (sc : scope).

Lemma reconnect_name_ne_connect (nm : string) : "reconnect." +:+ nm ≠ "connect".
Proof. intros H. cbn in H. discriminate H. Qed.

(** A state whose wrappers, reconnect listeners, deferred calls and
    [connect] bindings are justified by a well-formed state is
    well-formed. *)
Lemma wf_transfer s s' :
  wf s →
  (∀ ev, wrapper_ids (cbs s' ev) `sublist_of` wrapper_ids (cbs s ev)) →
  (next_wrapper s ≤ next_wrapper s')%nat →
  reconnect_ids (cbs s' "reconnect") ≡ₚ elements (dom (scopes s')) →
  (∀ w h, CallDeferred w h ∈ calls s' →
          CallDeferred w h ∈ calls s ∨ ∃ ev, w ∈ wrapper_ids (cbs s ev)) →
  bound s' "connect" ⊆+ user_handlers (cbs s' "connect") →
  wf s'.
Proof.
  intros [Hf Hc Hn Hr Hl Hb] Hsub HN Hr' Hl' Hb'. split.
  - intros ev w Hw. eapply Nat.lt_le_trans; [|exact HN].
    eapply Hf, elem_of_sublist; [exact Hw|apply Hsub].
  - intros ev w Hw. eapply Hc, elem_of_sublist; [exact Hw|apply Hsub].
  - exact (sublist_NoDup _ _ Hn (Hsub _)).
  - done.
  - intros w h [Hin|[ev Hin]]%Hl'.
    + eapply Nat.lt_le_trans; [|exact HN]. by eapply Hl.
    + eapply Nat.lt_le_trans; [|exact HN]. by eapply Hf.
  - done.
Qed.

Lemma wf_same s s' :
  wf s →
  (∀ ev, cbs s' ev = cbs s ev) →
  next_wrapper s' = next_wrapper s →
  dom (scopes s') = dom (scopes s) →
  (∀ w h, CallDeferred w h ∈ calls s' → CallDeferred w h ∈ calls s) →
  bound s' "connect" ≡ₚ bound s "connect" →
  wf s'.
Proof.
  intros Hwf Hcbs HN Hdom Hcalls Hb.
  apply (wf_transfer s); try done.
  - intros ev. by rewrite Hcbs.
  - by rewrite HN.
  - rewrite Hcbs, Hdom. apply Hwf.
  - intros w h Hin. left. by apply Hcalls.
  - rewrite Hb, Hcbs. apply Hwf.
Qed.

Lemma wf_init : wf init.
Proof.
  assert (Hcbs : ∀ ev, cbs init ev = [] ∨ ∃ tag, cbs init ev = [LogCb tag]).
  { intros ev. unfold cbs, init. cbn [emitter].
    repeat (rewrite callbacks_of_on || rewrite callbacks_of_off_all).
    unfold Emitter.callbacks_of. rewrite ?lookup_empty.
    repeat case_decide; simplify_eq; simpl; eauto. }
  split.
  - intros ev w. by destruct (Hcbs ev) as [->|[tag ->]]; intros ?%elem_of_nil.
  - intros ev w. by destruct (Hcbs ev) as [->|[tag ->]]; intros ?%elem_of_nil.
  - destruct (Hcbs "connect") as [->|[tag ->]]; constructor.
  - by destruct (Hcbs "reconnect") as [->|[tag ->]].
  - by intros w h ?%elem_of_nil.
  - apply submseteq_nil_l.
Qed.

Lemma wf_log_call c s :
  wf s → (∀ w h, c ≠ CallDeferred w h) → wf (log c s).
Proof.
  intros Hwf Hc. apply (wf_same s); try done.
  intros w h [Hin|Hin%list_elem_of_singleton]%elem_of_app; [done|].
  by destruct (Hc w h).
Qed.

Lemma wf_set_scope s sid sc sc' :
  wf s → scopes s !! sid = Some sc →
  listeners sc' !! "connect" = listeners sc !! "connect" →
  wf (set_scope sid sc' s).
Proof.
  intros Hwf Hsc Hl. apply (wf_same s); try done.
  - cbn. by apply dom_insert_lookup_L.
  - by apply (bound_in_insert_same _ _ sc).
Qed.

Lemma wf_socket_once s h : wf s → wf (socket_once "connect" h s).
Proof.
  intros [Hf Hc Hn Hr Hl Hb].
  assert (Hids : ∀ ev, wrapper_ids (cbs (socket_once "connect" h s) ev) =
    if decide ("connect" = ev) then wrapper_ids (cbs s "connect") ++ [next_wrapper s]
    else wrapper_ids (cbs s ev)).
  { intros ev. rewrite cbs_socket_once. case_decide; [|done].
    by rewrite wrapper_ids_app. }
  split.
  - intros ev w. rewrite Hids. cbn [next_wrapper socket_once set_next_wrapper].
    case_decide.
    + intros [Hin|Hin%list_elem_of_singleton]%elem_of_app; [|lia].
      apply Hf in Hin. lia.
    + intros Hin%Hf. lia.
  - intros ev w. rewrite Hids. case_decide; [done|]. apply Hc.
  - rewrite Hids, decide_True by done. apply NoDup_app. split; [done|].
    split; [|apply NoDup_singleton].
    intros w Hin%Hf ->%list_elem_of_singleton. lia.
  - rewrite cbs_socket_once, decide_False by done. apply Hr.
  - intros w h' Hin%Hl. cbn. lia.
  - rewrite cbs_socket_once, decide_True, user_handlers_app by done.
    simpl. rewrite app_nil_r. apply Hb.
Qed.

Lemma wf_SocketPage nm s : wf s → wf (SocketPage nm s).2.
Proof.
  intros Hwf. pose proof (SocketPage_fresh nm s) as Hfresh.
  apply (wf_transfer s); try done.
  - intros ev. rewrite cbs_SocketPage. repeat case_decide; subst.
    + rewrite wrapper_ids_app. simpl. by rewrite app_nil_r.
    + apply sublist_nil_l.
    + done.
  - rewrite cbs_SocketPage, decide_True, reconnect_ids_app by done.
    rewrite scopes_SocketPage, dom_insert_L. simpl.
    rewrite elements_union_singleton by (by apply not_elem_of_dom).
    rewrite (wf_reconnect _ Hwf). by rewrite Permutation_app_comm.
  - auto.
  - rewrite cbs_SocketPage, decide_False by done.
    rewrite decide_False by (intros H; by destruct (reconnect_name_ne_connect nm)).
    unfold bound. rewrite scopes_SocketPage.
    rewrite bound_in_insert_fresh by done. apply Hwf.
Qed.

Lemma wf_on sid ev h s : wf s → wf (on sid ev h s).
Proof.
  intros Hwf. destruct (scopes s !! sid) as [sc|] eqn:Hsc;
    [|unfold on; by rewrite Hsc].
  destruct (on_frame s sid ev h) as (HN & Hcalls & _).
  apply (wf_transfer s); try done.
  - intros ev'. rewrite (cbs_on _ _ _ _ _ _ Hsc). case_decide; subst; [|done].
    rewrite wrapper_ids_app. simpl. rewrite app_nil_r.
    apply wrapper_ids_unbind.
  - by rewrite HN.
  - rewrite (cbs_on _ _ _ _ _ _ Hsc), (scopes_on _ _ _ _ _ Hsc).
    rewrite dom_insert_lookup_L by done.
    case_decide; [|apply Hwf].
    rewrite reconnect_ids_app, reconnect_ids_unbind. simpl.
    rewrite app_nil_r. subst. apply Hwf.
  - rewrite Hcalls. auto.
  - unfold bound. rewrite (cbs_on _ _ _ _ _ _ Hsc), (scopes_on _ _ _ _ _ Hsc).
    pose proof (wf_bound _ Hwf) as Hb. unfold bound in Hb.
    case_decide; subst.
    + rewrite bound_in_insert. cbn [listeners set_listeners].
      rewrite lookup_insert_eq. simpl.
      rewrite user_handlers_app. simpl.
      rewrite (bound_in_lookup _ _ _ _ Hsc) in Hb.
      apply unbind_subscribed in Hb.
      rewrite <- Permutation_cons_append. by apply submseteq_skip.
    + rewrite (bound_in_insert_same _ _ sc); [done|done|].
      cbn [listeners set_listeners]. by rewrite lookup_insert_ne.
Qed.

Lemma wf_emitWhenReady sid f s : wf s → wf (emitWhenReady sid f s).
Proof.
  intros Hwf. unfold emitWhenReady.
  destruct (scopes s !! sid); [|done]. destruct (connected s).
  - by apply wf_log_call.
  - by apply wf_socket_once.
Qed.

Lemma wf_poll sid ms fn im vo s : wf s → wf (poll sid ms fn im vo s).
Proof.
  intros Hwf. destruct (scopes s !! sid) as [sc|] eqn:Hsc;
    [|unfold poll; by rewrite Hsc].
  rewrite (poll_unfold _ _ _ _ _ _ _ Hsc).
  set (s1 := if default true im then emitWhenReady sid fn s else s).
  assert (wf s1) as Hwf1.
  { unfold s1. destruct (default true im); [by apply wf_emitWhenReady|done]. }
  assert (scopes s1 = scopes s) as Hs1.
  { unfold s1. destruct (default true im); [apply emitWhenReady_frame|done]. }
  apply (wf_same s1); try done.
  - cbn. rewrite Hs1. apply dom_insert_lookup_L. by rewrite Hsc.
  - unfold bound. cbn. rewrite Hs1. by apply (bound_in_insert_same _ _ sc).
Qed.

Lemma wf_cleanup sid s : wf s → wf (cleanup sid s).
Proof.
  intros Hwf. destruct (scopes s !! sid) as [sc|] eqn:Hsc;
    [|by rewrite cleanup_absent].
  assert (Hs : scopes (cleanup sid s) =
               <[sid := set_listeners ∅ (set_timers [] sc)]> (scopes s))
    by (by rewrite (cleanup_unfold _ _ _ Hsc)).
  apply (wf_transfer s); try done.
  - intros ev. rewrite (cbs_cleanup _ _ _ _ Hsc). apply wrapper_ids_unbind.
  - by rewrite (cleanup_unfold _ _ _ Hsc).
  - rewrite (cbs_cleanup _ _ _ _ Hsc), Hs, reconnect_ids_unbind.
    rewrite dom_insert_lookup_L by done. apply Hwf.
  - rewrite (cleanup_unfold _ _ _ Hsc). auto.
  - unfold bound. rewrite (cbs_cleanup _ _ _ _ Hsc), Hs.
    pose proof (wf_bound _ Hwf) as Hb. unfold bound in Hb.
    rewrite bound_in_insert. cbn [listeners set_listeners].
    rewrite lookup_empty. simpl.
    rewrite (bound_in_lookup _ _ _ _ Hsc) in Hb.
    by apply unbind_subscribed in Hb.
Qed.

Lemma wf_signal ev s : wf s → wf (signal ev s).
Proof.
  intros Hwf. destruct (signal_frame ev s) as (Hs & HN & _).
  apply (wf_transfer s); try done.
  - intros ev'. rewrite cbs_signal. case_decide; [|done].
    rewrite wrapper_ids_filter. apply sublist_nil_l.
  - by rewrite HN.
  - rewrite cbs_signal, Hs. case_decide; [|apply Hwf].
    rewrite reconnect_ids_filter. subst. apply Hwf.
  - intros w h. rewrite calls_signal.
    intros [Hin|Hin]%elem_of_app; [by left|]. right. exists ev.
    apply elem_of_flat_map in Hin as (cb & Hin & Hcb).
    apply elem_of_wrapper_ids. exists h.
    destruct cb as [h'|w' h'|sid|tag]; simpl in Hcb.
    + by apply list_elem_of_singleton in Hcb.
    + apply list_elem_of_singleton in Hcb. by simplify_eq.
    + destruct (scopes s !! sid) as [sc|]; [|by apply elem_of_nil in Hcb].
      destruct (started sc); [|by apply elem_of_nil in Hcb].
      destruct (_onReconnect sc); [|by apply elem_of_nil in Hcb].
      by apply list_elem_of_singleton in Hcb.
    + by apply elem_of_nil in Hcb.
  - unfold bound. rewrite cbs_signal, Hs. case_decide; [|apply Hwf].
    rewrite user_handlers_filter. subst. apply Hwf.
Qed.

Lemma wf_tick t s : wf s → wf (tick t s).
Proof.
  intros Hwf. destruct (tick_cases t s) as [->|[h ->]]; [done|].
  by apply wf_log_call.
Qed.

Lemma wf_unload s : wf s → wf (unload s).
Proof.
  unfold unload. generalize (beforeunload s) as l. intros l. revert s.
  induction l as [|sid l IH]; intros s Hwf; [done|].
  simpl. by apply IH, wf_cleanup.
Qed.

Lemma wf_step s o : wf s → wf (step s o).
Proof.
  intros Hwf. destruct o; simpl.
  - by apply wf_SocketPage.
  - by apply wf_on.
  - by apply wf_emitWhenReady.
  - by apply wf_poll.
  - by apply wf_cleanup.
  - unfold onReconnect. destruct (scopes s !! sid) as [sc|] eqn:Hsc; [|done].
    by apply (wf_set_scope _ _ sc).
  - unfold markStarted. destruct (scopes s !! sid) as [sc|] eqn:Hsc; [|done].
    by apply (wf_set_scope _ _ sc).
  - by apply wf_signal.
  - by apply wf_tick.
  - by apply (wf_same s).
  - by apply wf_unload.
Qed.

Lemma wf_run ops s : wf s → wf (run ops s).
Proof.
  unfold run. revert s. induction ops as [|o ops IH]; intros s Hwf; [done|].
  simpl. by apply IH, wf_step.
Qed.

End wf_facts.

(** ** Timers *)

Section timer_facts.
Implicit Types (s : world) (sc : scope).

Lemma poll_intervals s sid sc ms fn im vo :
  scopes s !! sid = Some sc →
  intervals (poll sid ms fn im vo s) =
  <[fresh (dom (intervals s)) := Interval ms (default true vo) fn]> (intervals s).
Proof. intros Hsc. by rewrite (poll_unfold _ _ _ _ _ _ _ Hsc). Qed.

Lemma poll_fresh s : intervals s !! fresh (dom (intervals s)) = None.
Proof. apply not_elem_of_dom, is_fresh. Qed.

Lemma poll_scopes s sid sc ms fn im vo :
  scopes s !! sid = Some sc →
  scopes (poll sid ms fn im vo s) =
  <[sid := set_timers (timers sc ++ [fresh (dom (intervals s))]) sc]> (scopes s).
Proof.
  intros Hsc. rewrite (poll_unfold _ _ _ _ _ _ _ Hsc). cbn.
  destruct (default true im); [|done].
  by destruct (emitWhenReady_frame s sid fn) as (-> & _).
Qed.

Lemma poll_calls s sid sc ms fn im vo :
  scopes s !! sid = Some sc →
  calls (poll sid ms fn im vo s) =
  calls (if default true im then emitWhenReady sid fn s else s).
Proof. intros Hsc. by rewrite (poll_unfold _ _ _ _ _ _ _ Hsc). Qed.

Lemma poll_cbs s sid sc ms fn im vo ev :
  scopes s !! sid = Some sc →
  cbs (poll sid ms fn im vo s) ev =
  cbs (if default true im then emitWhenReady sid fn s else s) ev.
Proof. intros Hsc. by rewrite (poll_unfold _ _ _ _ _ _ _ Hsc). Qed.

Lemma tick_visible t s iv :
  intervals s !! t = Some iv → hidden s = false →
  tick t s = log (CallTick t (tick_fn iv)) s.
Proof. intros Hi Hh. unfold tick. rewrite Hi, Hh. by rewrite orb_true_r. Qed.

Lemma tick_hidden t s iv :
  intervals s !! t = Some iv → tick_visibleOnly iv = true → hidden s = true →
  tick t s = s.
Proof. intros Hi Hv Hh. unfold tick. by rewrite Hi, Hv, Hh. Qed.

Lemma run_app ops1 ops2 s : run (ops1 ++ ops2) s = run ops2 (run ops1 s).
Proof. apply foldl_app. Qed.

Lemma run_ticks_under t fn ms (vis : list bool) s :
  intervals s !! t = Some (Interval ms true fn) →
  calls (run (ticks_under t vis) s) =
    calls s ++ ((λ _, CallTick t fn) <$> filter (λ v, v = true) vis)
  ∧ intervals (run (ticks_under t vis) s) = intervals s.
Proof.
  revert s. induction vis as [|v vis IH]; intros s Hi.
  - simpl. by rewrite app_nil_r.
  - change (ticks_under t (v :: vis))
      with ([Visibility (negb v); Tick t] ++ ticks_under t vis).
    rewrite run_app. cbn [run foldl step].
    destruct v; cbn [negb].
    + rewrite (tick_visible t (set_hidden false s) _ Hi) by done.
      cbn [tick_fn].
      destruct (IH (log (CallTick t fn) (set_hidden false s)) Hi) as [-> ->].
      rewrite filter_cons_True by done. cbn. by rewrite <- app_assoc.
    + rewrite (tick_hidden t (set_hidden true s) _ Hi) by done.
      destruct (IH (set_hidden true s) Hi) as [-> ->].
      by rewrite filter_cons_False by done.
Qed.

End timer_facts.

(** C3: a session object offers no [stopPoll].  The object [SocketPage]
    returns has no such property, so the call [page.stopPoll(jobsPollId)]
    of jobs.js throws a [TypeError] as soon as [jobsPollId] is set, which
    it is after the first [startJobsPolling]: [poll] returned the session
    object, not a timer handle. *)
Theorem stopPoll_not_provided :
  scope_member "stopPoll" = None ∧
  (∀ rateMs f s, ∃ page s',
      startJobsPolling None rateMs f s = Returned (Some page, s')) ∧
  (∀ page rateMs f s,
      startJobsPolling (Some page) rateMs f s =
      Thrown (TypeError "page.stopPoll is not a function")).
Proof.
  split; [by vm_compute|]. split.
  - intros rateMs f s. unfold startJobsPolling.
    destruct (SocketPage "jobs" s) as [page s1]. eauto.
  - intros page rateMs f s. unfold startJobsPolling.
    by destruct (SocketPage "jobs" s) as [page' s1].
Qed.

Lemma jobs_page_scope : scopes jobs_page !! 0 = Some jobs_scope.
Proof. by vm_compute. Qed.

(** C6: a timer created by [poll] with [visibleOnly: true] (also the
    default) skips the ticks that find the page hidden and replays
    nothing: a hidden tick leaves the whole state as it is, the interval
    stays registered, and over any sequence of ticks the callback runs
    once for each tick that finds the page visible and for no other. *)
Theorem poll_skips_hidden_ticks s sid sc ms fn im vo (vis : list bool) :
  scopes s !! sid = Some sc →
  default true vo = true →
  let t := fresh (dom (intervals s)) in
  let s1 := poll sid ms fn im vo s in
  intervals s1 !! t = Some (Interval ms true fn) ∧
  tick t (set_hidden true s1) = set_hidden true s1 ∧
  calls (tick t (set_hidden false s1)) = calls s1 ++ [CallTick t fn] ∧
  calls (run (ticks_under t vis) s1) =
    calls s1 ++ ((λ _, CallTick t fn) <$> filter (λ v, v = true) vis) ∧
  intervals (run (ticks_under t vis) s1) = intervals s1.
Proof.
  intros Hsc Hvo t s1.
  assert (Hi : intervals s1 !! t = Some (Interval ms true fn)).
  { unfold s1. rewrite (poll_intervals _ _ _ _ _ _ _ Hsc), Hvo.
    apply lookup_insert_eq. }
  split; [done|]. split; [|split].
  - by apply (tick_hidden t (set_hidden true s1) _ Hi).
  - by rewrite (tick_visible t (set_hidden false s1) _ Hi).
  - by apply (run_ticks_under t fn ms).
Qed.

Lemma poll_skips_hidden_ticks_witness :
  scopes jobs_page !! 0 = Some jobs_scope ∧
  default true (Some true) = true ∧
  calls (run (ticks_under 1%positive [true; false; false; false; true])
           (poll 0 180000%Z 7 (Some false) (Some true) jobs_page))
  = [CallTick 1%positive 7; CallTick 1%positive 7].
Proof.
  split; [exact jobs_page_scope|]. split; [reflexivity|].
  pose proof (poll_skips_hidden_ticks jobs_page 0 jobs_scope 180000%Z 7
                (Some false) (Some true) [true; false; false; false; true]
                jobs_page_scope eq_refl) as (_ & _ & _ & H & _).
  exact H.
Defined.

(** C8: a further [poll] leaves the earlier timers alone.  The new
    handle is fresh, every interval registered before is still
    registered with the same closure, and the handle is appended to
    [scope.timers].  Polling twice with the same function yields two
    distinct live timers that both call it. *)
Theorem poll_keeps_earlier_timers s sid sc ms fn im vo ms' im' vo' :
  scopes s !! sid = Some sc →
  let t := fresh (dom (intervals s)) in
  let s1 := poll sid ms fn im vo s in
  let t' := fresh (dom (intervals s1)) in
  let s2 := poll sid ms' fn im' vo' s1 in
  intervals s !! t = None ∧
  (∀ t0 iv, intervals s !! t0 = Some iv → intervals s1 !! t0 = Some iv) ∧
  (∀ sid0 sc0, sid0 ≠ sid → scopes s !! sid0 = Some sc0 →
               scopes s1 !! sid0 = Some sc0) ∧
  (∃ sc1, scopes s1 !! sid = Some sc1 ∧ timers sc1 = timers sc ++ [t]) ∧
  t' ≠ t ∧
  intervals s2 !! t = Some (Interval ms (default true vo) fn) ∧
  intervals s2 !! t' = Some (Interval ms' (default true vo') fn) ∧
  (∃ sc2, scopes s2 !! sid = Some sc2 ∧ timers sc2 = timers sc ++ [t; t']).
Proof.
  intros Hsc t s1 t' s2.
  pose proof (poll_fresh s) as Hfresh. fold t in Hfresh.
  assert (Hi1 : intervals s1 = <[t := Interval ms (default true vo) fn]> (intervals s))
    by apply (poll_intervals _ _ _ _ _ _ _ Hsc).
  assert (Hs1 : scopes s1 = <[sid := set_timers (timers sc ++ [t]) sc]> (scopes s))
    by apply (poll_scopes _ _ _ _ _ _ _ Hsc).
  assert (Hsc1 : scopes s1 !! sid = Some (set_timers (timers sc ++ [t]) sc))
    by (rewrite Hs1; apply lookup_insert_eq).
  assert (Hne : t' ≠ t).
  { intros Heq. pose proof (poll_fresh s1) as Hf. fold t' in Hf.
    rewrite Heq, Hi1, lookup_insert_eq in Hf. done. }
  split; [done|]. split; [|split; [|split; [|split; [done|split; [|split]]]]].
  - intros t0 iv Ht0. rewrite Hi1, lookup_insert_ne; [done|].
    intros <-. congruence.
  - intros sid0 sc0 Hne0 Hsc0. by rewrite Hs1, lookup_insert_ne.
  - eauto.
  - unfold s2. rewrite (poll_intervals _ _ _ _ _ _ _ Hsc1). fold t'.
    rewrite lookup_insert_ne by done. rewrite Hi1. apply lookup_insert_eq.
  - unfold s2. rewrite (poll_intervals _ _ _ _ _ _ _ Hsc1). fold t'.
    apply lookup_insert_eq.
  - unfold s2. rewrite (poll_scopes _ _ _ _ _ _ _ Hsc1). fold t'.
    rewrite lookup_insert_eq. eexists. split; [done|]. cbn.
    by rewrite <- app_assoc.
Qed.

Lemma poll_keeps_earlier_timers_witness :
  scopes jobs_page !! 0 = Some jobs_scope ∧
  intervals (poll 0 5000%Z 7 None None (poll 0 180000%Z 7 None None jobs_page)) !! 1%positive
  = Some (Interval 180000%Z true 7).
Proof.
  split; [exact jobs_page_scope|].
  pose proof (poll_keeps_earlier_timers jobs_page 0 jobs_scope 180000%Z 7
                None None 5000%Z None None jobs_page_scope)
    as (_ & _ & _ & _ & _ & H & _).
  exact H.
Defined.

(** C7, as the code has it: with [immediate] left out or [true], [poll]
    hands [fn] to [emitWhenReady] before the interval exists.  On a
    connected socket that is one synchronous call; on a disconnected one
    the call is queued for the next [connect] signal, with no ordering
    against the ticks.  In both cases the new interval has period [ms]
    and every tick of it that finds the page visible calls [fn] once. *)
Theorem poll_immediate s sid sc ms fn im vo :
  scopes s !! sid = Some sc →
  default true im = true →
  let t := fresh (dom (intervals s)) in
  let s1 := poll sid ms fn im vo s in
  (connected s = true →
     calls s1 = calls s ++ [CallDirect fn] ∧
     ∀ ev, cbs s1 ev = cbs s ev) ∧
  (connected s = false →
     calls s1 = calls s ∧
     cbs s1 "connect" = cbs s "connect" ++ [OnceWrap (next_wrapper s) fn]) ∧
  intervals s !! t = None ∧
  intervals s1 !! t = Some (Interval ms (default true vo) fn) ∧
  (∀ s', intervals s' !! t = Some (Interval ms (default true vo) fn) →
         hidden s' = false →
         calls (tick t s') = calls s' ++ [CallTick t fn]).
Proof.
  intros Hsc Him t s1.
  assert (Hsome : is_Some (scopes s !! sid)) by eauto.
  split; [|split; [|split; [|split]]].
  - intros Hc. unfold s1. split.
    + rewrite (poll_calls _ _ _ _ _ _ _ Hsc), Him.
      by rewrite emitWhenReady_connected.
    + intros ev. rewrite (poll_cbs _ _ _ _ _ _ _ _ Hsc), Him.
      by rewrite emitWhenReady_connected.
  - intros Hc. unfold s1. split.
    + rewrite (poll_calls _ _ _ _ _ _ _ Hsc), Him.
      by rewrite emitWhenReady_disconnected.
    + rewrite (poll_cbs _ _ _ _ _ _ _ _ Hsc), Him.
      rewrite emitWhenReady_disconnected by done.
      by rewrite cbs_socket_once, decide_True.
  - apply poll_fresh.
  - unfold s1. rewrite (poll_intervals _ _ _ _ _ _ _ Hsc).
    apply lookup_insert_eq.
  - intros s' Hi Hh. by rewrite (tick_visible t s' _ Hi).
Qed.

Lemma poll_immediate_witness :
  scopes jobs_page !! 0 = Some jobs_scope ∧
  default true (@None bool) = true ∧
  (connected jobs_page = false →
   calls (poll 0 180000%Z 7 None None jobs_page) = calls jobs_page ∧
   cbs (poll 0 180000%Z 7 None None jobs_page) "connect" =
     cbs jobs_page "connect" ++ [OnceWrap (next_wrapper jobs_page) 7]).
Proof.
  split; [exact jobs_page_scope|]. split; [reflexivity|].
  pose proof (poll_immediate jobs_page 0 jobs_scope 180000%Z 7 None None
                jobs_page_scope eq_refl) as (_ & H & _).
  exact H.
Defined.

(** C7, as stated, fails on a socket that is not connected: the first
    call of [fn] is then made by the first tick, while the call handed
    to [emitWhenReady] is still queued; it follows only with [connect]. *)
Lemma poll_immediate_before_first_tick_fails :
  let s1 := poll 0 180000%Z 7 (Some true) (Some true) jobs_page in
  calls s1 = [] ∧
  calls (run [Tick 1%positive] s1) = [CallTick 1%positive 7] ∧
  cbs (run [Tick 1%positive] s1) "connect" = [LogCb "connect"; OnceWrap 0 7] ∧
  calls (run [Tick 1%positive; Signal "connect"] s1) = [CallTick 1%positive 7; CallDeferred 0 7].
Proof. by vm_compute. Qed.

(** ** Deferred calls *)

Section deferred_facts.
Implicit Types (s : world) (sc : scope).

Lemma deferred_emitted ev (m : gmap session_id scope) (l : list callback) w :
  length (filter (λ c, is_deferred w c = true) (flat_map (emitted ev m) l)) =
  length (filter (λ x, x = w) (wrapper_ids l)).
Proof.
  induction l as [|cb l IH]; [done|].
  cbn [flat_map]. rewrite filter_app, length_app, IH.
  destruct cb as [h|w' h|sid|tag]; cbn.
  - done.
  - repeat case_decide; try done.
    all: rewrite bool_decide_eq_true in *; done.
  - destruct (m !! sid) as [sc|]; [|done].
    destruct (started sc); [|done]. by destruct (_onReconnect sc).
  - done.
Qed.

Lemma fired_signal ev s w :
  fired w (signal ev s) =
  fired w s + length (filter (λ x, x = w) (wrapper_ids (cbs s ev))).
Proof.
  unfold fired. by rewrite calls_signal, filter_app, length_app, deferred_emitted.
Qed.


Lemma fired_fresh s w : wf s → (next_wrapper s ≤ w)%nat → fired w s = 0.
Proof.
  intros Hwf Hle. unfold fired.
  replace (filter (λ c, is_deferred w c = true) (calls s)) with (@nil call); [done|].
  symmetry. apply elem_of_nil_inv. intros c [Hd Hin]%list_elem_of_filter.
  destruct c as [|w' h| | |]; try done. cbn in Hd.
  apply bool_decide_eq_true in Hd. subst.
  apply (wf_log _ Hwf) in Hin. lia.
Qed.

Lemma pending_fresh s w : wf s → (next_wrapper s ≤ w)%nat → pending w s = 0.
Proof.
  intros Hwf Hle. unfold pending.
  replace (filter (λ x, x = w) (wrapper_ids (cbs s "connect"))) with (@nil nat);
    [done|].
  symmetry. apply elem_of_nil_inv. intros x [-> Hin]%list_elem_of_filter.
  apply (wf_wrapper_fresh _ Hwf) in Hin. lia.
Qed.


















End deferred_facts.

(** ** [emitWhenReady] *)


(** The state right after a deferred [emitWhenReady]: the new wrapper
    is queued once and has not fired. *)
Lemma emitWhenReady_queued s sid f :
  wf s → is_Some (scopes s !! sid) → connected s = false →
  wf (emitWhenReady sid f s) ∧
  fired (next_wrapper s) (emitWhenReady sid f s) = 0 ∧
  pending (next_wrapper s) (emitWhenReady sid f s) = 1.
Proof.
  intros Hwf Hsc Hc. split; [by apply wf_emitWhenReady|].
  rewrite emitWhenReady_disconnected by done. split.
  - change (fired (next_wrapper s) (socket_once "connect" f s))
      with (fired (next_wrapper s) s).
    by apply fired_fresh.
  - unfold pending. rewrite cbs_socket_once, decide_True by done.
    rewrite wrapper_ids_app, filter_app, length_app.
    fold (pending (next_wrapper s) s). rewrite pending_fresh by done.
    cbn. by rewrite decide_True.
Qed.






(** ** A deferred call and [cleanup] *)





(** ** The reconnect listener *)

Section reconnect_facts.
Implicit Types (s : world) (sc : scope).

Lemma flat_map_other {A B} `{EqDecision A} (x : A) (X : list B) (l : list A) :
  x ∉ l → flat_map (λ y, if decide (y = x) then X else []) l = [].
Proof.
  induction l as [|y l IH]; intros Hnin; [done|].
  apply not_elem_of_cons in Hnin as [Hne Hnin].
  cbn [flat_map]. rewrite decide_False by done. by apply IH.
Qed.

Lemma flat_map_single {A B} `{EqDecision A} (x : A) (X : list B) (l : list A) :
  NoDup l → x ∈ l → flat_map (λ y, if decide (y = x) then X else []) l = X.
Proof.
  induction 1 as [|y l Hnin Hnd IH]; intros Hin; [by apply elem_of_nil in Hin|].
  cbn [flat_map]. destruct (decide (y = x)) as [->|Hne].
  - by rewrite flat_map_other, app_nil_r.
  - apply elem_of_cons in Hin as [->|Hin]; [done|]. by apply IH.
Qed.

Lemma reconnect_calls_emitted ev (m : gmap session_id scope) sid (l : list callback) :
  reconnect_calls sid (flat_map (emitted ev m) l) =
  flat_map (λ sid', if decide (sid' = sid) then reconnect_action m sid else [])
           (reconnect_ids l).
Proof.
  induction l as [|cb l IH]; [done|].
  cbn [flat_map]. unfold reconnect_calls in *. rewrite omap_app, IH.
  destruct cb as [h|w h|sid'|tag]; cbn; try done.
  unfold reconnect_action. case_decide; subst.
  - destruct (m !! sid) as [sc|]; [|done].
    destruct (started sc); [|done].
    destruct (_onReconnect sc); cbn; [|done]. by rewrite decide_True.
  - destruct (m !! sid') as [sc|]; [|done].
    destruct (started sc); [|done].
    destruct (_onReconnect sc); cbn; [|done]. by rewrite decide_False.
Qed.

(** One reconnect signal: the listener of every session runs once. *)
Lemma reconnect_signal_calls s sid sc :
  wf s → scopes s !! sid = Some sc →
  reconnect_calls sid (calls_since (length (calls s)) (signal "reconnect" s)) =
  if started sc then option_list (_onReconnect sc) else [].
Proof.
  intros Hwf Hsc. unfold calls_since.
  rewrite calls_signal, drop_app_length, reconnect_calls_emitted.
  pose proof (wf_reconnect _ Hwf) as Hp.
  rewrite flat_map_single.
  - unfold reconnect_action. by rewrite Hsc.
  - rewrite Hp. apply NoDup_elements.
  - rewrite Hp. apply elem_of_elements, elem_of_dom. eauto.
Qed.

Lemma scope_cleanup s sid' sid sc :
  scopes s !! sid = Some sc →
  ∃ sc', scopes (cleanup sid' s) !! sid = Some sc' ∧
         started sc' = started sc ∧ _onReconnect sc' = _onReconnect sc.
Proof.
  intros Hsc. destruct (scopes s !! sid') as [sc0|] eqn:Hsc0;
    [|rewrite cleanup_absent by done; eauto].
  rewrite (cleanup_unfold _ _ _ Hsc0). cbn [scopes].
  destruct (decide (sid' = sid)) as [->|Hne].
  - rewrite lookup_insert_eq. simplify_eq. eauto.
  - rewrite lookup_insert_ne by done. eauto.
Qed.

(** How one step treats the flags of a session. *)
Lemma scope_step s o sid sc :
  scopes s !! sid = Some sc →
  ∃ sc', scopes (step s o) !! sid = Some sc' ∧
         (started sc' = started sc ∨ o = OpMarkStarted sid ∧ started sc' = true) ∧
         (_onReconnect sc' = _onReconnect sc ∨ ∃ g, o = OpOnReconnect sid g).
Proof.
  intros Hsc.
  assert (Hkeep : ∀ (m : gmap session_id scope) sc', m !! sid = Some sc' →
            started sc' = started sc → _onReconnect sc' = _onReconnect sc →
            ∃ sc', m !! sid = Some sc' ∧
              (started sc' = started sc ∨ o = OpMarkStarted sid ∧ started sc' = true) ∧
              (_onReconnect sc' = _onReconnect sc ∨ ∃ g, o = OpOnReconnect sid g)).
  { intros m sc' ? ? ?. exists sc'. by repeat split; [|left..]. }
  destruct o as [nm|sid' ev h|sid' h|sid' ms h im vo|sid'|sid' h|sid'|ev|t|hid|];
    cbn [step].
  - apply (Hkeep _ sc); [|done..].
    rewrite scopes_SocketPage, lookup_insert_ne; [done|].
    intros Heq. pose proof (SocketPage_fresh nm s) as Hf.
    rewrite Heq in Hf. congruence.
  - destruct (scopes s !! sid') as [sc0|] eqn:Hsc0;
      [|unfold on; rewrite Hsc0; by apply (Hkeep _ sc)].
    rewrite (scopes_on _ _ _ _ _ Hsc0).
    destruct (decide (sid' = sid)) as [->|Hne].
    + simplify_eq. eapply Hkeep; [apply lookup_insert_eq|done..].
    + apply (Hkeep _ sc); [|done..]. by rewrite lookup_insert_ne.
  - destruct (emitWhenReady_frame s sid' h) as (-> & _). by apply (Hkeep _ sc).
  - destruct (scopes s !! sid') as [sc0|] eqn:Hsc0;
      [|unfold poll; rewrite Hsc0; by apply (Hkeep _ sc)].
    rewrite (poll_scopes _ _ _ _ _ _ _ Hsc0).
    destruct (decide (sid' = sid)) as [->|Hne].
    + simplify_eq. eapply Hkeep; [apply lookup_insert_eq|done..].
    + apply (Hkeep _ sc); [|done..]. by rewrite lookup_insert_ne.
  - destruct (scope_cleanup s sid' sid sc Hsc) as (sc' & ? & ? & ?).
    by apply (Hkeep _ sc').
  - unfold onReconnect.
    destruct (scopes s !! sid') as [sc0|] eqn:Hsc0; [|by apply (Hkeep _ sc)].
    cbn. destruct (decide (sid' = sid)) as [->|Hne].
    + simplify_eq. eexists. split; [apply lookup_insert_eq|].
      split; [by left|right; eauto].
    + apply (Hkeep _ sc); [|done..]. by rewrite lookup_insert_ne.
  - unfold markStarted.
    destruct (scopes s !! sid') as [sc0|] eqn:Hsc0; [|by apply (Hkeep _ sc)].
    cbn. destruct (decide (sid' = sid)) as [->|Hne].
    + simplify_eq. eexists. split; [apply lookup_insert_eq|].
      split; [by right|by left].
    + apply (Hkeep _ sc); [|done..]. by rewrite lookup_insert_ne.
  - destruct (signal_frame ev s) as (-> & _). by apply (Hkeep _ sc).
  - destruct (tick_cases t s) as [->|[h ->]]; by apply (Hkeep _ sc).
  - by apply (Hkeep _ sc).
  - unfold unload. generalize (beforeunload s) as l. intros l.
    assert (∃ sc', scopes (foldl (λ s' sid0, cleanup sid0 s') s l) !! sid = Some sc'
              ∧ started sc' = started sc ∧ _onReconnect sc' = _onReconnect sc)
      as (sc' & ? & ? & ?); [|by apply (Hkeep _ sc')].
    clear Hkeep. revert s sc Hsc.
    induction l as [|sid' l IH]; intros s sc Hsc; [by exists sc|].
    simpl. destruct (scope_cleanup s sid' sid sc Hsc) as (sc1 & Hsc1 & Hst & Hor).
    destruct (IH _ _ Hsc1) as (sc' & Hsc' & Hst' & Hor').
    exists sc'. split; [done|]. split; congruence.
Qed.

Lemma not_started_run ops s sid sc :
  scopes s !! sid = Some sc → started sc = false →
  Forall (λ o, o ≠ OpMarkStarted sid) ops →
  ∃ sc', scopes (run ops s) !! sid = Some sc' ∧ started sc' = false.
Proof.
  unfold run. intros Hsc Hst Hops. revert s sc Hsc Hst.
  induction Hops as [|o ops Ho _ IH]; intros s sc Hsc Hst; [eauto|].
  simpl. destruct (scope_step s o sid sc Hsc) as (sc1 & Hsc1 & [Hst1|[? _]] & _);
    [|done].
  apply (IH _ sc1); congruence.
Qed.

Lemma started_run ops s sid sc fn :
  scopes s !! sid = Some sc → started sc = true → _onReconnect sc = Some fn →
  Forall (λ o, ∀ g, o ≠ OpOnReconnect sid g) ops →
  ∃ sc', scopes (run ops s) !! sid = Some sc' ∧
         started sc' = true ∧ _onReconnect sc' = Some fn.
Proof.
  unfold run. intros Hsc Hst Hfn Hops. revert s sc Hsc Hst Hfn.
  induction Hops as [|o ops Ho _ IH]; intros s sc Hsc Hst Hfn; [eauto|].
  simpl.
  destruct (scope_step s o sid sc Hsc) as (sc1 & Hsc1 & Hst1 & [Hor1|[g ?]]);
    [|by destruct (Ho g)].
  apply (IH _ sc1); [done| |congruence].
  destruct Hst1 as [?|[_ ?]]; congruence.
Qed.

End reconnect_facts.

(** C5: the callback given to [onReconnect] is held back until
    [markStarted].  As long as the session has not called
    [markStarted], no reconnect signal makes its listener call
    anything, whatever else happens in between; once it has, every
    reconnect signal makes the listener call the callback exactly once,
    for as long as no other callback is registered in its place. *)
Theorem onReconnect_waits_for_markStarted s sid sc fn :
  wf s → scopes s !! sid = Some sc →
  let s1 := onReconnect sid fn s in
  (started sc = false →
   ∀ ops, Forall (λ o, o ≠ OpMarkStarted sid) ops →
     let s2 := run ops s1 in
     reconnect_calls sid
       (calls_since (length (calls s2)) (signal "reconnect" s2)) = []) ∧
  (∀ ops, Forall (λ o, ∀ g, o ≠ OpOnReconnect sid g) ops →
     let s2 := run ops (markStarted sid s1) in
     reconnect_calls sid
       (calls_since (length (calls s2)) (signal "reconnect" s2)) = [fn]).
Proof.
  intros Hwf Hsc s1.
  assert (Hwf1 : wf s1) by apply (wf_step s (OpOnReconnect sid fn) Hwf).
  assert (Hsc1 : scopes s1 !! sid = Some (set_onReconnect (Some fn) sc)).
  { unfold s1, onReconnect. rewrite Hsc. cbn. apply lookup_insert_eq. }
  split.
  - intros Hst ops Hops s2.
    destruct (not_started_run ops s1 sid _ Hsc1 Hst Hops) as (sc2 & Hsc2 & Hst2).
    fold s2 in Hsc2.
    rewrite (reconnect_signal_calls s2 sid sc2); [by rewrite Hst2| |done].
    by apply wf_run.
  - intros ops Hops s2.
    assert (Hwf1' : wf (markStarted sid s1))
      by apply (wf_step s1 (OpMarkStarted sid) Hwf1).
    assert (Hsc1' : scopes (markStarted sid s1) !! sid =
                    Some (set_started true (set_onReconnect (Some fn) sc))).
    { unfold markStarted. rewrite Hsc1. cbn. apply lookup_insert_eq. }
    destruct (started_run ops _ sid _ fn Hsc1' eq_refl eq_refl Hops)
      as (sc2 & Hsc2 & Hst2 & Hfn2).
    fold s2 in Hsc2.
    rewrite (reconnect_signal_calls s2 sid sc2); [by rewrite Hst2, Hfn2| |done].
    by apply wf_run.
Qed.

Lemma onReconnect_waits_for_markStarted_witness :
  wf jobs_page ∧ scopes jobs_page !! 0 = Some jobs_scope ∧
  calls (run [Signal "reconnect"; OpMarkStarted 0; Signal "reconnect";
              Signal "reconnect"] (onReconnect 0 9 jobs_page))
  = [CallReconnect 0 9; CallReconnect 0 9] ∧
  reconnect_calls 0
    (calls_since
       (length (calls (run [Signal "reconnect"] (onReconnect 0 9 jobs_page))))
       (signal "reconnect" (run [Signal "reconnect"] (onReconnect 0 9 jobs_page))))
  = [].
Proof.
  assert (Hwf : wf jobs_page) by apply wf_SocketPage, wf_init.
  split; [exact Hwf|]. split; [exact jobs_page_scope|].
  split; [by vm_compute|].
  destruct (onReconnect_waits_for_markStarted jobs_page 0 jobs_scope 9
              Hwf jobs_page_scope) as (H & _).
  apply (H eq_refl [Signal "reconnect"]).
  constructor; [discriminate|constructor].
Defined.

(** C10: the reconnect listener of a session is out of reach of
    [cleanup].  [SocketPage] subscribes it without an entry in
    [scope.listeners]; [cleanup] leaves the reconnect listeners on the
    socket as they are; and after [cleanup], whatever happens next,
    every reconnect signal still calls the callback of a session that
    is started and has one, until another callback replaces it. *)
Theorem reconnect_listener_outlives_cleanup s sid sc fn :
  wf s → scopes s !! sid = Some sc →
  started sc = true → _onReconnect sc = Some fn →
  let s1 := cleanup sid s in
  (∀ nm s0, let sid0 := (SocketPage nm s0).1 in
            let s0' := (SocketPage nm s0).2 in
            scopes s0' !! sid0 = Some (Scope nm [] ∅ false None) ∧
            cbs s0' "reconnect" = cbs s0 "reconnect" ++ [ReconnectCb sid0]) ∧
  ReconnectCb sid ∈ cbs s "reconnect" ∧
  reconnect_ids (cbs s1 "reconnect") = reconnect_ids (cbs s "reconnect") ∧
  ReconnectCb sid ∈ cbs s1 "reconnect" ∧
  (∃ sc1, scopes s1 !! sid = Some sc1 ∧ listeners sc1 = ∅ ∧
          started sc1 = true ∧ _onReconnect sc1 = Some fn) ∧
  (∀ ops, Forall (λ o, ∀ g, o ≠ OpOnReconnect sid g) ops →
     let s2 := run ops s1 in
     reconnect_calls sid
       (calls_since (length (calls s2)) (signal "reconnect" s2)) = [fn]).
Proof.
  intros Hwf Hsc Hst Hfn s1.
  assert (Hwf1 : wf s1) by by apply wf_cleanup.
  assert (Hsc1 : scopes s1 !! sid = Some (set_listeners ∅ (set_timers [] sc))).
  { unfold s1. rewrite (cleanup_unfold _ _ _ Hsc). cbn [scopes].
    apply lookup_insert_eq. }
  assert (Hids : reconnect_ids (cbs s1 "reconnect") = reconnect_ids (cbs s "reconnect")).
  { unfold s1. by rewrite (cbs_cleanup _ _ _ _ Hsc), reconnect_ids_unbind. }
  assert (Hmem : ∀ s', wf s' → is_Some (scopes s' !! sid) →
                       ReconnectCb sid ∈ cbs s' "reconnect").
  { intros s' Hwf' Hsome.
    assert (sid ∈ reconnect_ids (cbs s' "reconnect")) as Hin.
    { rewrite (wf_reconnect _ Hwf'). by apply elem_of_elements, elem_of_dom. }
    unfold reconnect_ids in Hin. apply list_elem_of_omap in Hin as (cb & Hcb & Heq).
    destruct cb; by simplify_eq. }
  split; [|split; [|split; [|split; [|split]]]].
  - intros nm s0 sid0 s0'. split.
    + unfold s0', sid0. rewrite scopes_SocketPage. apply lookup_insert_eq.
    + unfold s0', sid0. by rewrite cbs_SocketPage, decide_True.
  - apply Hmem; eauto.
  - done.
  - apply Hmem; eauto.
  - eexists. split; [exact Hsc1|]. by cbn.
  - intros ops Hops s2.
    destruct (started_run ops s1 sid _ fn Hsc1 Hst Hfn Hops)
      as (sc2 & Hsc2 & Hst2 & Hfn2).
    fold s2 in Hsc2.
    rewrite (reconnect_signal_calls s2 sid sc2); [by rewrite Hst2, Hfn2| |done].
    by apply wf_run.
Qed.

Lemma reconnect_listener_outlives_cleanup_witness :
  let s := markStarted 0 (onReconnect 0 9 jobs_page) in
  wf s ∧ scopes s !! 0 = Some (Scope "jobs" [] ∅ true (Some 9)) ∧
  reconnect_calls 0
    (calls_since (length (calls (cleanup 0 s))) (signal "reconnect" (cleanup 0 s)))
  = [9].
Proof.
  intros s.
  assert (Hwf : wf s).
  { apply (wf_run [OpSocketPage "jobs"; OpOnReconnect 0 9; OpMarkStarted 0] init).
    apply wf_init. }
  assert (Hsc : scopes s !! 0 = Some (Scope "jobs" [] ∅ true (Some 9)))
    by (by vm_compute).
  split; [exact Hwf|]. split; [exact Hsc|].
  destruct (reconnect_listener_outlives_cleanup s 0 _ 9 Hwf Hsc eq_refl eq_refl)
    as (_ & _ & _ & _ & _ & H).
  exact (H [] (Forall_nil_2 _)).
Defined.

(** ** Bindings of page functions *)

Section binding_facts.
Implicit Types (s : world) (sc : scope).













End binding_facts.



(** The limit of the statement above.  [socket.off(event, fn)] removes
    the first callback that is [fn] or wraps [fn], so once
    [emitWhenReady(f)] has queued a wrapper of [f] on [connect], an
    [on("connect", f)] followed by [on("connect", g)] removes that
    wrapper and leaves [f] subscribed next to [g]. *)
Example on_connect_after_deferred_same_function :
  cbs (run [OpSocketPage "jobs"; OpEmitWhenReady 0 7;
            OpOn 0 "connect" 7; OpOn 0 "connect" 8] init) "connect"
  = [LogCb "connect"; Fn 7; Fn 8].
Proof. by vm_compute. Qed.

(** ** [cleanup] *)




(** * Further properties of the session helper *)

(** ** Bookkeeping of timers *)

Section timers_facts.
Implicit Types (s : world) (sc : scope).

Lemma timers_of_set_scope s sid sc sid' :
  timers_of (set_scope sid sc s) sid' =
  if decide (sid = sid') then Some (timers sc) else timers_of s sid'.
Proof.
  unfold timers_of. cbn [scopes set_scope set_scopes].
  rewrite lookup_insert. by case_decide.
Qed.

(** A state with the intervals, hooks and timer lists of a state that
    keeps the books keeps them as well. *)
Lemma timers_ok_same s s' :
  intervals s' = intervals s → beforeunload s' = beforeunload s →
  (∀ sid, timers_of s' sid = timers_of s sid) →
  timers_ok s → timers_ok s'.
Proof.
  intros Hi Hb Ht [H1 H2 H3 H4 H5]. split.
  - intros sid l t. rewrite Ht, Hi. apply H1.
  - intros t. rewrite Hi. intros (sid & l & ? & ?)%H2.
    exists sid, l. by rewrite Ht.
  - intros sid1 sid2 l1 l2 t. rewrite !Ht. apply H3.
  - intros sid l. rewrite Ht. apply H4.
  - intros sid Hsome. rewrite Hb. apply H5.
    specialize (Ht sid). unfold timers_of in Ht.
    destruct Hsome as [sc Hsc]. rewrite Hsc in Ht.
    destruct (scopes s !! sid); [eauto|done].
Qed.

Lemma timers_ok_set_scope s sid sc sc' :
  scopes s !! sid = Some sc → timers sc' = timers sc →
  timers_ok s → timers_ok (set_scope sid sc' s).
Proof.
  intros Hsc Ht. apply timers_ok_same; [done..|].
  intros sid'. rewrite timers_of_set_scope. case_decide; [|done].
  subst. unfold timers_of. by rewrite Hsc, Ht.
Qed.

Lemma timers_ok_init : timers_ok init.
Proof.
  assert (Hno : ∀ sid, timers_of init sid = None).
  { intros sid. unfold timers_of.
    change (scopes init) with (∅ : gmap session_id scope).
    by rewrite lookup_empty. }
  split.
  - intros sid l t. by rewrite Hno.
  - intros t [? H]. change (intervals init) with (∅ : gmap timer_id interval) in H.
    by rewrite lookup_empty in H.
  - intros sid1 sid2 l1 l2 t. by rewrite Hno.
  - intros sid l. by rewrite Hno.
  - intros sid [? H]. change (scopes init) with (∅ : gmap session_id scope) in H.
    by rewrite lookup_empty in H.
Qed.

Lemma timers_ok_SocketPage nm s : timers_ok s → timers_ok (SocketPage nm s).2.
Proof.
  intros [H1 H2 H3 H4 H5].
  pose proof (SocketPage_fresh nm s) as Hfresh.
  set (new := (SocketPage nm s).1) in *.
  assert (Ht : ∀ sid, timers_of (SocketPage nm s).2 sid =
                      if decide (new = sid) then Some [] else timers_of s sid).
  { intros sid. unfold timers_of. rewrite scopes_SocketPage. fold new.
    rewrite lookup_insert. by case_decide. }
  assert (Hold : ∀ sid l, timers_of s sid = Some l → new ≠ sid).
  { intros sid l Hl ->. unfold timers_of in Hl. by rewrite Hfresh in Hl. }
  split.
  - intros sid l t. rewrite Ht. case_decide.
    + intros [= <-] Hin. by apply elem_of_nil in Hin.
    + apply H1.
  - intros t (sid & l & Hl & Hin)%H2. exists sid, l.
    rewrite Ht, decide_False; [done|]. by apply (Hold _ l).
  - intros sid1 sid2 l1 l2 t. rewrite !Ht. repeat case_decide.
    + congruence.
    + intros [= <-] _ Hin. by apply elem_of_nil in Hin.
    + intros _ [= <-] _ Hin. by apply elem_of_nil in Hin.
    + apply H3.
  - intros sid l. rewrite Ht. case_decide; [|apply H4].
    intros [= <-]. constructor.
  - intros sid. rewrite scopes_SocketPage. fold new.
    change (beforeunload (SocketPage nm s).2) with (beforeunload s ++ [new]).
    rewrite lookup_insert. case_decide; subst.
    + intros _. apply elem_of_app. right. left.
    + intros Hs. apply elem_of_app. left. by apply H5.
Qed.

Lemma timers_ok_poll sid ms fn im vo s : timers_ok s → timers_ok (poll sid ms fn im vo s).
Proof.
  intros Hok. destruct (scopes s !! sid) as [sc|] eqn:Hsc;
    [|unfold poll; by rewrite Hsc].
  destruct Hok as [H1 H2 H3 H4 H5].
  pose proof (poll_fresh s) as Hfresh.
  set (t := fresh (dom (intervals s))) in *.
  assert (Hi : intervals (poll sid ms fn im vo s) =
               <[t := Interval ms (default true vo) fn]> (intervals s))
    by by apply (poll_intervals _ _ sc).
  assert (Ht : ∀ sid', timers_of (poll sid ms fn im vo s) sid' =
                       if decide (sid = sid') then Some (timers sc ++ [t])
                       else timers_of s sid').
  { intros sid'. unfold timers_of. rewrite (poll_scopes _ _ _ _ _ _ _ Hsc).
    fold t. rewrite lookup_insert. by case_decide. }
  assert (Hsid : timers_of s sid = Some (timers sc))
    by (unfold timers_of; by rewrite Hsc).
  assert (Hnew : ∀ sid' l, timers_of s sid' = Some l → t ∉ l).
  { intros sid' l Hl Hin. destruct (H1 _ _ _ Hl Hin) as [? Hsome]. congruence. }
  assert (Hb : beforeunload (poll sid ms fn im vo s) = beforeunload s).
  { rewrite (poll_unfold _ _ _ _ _ _ _ Hsc). cbn.
    destruct (default true im); [|done]. unfold emitWhenReady.
    rewrite Hsc. by destruct (connected s). }
  split.
  - intros sid' l t'. rewrite Ht, Hi. case_decide.
    + intros [= <-] [Hin | ->%list_elem_of_singleton]%elem_of_app.
      * rewrite lookup_insert_ne; [by apply (H1 sid (timers sc))|].
        intros <-. by apply (Hnew _ _ Hsid).
      * rewrite lookup_insert_eq. eauto.
    + intros Hl Hin. rewrite lookup_insert_ne; [by apply (H1 sid' l)|].
      intros <-. by apply (Hnew _ _ Hl).
  - intros t'. rewrite Hi, lookup_insert. case_decide; subst.
    + intros _. exists sid. eexists. rewrite Ht, decide_True by done.
      split; [done|]. apply elem_of_app. right. left.
    + intros (sid' & l & Hl & Hin)%H2. exists sid'.
      rewrite Ht. case_decide; subst.
      * eexists. split; [done|]. apply elem_of_app. left. congruence.
      * eauto.
  - intros sid1 sid2 l1 l2 t'. rewrite !Ht. repeat case_decide; subst.
    + done.
    + intros [= <-] Hl2 [Hin | ->%list_elem_of_singleton]%elem_of_app Hin2.
      * by apply (H3 _ _ _ _ _ Hsid Hl2 Hin).
      * by destruct (Hnew _ _ Hl2).
    + intros Hl1 [= <-] Hin1 [Hin | ->%list_elem_of_singleton]%elem_of_app.
      * by apply (H3 _ _ _ _ _ Hl1 Hsid Hin1).
      * by destruct (Hnew _ _ Hl1).
    + apply H3.
  - intros sid' l. rewrite Ht. case_decide; [|apply H4].
    intros [= <-]. apply NoDup_app. split; [by apply (H4 sid)|].
    split; [|apply NoDup_singleton].
    intros x Hin ->%list_elem_of_singleton. by apply (Hnew _ _ Hsid).
  - intros sid'. rewrite Hb, (poll_scopes _ _ _ _ _ _ _ Hsc).
    rewrite lookup_insert. case_decide; subst; [|apply H5].
    intros _. apply H5. eauto.
Qed.

Lemma timers_ok_cleanup sid s : timers_ok s → timers_ok (cleanup sid s).
Proof.
  intros Hok. destruct (scopes s !! sid) as [sc|] eqn:Hsc;
    [|by rewrite cleanup_absent].
  destruct Hok as [H1 H2 H3 H4 H5].
  assert (Hi : ∀ t, intervals (cleanup sid s) !! t =
                    if decide (t ∈ timers sc) then None else intervals s !! t).
  { intros t. rewrite (cleanup_unfold _ _ _ Hsc). cbn [intervals].
    apply lookup_foldl_delete. }
  assert (Ht : ∀ sid', timers_of (cleanup sid s) sid' =
                       if decide (sid = sid') then Some [] else timers_of s sid').
  { intros sid'. unfold timers_of. rewrite (cleanup_unfold _ _ _ Hsc).
    cbn [scopes]. rewrite lookup_insert. by case_decide. }
  assert (Hsid : timers_of s sid = Some (timers sc))
    by (unfold timers_of; by rewrite Hsc).
  split.
  - intros sid' l t. rewrite Ht, Hi. case_decide.
    + intros [= <-] Hin. by apply elem_of_nil in Hin.
    + intros Hl Hin. rewrite decide_False; [by apply (H1 sid' l)|].
      intros Hin'. by destruct (H3 _ _ _ _ _ Hsid Hl Hin' Hin).
  - intros t. rewrite Hi. case_decide; [by intros [? ?]|].
    intros (sid' & l & Hl & Hin)%H2. exists sid', l.
    rewrite Ht, decide_False; [done|].
    intros <-. rewrite Hsid in Hl. by simplify_eq.
  - intros sid1 sid2 l1 l2 t. rewrite !Ht. repeat case_decide.
    + congruence.
    + intros [= <-] _ Hin. by apply elem_of_nil in Hin.
    + intros _ [= <-] _ Hin. by apply elem_of_nil in Hin.
    + apply H3.
  - intros sid' l. rewrite Ht. case_decide; [|apply H4].
    intros [= <-]. constructor.
  - intros sid'. rewrite (cleanup_unfold _ _ _ Hsc). cbn [scopes beforeunload].
    rewrite lookup_insert. case_decide; subst; [|apply H5].
    intros _. apply H5. eauto.
Qed.

Lemma timers_ok_cleanups (l : list session_id) s :
  timers_ok s → timers_ok (foldl (λ s' sid, cleanup sid s') s l).
Proof.
  revert s. induction l as [|sid l IH]; intros s Hok; [done|].
  simpl. by apply IH, timers_ok_cleanup.
Qed.

Lemma timers_ok_step s o : timers_ok s → timers_ok (step s o).
Proof.
  intros Hok.
  destruct o as [nm|sid ev h|sid h|sid ms h im vo|sid|sid h|sid|ev|t|hid|];
    cbn [step].
  - by apply timers_ok_SocketPage.
  - destruct (scopes s !! sid) as [sc|] eqn:Hsc; [|unfold on; by rewrite Hsc].
    apply (timers_ok_same s); [| | |done].
    + apply on_frame.
    + unfold on. rewrite Hsc. by destruct (listeners sc !! ev).
    + intros sid'. unfold timers_of. rewrite (scopes_on _ _ _ _ _ Hsc).
      rewrite lookup_insert. case_decide; subst; [by rewrite Hsc|done].
  - apply (timers_ok_same s); [| | |done].
    + apply emitWhenReady_frame.
    + unfold emitWhenReady. destruct (scopes s !! sid); [|done].
      by destruct (connected s).
    + intros sid'. unfold timers_of.
      by destruct (emitWhenReady_frame s sid h) as (-> & _).
  - by apply timers_ok_poll.
  - by apply timers_ok_cleanup.
  - unfold onReconnect. destruct (scopes s !! sid) as [sc|] eqn:Hsc; [|done].
    by apply (timers_ok_set_scope _ _ sc).
  - unfold markStarted. destruct (scopes s !! sid) as [sc|] eqn:Hsc; [|done].
    by apply (timers_ok_set_scope _ _ sc).
  - apply (timers_ok_same s); [| | |done].
    + apply signal_frame.
    + unfold signal, dispatch. rewrite foldl_fire.
      by repeat (case_bool_decide; try done).
    + intros sid'. unfold timers_of.
      by destruct (signal_frame ev s) as (-> & _).
  - destruct (tick_cases t s) as [->|[h ->]]; [done|].
    by apply (timers_ok_same s).
  - by apply (timers_ok_same s).
  - by apply timers_ok_cleanups.
Qed.

Lemma timers_ok_run ops s : timers_ok s → timers_ok (run ops s).
Proof.
  unfold run. revert s. induction ops as [|o ops IH]; intros s Hok; [done|].
  simpl. by apply IH, timers_ok_step.
Qed.

End timers_facts.


(** ** Unload *)

Section unload_facts.
Implicit Types (s : world) (sc : scope).

Lemma scopes_cleanup_is_Some sid' s sid :
  is_Some (scopes (cleanup sid' s) !! sid) ↔ is_Some (scopes s !! sid).
Proof.
  destruct (scopes s !! sid') as [sc0|] eqn:Hsc0;
    [|by rewrite cleanup_absent].
  rewrite (cleanup_unfold _ _ _ Hsc0). cbn [scopes].
  rewrite lookup_insert. case_decide; subst; [|done].
  rewrite Hsc0. split; eauto.
Qed.




Lemma scopes_cleanups_is_Some (l : list session_id) s sid :
  is_Some (scopes (foldl (λ s' x, cleanup x s') s l) !! sid) ↔
  is_Some (scopes s !! sid).
Proof.
  revert s. induction l as [|x l IH]; intros s; [done|].
  simpl. by rewrite IH, scopes_cleanup_is_Some.
Qed.

Lemma bound_in_released (m : gmap session_id scope) ev :
  (∀ sid sc, m !! sid = Some sc → listeners sc = ∅) → bound_in m ev = [].
Proof.
  intros Hm. unfold bound_in.
  replace (omap (λ sc, listeners sc !! ev) m) with (∅ : gmap session_id handler);
    [by rewrite map_to_list_empty|].
  symmetry. apply map_eq. intros sid. rewrite lookup_omap, lookup_empty.
  destruct (m !! sid) as [sc|] eqn:Hsc; [|done]. simpl.
  by rewrite (Hm _ _ Hsc), lookup_empty.
Qed.

End unload_facts.


(** ** Sessions side by side *)

Section isolation_facts.
Implicit Types (s : world) (sc : scope).

Lemma scopes_step_other s o sid sc :
  scopes s !! sid = Some sc → acts_on o ≠ Some sid → o ≠ Unload →
  scopes (step s o) !! sid = Some sc.
Proof.
  intros Hsc Ha Hu.
  destruct o as [nm|sid' ev h|sid' h|sid' ms h im vo|sid'|sid' h|sid'|ev|t|hid|];
    cbn [step]; cbn in Ha; try done.
  - rewrite scopes_SocketPage, lookup_insert_ne; [done|].
    intros Heq. pose proof (SocketPage_fresh nm s) as Hf.
    rewrite Heq in Hf. congruence.
  - destruct (scopes s !! sid') as [sc0|] eqn:Hsc0;
      [|unfold on; by rewrite Hsc0].
    rewrite (scopes_on _ _ _ _ _ Hsc0), lookup_insert_ne; [done|congruence].
  - by destruct (emitWhenReady_frame s sid' h) as (-> & _).
  - destruct (scopes s !! sid') as [sc0|] eqn:Hsc0;
      [|unfold poll; by rewrite Hsc0].
    rewrite (poll_scopes _ _ _ _ _ _ _ Hsc0), lookup_insert_ne; [done|congruence].
  - destruct (scopes s !! sid') as [sc0|] eqn:Hsc0;
      [|by rewrite cleanup_absent].
    rewrite (cleanup_unfold _ _ _ Hsc0). cbn [scopes].
    rewrite lookup_insert_ne; [done|congruence].
  - unfold onReconnect. destruct (scopes s !! sid') as [sc0|]; [|done].
    cbn. rewrite lookup_insert_ne; [done|congruence].
  - unfold markStarted. destruct (scopes s !! sid') as [sc0|]; [|done].
    cbn. rewrite lookup_insert_ne; [done|congruence].
  - by destruct (signal_frame ev s) as (-> & _).
  - by destruct (tick_cases t s) as [->|[h ->]].
Qed.

Lemma intervals_step_other s o sid sc t :
  timers_ok s → scopes s !! sid = Some sc → t ∈ timers sc →
  acts_on o ≠ Some sid → o ≠ Unload →
  intervals (step s o) !! t = intervals s !! t.
Proof.
  intros Hok Hsc Hin Ha Hu.
  assert (Hof : timers_of s sid = Some (timers sc))
    by (unfold timers_of; by rewrite Hsc).
  destruct o as [nm|sid' ev h|sid' h|sid' ms h im vo|sid'|sid' h|sid'|ev|t'|hid|];
    cbn [step]; cbn in Ha; try done.
  - by destruct (on_frame s sid' ev h) as (_ & _ & -> & _).
  - by destruct (emitWhenReady_frame s sid' h) as (_ & -> & _).
  - destruct (scopes s !! sid') as [sc0|] eqn:Hsc0;
      [|unfold poll; by rewrite Hsc0].
    rewrite (poll_intervals _ _ _ _ _ _ _ Hsc0), lookup_insert_ne; [done|].
    intros Heq. pose proof (poll_fresh s) as Hf. rewrite Heq in Hf.
    destruct (tracked_is_active _ Hok _ _ _ Hof Hin) as [? ?]. congruence.
  - destruct (scopes s !! sid') as [sc0|] eqn:Hsc0;
      [|by rewrite cleanup_absent].
    rewrite (cleanup_unfold _ _ _ Hsc0). cbn [intervals].
    rewrite lookup_foldl_delete, decide_False; [done|].
    intros Hin'. destruct Ha. f_equal.
    eapply (tracked_by_one _ Hok); [|exact Hof|exact Hin'|exact Hin].
    unfold timers_of. by rewrite Hsc0.
  - unfold onReconnect. by destruct (scopes s !! sid').
  - unfold markStarted. by destruct (scopes s !! sid').
  - by destruct (signal_frame ev s) as (_ & _ & -> & _).
  - by destruct (tick_cases t' s) as [->|[h ->]].
Qed.

Lemma dom_scopes_step s o :
  o ≠ Unload →
  dom (scopes (step s o)) =
  if creates o then {[fresh (dom (scopes s))]} ∪ dom (scopes s) else dom (scopes s).
Proof.
  intros Hu.
  destruct o as [nm|sid ev h|sid h|sid ms h im vo|sid|sid h|sid|ev|t|hid|];
    cbn [step creates]; try done.
  - rewrite scopes_SocketPage. apply dom_insert_L.
  - destruct (scopes s !! sid) as [sc|] eqn:Hsc; [|unfold on; by rewrite Hsc].
    rewrite (scopes_on _ _ _ _ _ Hsc). apply dom_insert_lookup_L. eauto.
  - by destruct (emitWhenReady_frame s sid h) as (-> & _).
  - destruct (scopes s !! sid) as [sc|] eqn:Hsc; [|unfold poll; by rewrite Hsc].
    rewrite (poll_scopes _ _ _ _ _ _ _ Hsc). apply dom_insert_lookup_L. eauto.
  - destruct (scopes s !! sid) as [sc|] eqn:Hsc; [|by rewrite cleanup_absent].
    rewrite (cleanup_unfold _ _ _ Hsc). cbn [scopes].
    apply dom_insert_lookup_L. eauto.
  - unfold onReconnect. destruct (scopes s !! sid) as [sc|] eqn:Hsc; [|done].
    cbn. apply dom_insert_lookup_L. eauto.
  - unfold markStarted. destruct (scopes s !! sid) as [sc|] eqn:Hsc; [|done].
    cbn. apply dom_insert_lookup_L. eauto.
  - by destruct (signal_frame ev s) as (-> & _).
  - by destruct (tick_cases t s) as [->|[h ->]].
Qed.

Lemma dom_scopes_unload s : dom (scopes (unload s)) = dom (scopes s).
Proof.
  apply set_eq. intros sid. rewrite !elem_of_dom. apply scopes_cleanups_is_Some.
Qed.

Lemma size_scopes_run ops s :
  size (scopes (run ops s)) = size (scopes s) + length (filter (λ o, creates o = true) ops).
Proof.
  unfold run. revert s. induction ops as [|o ops IH]; intros s; [simpl; lia|].
  simpl. rewrite IH, filter_cons. rewrite <- !size_dom.
  assert (o = Unload ∨ o ≠ Unload) as [->|Hu]
    by (destruct o; ((by left) || (right; intros H; discriminate H))).
  - cbn [step]. rewrite dom_scopes_unload. rewrite decide_False by done. lia.
  - rewrite (dom_scopes_step _ _ Hu). destruct (creates o) eqn:Hc.
    + rewrite decide_True by done. rewrite size_union, size_singleton; [simpl; lia|].
      apply disjoint_singleton_l, is_fresh.
    + rewrite decide_False by done. lia.
Qed.

End isolation_facts.

(** X1: a session's state belongs to that session.  A step that is
    not a method call of session [sid] and not the unload of the page
    (a method call of another session, the creation of a session, a
    signal, a tick) leaves the [scope] object of [sid] exactly as it
    was, and, where the books of the timers are kept, leaves every
    interval [sid] tracks as it was. *)
Theorem session_isolation s o sid sc :
  scopes s !! sid = Some sc → acts_on o ≠ Some sid → o ≠ Unload →
  scopes (step s o) !! sid = Some sc ∧
  (timers_ok s → ∀ t, t ∈ timers sc →
                      intervals (step s o) !! t = intervals s !! t).
Proof.
  intros Hsc Ha Hu. split; [by apply scopes_step_other|].
  intros Hok t Hin. by apply (intervals_step_other s o sid sc).
Qed.

Lemma session_isolation_witness :
  let s := run [OpSocketPage "jobs"; OpSocketPage "dashboard";
                OpPoll 0 180000%Z 7 None None] init in
  scopes s !! 0 = Some (Scope "jobs" [1%positive] ∅ false None) ∧
  acts_on (OpCleanup 1) ≠ Some 0 ∧ OpCleanup 1 ≠ Unload ∧
  scopes (step s (OpCleanup 1)) !! 0 = Some (Scope "jobs" [1%positive] ∅ false None).
Proof.
  intros s.
  assert (Hsc : scopes s !! 0 = Some (Scope "jobs" [1%positive] ∅ false None))
    by (by vm_compute).
  assert (Ha : acts_on (OpCleanup 1) ≠ Some 0) by (intros H; discriminate H).
  assert (Hu : OpCleanup 1 ≠ Unload) by (intros H; discriminate H).
  split; [exact Hsc|]. split; [exact Ha|]. split; [exact Hu|].
  exact (proj1 (session_isolation s (OpCleanup 1) 0 _ Hsc Ha Hu)).
Defined.

(** X2: reconnect listeners are never replaced.  In every page
    reached from the page load the socket carries one reconnect
    listener for each session that was ever created, so as many as
    there were calls of [SocketPage], whatever names they were given:
    the [socket.off("reconnect." + name)] of [SocketPage] removes none
    of them. *)
Theorem reconnect_listener_per_session ops :
  let s := run ops init in
  reconnect_ids (cbs s "reconnect") ≡ₚ elements (dom (scopes s)) ∧
  length (reconnect_ids (cbs s "reconnect")) =
    length (filter (λ o, creates o = true) ops) ∧
  (∀ nm, reconnect_ids (cbs (SocketPage nm s).2 "reconnect") =
         reconnect_ids (cbs s "reconnect") ++ [(SocketPage nm s).1]).
Proof.
  intros s.
  pose proof (wf_reconnect _ (wf_run ops init wf_init)) as Hp. fold s in Hp.
  split; [done|]. split.
  - rewrite Hp. change (length (elements (dom (scopes s)))) with (size (dom (scopes s))).
    rewrite size_dom. unfold s. rewrite size_scopes_run.
    change (scopes init) with (∅ : gmap session_id scope).
    by rewrite map_size_empty.
  - intros nm. by rewrite cbs_SocketPage, decide_True, reconnect_ids_app.
Qed.

(** X8: [SocketPage(name)] silences the event ["reconnect." + name].
    Its [socket.off] with that name as the only argument drops every
    callback of the event of that very name: a handler some session had
    registered for it stays in that session's [listeners] object but is
    no longer subscribed, and the event calls nothing. *)
Theorem SocketPage_clears_dotted_event s nm sid sc h :
  scopes s !! sid = Some sc →
  listeners sc !! ("reconnect." +:+ nm) = Some h →
  let s' := (SocketPage nm s).2 in
  scopes s' !! sid = Some sc ∧
  cbs s' ("reconnect." +:+ nm) = [] ∧
  calls (signal ("reconnect." +:+ nm) s') = calls s'.
Proof.
  intros Hsc Hl s'.
  assert (Hcbs : cbs s' ("reconnect." +:+ nm) = []).
  { unfold s'. rewrite cbs_SocketPage.
    rewrite decide_False by apply reconnect_name_ne. by rewrite decide_True. }
  split; [|split; [done|]].
  - apply (scopes_step_other s (OpSocketPage nm)); [done|intros H; discriminate H..].
  - by rewrite calls_signal, Hcbs, app_nil_r.
Qed.

Lemma SocketPage_clears_dotted_event_witness :
  let s := on 0 "reconnect.jobs" 3 jobs_page in
  scopes s !! 0 = Some (Scope "jobs" [] {["reconnect.jobs" := 3]} false None) ∧
  listeners (Scope "jobs" [] {["reconnect.jobs" := 3]} false None)
    !! ("reconnect." +:+ "jobs") = Some 3 ∧
  cbs s "reconnect.jobs" = [Fn 3] ∧
  cbs (SocketPage "jobs" s).2 ("reconnect." +:+ "jobs") = [].
Proof.
  intros s.
  assert (Hsc : scopes s !! 0 =
                Some (Scope "jobs" [] {["reconnect.jobs" := 3]} false None))
    by (by vm_compute).
  assert (Hl : listeners (Scope "jobs" [] {["reconnect.jobs" := 3]} false None)
                 !! ("reconnect." +:+ "jobs") = Some 3) by (by vm_compute).
  split; [exact Hsc|]. split; [exact Hl|]. split; [by vm_compute|].
  destruct (SocketPage_clears_dotted_event s "jobs" 0 _ 3 Hsc Hl) as (_ & H & _).
  exact H.
Defined.

(** ** Delivery to registered handlers *)

Section delivery_facts.
Implicit Types (s : world) (sc : scope).

Lemma tracked_live_same s s' ev :
  user_handlers (cbs s' ev) = user_handlers (cbs s ev) →
  bound s' ev ≡ₚ bound s ev →
  tracked_live s ev → tracked_live s' ev.
Proof. unfold tracked_live. by intros -> ->. Qed.

Lemma tracked_live_set_scope s sid sc sc' ev :
  scopes s !! sid = Some sc → listeners sc' = listeners sc →
  tracked_live s ev → tracked_live (set_scope sid sc' s) ev.
Proof.
  intros Hsc Hl. apply tracked_live_same; [done|].
  apply (bound_in_insert_same _ _ sc); [done|]. by rewrite Hl.
Qed.

Lemma tracked_live_init ev : tracked_live init ev.
Proof.
  unfold tracked_live, bound.
  change (scopes init) with (∅ : gmap session_id scope).
  rewrite bound_in_released; [apply submseteq_nil_l|].
  intros sid sc H. by rewrite lookup_empty in H.
Qed.

Lemma tracked_live_SocketPage nm s ev :
  plain_event ev → tracked_live s ev → tracked_live (SocketPage nm s).2 ev.
Proof.
  intros Hev. apply tracked_live_same.
  - rewrite cbs_SocketPage. case_decide; subst.
    + rewrite user_handlers_app. simpl. by rewrite app_nil_r.
    + by rewrite decide_False by apply Hev.
  - unfold bound. rewrite scopes_SocketPage.
    apply bound_in_insert_fresh; [apply SocketPage_fresh|done].
Qed.

Lemma tracked_live_on sid ev h s ev' :
  tracked_live s ev' → tracked_live (on sid ev h s) ev'.
Proof.
  intros Hb. destruct (scopes s !! sid) as [sc|] eqn:Hsc;
    [|unfold on; by rewrite Hsc].
  unfold tracked_live, bound in *.
  rewrite (cbs_on _ _ _ _ _ _ Hsc), (scopes_on _ _ _ _ _ Hsc).
  case_decide; subst.
  - rewrite bound_in_insert. cbn [listeners set_listeners].
    rewrite lookup_insert_eq. simpl. rewrite user_handlers_app. simpl.
    rewrite (bound_in_lookup _ _ _ _ Hsc) in Hb.
    apply unbind_subscribed in Hb.
    rewrite <- Permutation_cons_append. by apply submseteq_skip.
  - rewrite (bound_in_insert_same _ _ sc); [done|done|].
    cbn [listeners set_listeners]. by rewrite lookup_insert_ne.
Qed.

Lemma tracked_live_cleanup sid s ev :
  tracked_live s ev → tracked_live (cleanup sid s) ev.
Proof.
  intros Hb. destruct (scopes s !! sid) as [sc|] eqn:Hsc;
    [|by rewrite cleanup_absent].
  unfold tracked_live, bound in *. rewrite (cbs_cleanup _ _ _ _ Hsc).
  rewrite (cleanup_unfold _ _ _ Hsc). cbn [scopes].
  rewrite bound_in_insert. cbn [listeners set_listeners].
  rewrite lookup_empty. simpl.
  rewrite (bound_in_lookup _ _ _ _ Hsc) in Hb.
  by apply unbind_subscribed in Hb.
Qed.

Lemma tracked_live_emitWhenReady sid f s ev :
  tracked_live s ev → tracked_live (emitWhenReady sid f s) ev.
Proof.
  apply tracked_live_same.
  - unfold emitWhenReady. destruct (scopes s !! sid); [|done].
    destruct (connected s); [done|].
    rewrite cbs_socket_once. case_decide; [|done].
    subst. rewrite user_handlers_app. simpl. by rewrite app_nil_r.
  - unfold bound. by destruct (emitWhenReady_frame s sid f) as (-> & _).
Qed.

Lemma tracked_live_cleanups (l : list session_id) s ev :
  tracked_live s ev → tracked_live (foldl (λ s' sid, cleanup sid s') s l) ev.
Proof.
  revert s. induction l as [|sid l IH]; intros s Hb; [done|].
  simpl. by apply IH, tracked_live_cleanup.
Qed.

Lemma tracked_live_step s o ev :
  plain_event ev → tracked_live s ev → tracked_live (step s o) ev.
Proof.
  intros Hev Hb.
  destruct o as [nm|sid ev0 h|sid h|sid ms h im vo|sid|sid h|sid|ev0|t|hid|];
    cbn [step].
  - by apply tracked_live_SocketPage.
  - by apply tracked_live_on.
  - by apply tracked_live_emitWhenReady.
  - destruct (scopes s !! sid) as [sc|] eqn:Hsc;
      [|unfold poll; by rewrite Hsc].
    rewrite (poll_unfold _ _ _ _ _ _ _ Hsc).
    apply (tracked_live_set_scope _ _ sc); [|done|].
    + cbn. destruct (default true im); [|done].
      by destruct (emitWhenReady_frame s sid h) as (-> & _).
    + apply (tracked_live_same (if default true im then emitWhenReady sid h s else s));
        [done..|].
      destruct (default true im); [|done]. by apply tracked_live_emitWhenReady.
  - by apply tracked_live_cleanup.
  - unfold onReconnect. destruct (scopes s !! sid) as [sc|] eqn:Hsc; [|done].
    by apply (tracked_live_set_scope _ _ sc).
  - unfold markStarted. destruct (scopes s !! sid) as [sc|] eqn:Hsc; [|done].
    by apply (tracked_live_set_scope _ _ sc).
  - apply (tracked_live_same s); [| |done].
    + rewrite cbs_signal. case_decide; [|done].
      subst. by rewrite user_handlers_filter.
    + unfold bound. by destruct (signal_frame ev0 s) as (-> & _).
  - destruct (tick_cases t s) as [->|[h ->]]; [done|].
    by apply (tracked_live_same s).
  - by apply (tracked_live_same s).
  - by apply tracked_live_cleanups.
Qed.

Lemma tracked_live_run ops s ev :
  plain_event ev → tracked_live s ev → tracked_live (run ops s) ev.
Proof.
  unfold run. intros Hev. revert s.
  induction ops as [|o ops IH]; intros s Hb; [done|].
  simpl. by apply IH, tracked_live_step.
Qed.

End delivery_facts.

(** X9: a registered handler is served.  In every page reached from
    the page load, for every event name that is not of the form
    ["reconnect." + name], the handler a session holds in its
    [listeners] object for the event is subscribed on the socket, and
    the socket calls it when the event arrives; nothing another session
    does takes it off. *)
Theorem registered_handler_is_called ops ev sid sc h :
  plain_event ev →
  scopes (run ops init) !! sid = Some sc →
  listeners sc !! ev = Some h →
  let s := run ops init in
  Fn h ∈ cbs s ev ∧
  CallListener ev h ∈ calls_since (length (calls s)) (signal ev s).
Proof.
  intros Hev Hsc Hl s. fold s in Hsc.
  assert (Hb : tracked_live s ev)
    by (apply tracked_live_run; [done|apply tracked_live_init]).
  assert (Hin : Fn h ∈ cbs s ev).
  { apply elem_of_user_handlers. eapply elem_of_submseteq; [|exact Hb].
    unfold bound. rewrite (bound_in_lookup _ _ _ _ Hsc), Hl. left. }
  split; [done|].
  unfold calls_since. rewrite calls_signal, drop_app_length.
  apply elem_of_flat_map. exists (Fn h). split; [done|]. left.
Qed.

Lemma registered_handler_is_called_witness :
  let ops := [OpSocketPage "jobs"; OpOn 0 "jobs_list" 3; OpSocketPage "jobs";
              OpOn 1 "jobs_list" 3; OpCleanup 1] in
  plain_event "jobs_list" ∧
  scopes (run ops init) !! 0 = Some (Scope "jobs" [] {["jobs_list" := 3]} false None) ∧
  listeners (Scope "jobs" [] {["jobs_list" := 3]} false None) !! "jobs_list" = Some 3 ∧
  Fn 3 ∈ cbs (run ops init) "jobs_list".
Proof.
  intros ops.
  assert (Hev : plain_event "jobs_list") by (intros nm H; cbn in H; discriminate H).
  assert (Hsc : scopes (run ops init) !! 0 =
                Some (Scope "jobs" [] {["jobs_list" := 3]} false None))
    by (by vm_compute).
  assert (Hl : listeners (Scope "jobs" [] {["jobs_list" := 3]} false None)
                 !! "jobs_list" = Some 3) by (by vm_compute).
  split; [exact Hev|]. split; [exact Hsc|]. split; [exact Hl|].
  exact (proj1 (registered_handler_is_called ops "jobs_list" 0 _ 3 Hev Hsc Hl)).
Defined.

(** ** Several deferred calls *)

Section order_facts.
Implicit Types (s : world) (sc : scope).

Lemma emit_all_disconnected sid fs s :
  is_Some (scopes s !! sid) → connected s = false →
  cbs (emit_all sid fs s) "connect" =
    cbs s "connect" ++ imap (λ i f, OnceWrap (next_wrapper s + i) f) fs ∧
  (∀ ev, ev ≠ "connect" → cbs (emit_all sid fs s) ev = cbs s ev) ∧
  calls (emit_all sid fs s) = calls s ∧
  scopes (emit_all sid fs s) = scopes s ∧
  next_wrapper (emit_all sid fs s) = next_wrapper s + length fs.
Proof.
  unfold emit_all. revert s. induction fs as [|f fs IH]; intros s Hsc Hc.
  - cbn [foldl imap length]. rewrite app_nil_r.
    repeat split; try done; lia.
  - cbn [foldl]. rewrite emitWhenReady_disconnected by done.
    destruct (IH (socket_once "connect" f s)) as (H1 & H2 & H3 & H4 & H5);
      [done..|].
    rewrite H1, H3, H4, H5. split; [|split; [|repeat split]].
    + rewrite cbs_socket_once, decide_True by done.
      rewrite <- app_assoc. f_equal. cbn [imap app]. f_equal.
      * f_equal. cbn. lia.
      * apply imap_ext. intros i x _. cbn. f_equal. lia.
    + intros ev Hev. rewrite H2 by done.
      by rewrite cbs_socket_once, decide_False.
    + cbn. lia.
Qed.

Lemma flat_map_imap_singleton {A B C} (g : B → list C) (h : nat → A → B)
    (k : nat → A → C) (l : list A) :
  (∀ i x, g (h i x) = [k i x]) → flat_map g (imap h l) = imap k l.
Proof.
  revert h k. induction l as [|x l IH]; intros h k Hg; [done|].
  cbn [imap flat_map]. rewrite Hg. cbn [app]. f_equal.
  apply IH. intros i y. apply Hg.
Qed.

Lemma emitted_wrappers ev (m : gmap session_id scope) n (fs : list handler) :
  flat_map (emitted ev m) (imap (λ i f, OnceWrap (n + i) f) fs) =
  imap (λ i f, CallDeferred (n + i) f) fs.
Proof. by apply flat_map_imap_singleton. Qed.

End order_facts.

(** X4: deferred calls keep their order and are spent by one signal.
    When [emitWhenReady] is called for several functions while the
    socket is disconnected, nothing is called at once; the next
    [connect] signal calls them in the order of the calls, after the
    callbacks that were subscribed to [connect] before; it leaves no
    wrapper queued, and a further [connect] signal repeats none of
    them. *)
Theorem deferred_calls_fire_in_order s sid fs :
  is_Some (scopes s !! sid) → connected s = false →
  let s1 := emit_all sid fs s in
  let s2 := signal "connect" s1 in
  calls s1 = calls s ∧
  calls s2 = calls (signal "connect" s) ++
             imap (λ i f, CallDeferred (next_wrapper s + i) f) fs ∧
  wrapper_ids (cbs s2 "connect") = [] ∧
  (∀ w, fired w (signal "connect" s2) = fired w s2).
Proof.
  intros Hsc Hc s1 s2.
  destruct (emit_all_disconnected sid fs s Hsc Hc) as (H1 & _ & H3 & H4 & _).
  fold s1 in H1, H3, H4.
  assert (Hw : wrapper_ids (cbs s2 "connect") = []).
  { unfold s2. rewrite cbs_signal, decide_True by done. apply wrapper_ids_filter. }
  split; [done|]. split; [|split; [done|]].
  - unfold s2. rewrite !calls_signal, H1, H3, H4, flat_map_app, emitted_wrappers.
    by rewrite app_assoc.
  - intros w. by rewrite fired_signal, Hw.
Qed.

Lemma deferred_calls_fire_in_order_witness :
  is_Some (scopes jobs_page !! 0) ∧ connected jobs_page = false ∧
  calls (signal "connect" (emit_all 0 [7; 8; 9] jobs_page)) =
    calls (signal "connect" jobs_page) ++
    imap (λ i f, CallDeferred (next_wrapper jobs_page + i) f) [7; 8; 9].
Proof.
  assert (Hsc : is_Some (scopes jobs_page !! 0))
    by (exists jobs_scope; exact jobs_page_scope).
  split; [exact Hsc|]. split; [reflexivity|].
  destruct (deferred_calls_fire_in_order jobs_page 0 [7; 8; 9] Hsc eq_refl)
    as (_ & H & _).
  exact H.
Defined.

(** X5: a session has one reconnect callback, the last one given.
    After [onReconnect(f)] and then [onReconnect(g)] on a started
    session, a reconnect signal makes the listener of the session call
    [g], once, and not [f]. *)
Theorem onReconnect_last_wins s sid sc f g :
  wf s → scopes s !! sid = Some sc → started sc = true →
  let s2 := onReconnect sid g (onReconnect sid f s) in
  reconnect_calls sid (calls_since (length (calls s2)) (signal "reconnect" s2)) = [g].
Proof.
  intros Hwf Hsc Hst s2.
  assert (Hwf2 : wf s2).
  { apply (wf_step _ (OpOnReconnect sid g)), (wf_step _ (OpOnReconnect sid f)), Hwf. }
  assert (Hsc2 : scopes s2 !! sid =
                 Some (set_onReconnect (Some g) (set_onReconnect (Some f) sc))).
  { unfold s2, onReconnect. rewrite Hsc. cbn.
    rewrite lookup_insert_eq. cbn. apply lookup_insert_eq. }
  rewrite (reconnect_signal_calls s2 sid _ Hwf2 Hsc2). cbn. by rewrite Hst.
Qed.

Lemma onReconnect_last_wins_witness :
  let s := markStarted 0 jobs_page in
  wf s ∧ scopes s !! 0 = Some (Scope "jobs" [] ∅ true None) ∧
  started (Scope "jobs" [] ∅ true None) = true ∧
  reconnect_calls 0
    (calls_since (length (calls (onReconnect 0 8 (onReconnect 0 7 s))))
       (signal "reconnect" (onReconnect 0 8 (onReconnect 0 7 s)))) = [8].
Proof.
  intros s.
  assert (Hwf : wf s)
    by (apply (wf_run [OpSocketPage "jobs"; OpMarkStarted 0] init), wf_init).
  assert (Hsc : scopes s !! 0 = Some (Scope "jobs" [] ∅ true None))
    by (by vm_compute).
  split; [exact Hwf|]. split; [exact Hsc|]. split; [reflexivity|].
  exact (onReconnect_last_wins s 0 _ 7 8 Hwf Hsc eq_refl).
Defined.

(** X6: ticks do not wait for the connection, and [visibleOnly: false]
    makes them ignore visibility.  A timer created by [poll] with
    [visibleOnly: false] calls [fn] on every tick, in whatever state the
    tick finds the page: hidden or visible, connected or not; unlike
    the immediate call, a tick is never queued for [connect]. *)
Theorem poll_always_ticks s sid sc ms fn im :
  scopes s !! sid = Some sc →
  let t := fresh (dom (intervals s)) in
  let s1 := poll sid ms fn im (Some false) s in
  intervals s1 !! t = Some (Interval ms false fn) ∧
  (∀ s', intervals s' !! t = Some (Interval ms false fn) →
         calls (tick t s') = calls s' ++ [CallTick t fn] ∧
         emitter (tick t s') = emitter s') ∧
  (∀ vis, calls (run (ticks_under t vis) s1) =
          calls s1 ++ replicate (length vis) (CallTick t fn)).
Proof.
  intros Hsc t s1.
  assert (Hi : intervals s1 !! t = Some (Interval ms false fn)).
  { unfold s1. rewrite (poll_intervals _ _ _ _ _ _ _ Hsc). apply lookup_insert_eq. }
  assert (Htick : ∀ s', intervals s' !! t = Some (Interval ms false fn) →
                        tick t s' = log (CallTick t fn) s').
  { intros s' Hs'. unfold tick. by rewrite Hs'. }
  split; [done|]. split.
  - intros s' Hs'. by rewrite Htick.
  - intros vis. generalize Hi. generalize s1. clear Hi.
    induction vis as [|v vis IH]; intros s' Hs'.
    + simpl. by rewrite app_nil_r.
    + change (ticks_under t (v :: vis))
        with ([Visibility (negb v); Tick t] ++ ticks_under t vis).
      rewrite run_app. cbn [run foldl step].
      rewrite (Htick (set_hidden (negb v) s')) by done.
      rewrite IH by done. cbn. by rewrite <- app_assoc.
Qed.

Lemma poll_always_ticks_witness :
  scopes jobs_page !! 0 = Some jobs_scope ∧
  calls (run (ticks_under 1%positive [true; false; false])
           (poll 0 180000%Z 7 (Some false) (Some false) jobs_page))
  = calls (poll 0 180000%Z 7 (Some false) (Some false) jobs_page) ++
    replicate 3 (CallTick 1%positive 7).
Proof.
  split; [exact jobs_page_scope|].
  destruct (poll_always_ticks jobs_page 0 jobs_scope 180000%Z 7 (Some false)
              jobs_page_scope) as (_ & _ & H).
  exact (H [true; false; false]).
Defined.

(** ** The page scripts *)

Section onload_facts.
Implicit Types (s : world) (sc : scope).

Lemma wf_standard_onload nm ev a b c s :
  wf s → wf (standard_onload nm ev a b c s).2.
Proof.
  intros Hwf. unfold standard_onload.
  destruct (SocketPage nm s) as [page s1] eqn:Hp. cbn [snd].
  assert (wf s1) by (change s1 with (page, s1).2; rewrite <- Hp; by apply wf_SocketPage).
  apply (wf_step _ (OpMarkStarted page)), wf_poll,
    (wf_step _ (OpOnReconnect page b)), wf_on. done.
Qed.

Lemma intervals_cleanup_gone sid s t :
  intervals s !! t = None → intervals (cleanup sid s) !! t = None.
Proof.
  intros Ht. destruct (scopes s !! sid) as [sc|] eqn:Hsc;
    [|by rewrite cleanup_absent].
  rewrite (cleanup_unfold _ _ _ Hsc). cbn [intervals].
  rewrite lookup_foldl_delete. by case_decide.
Qed.

Lemma intervals_cleanups_gone (l : list session_id) s t :
  intervals s !! t = None ∨
    (∃ sid sc, sid ∈ l ∧ scopes s !! sid = Some sc ∧ t ∈ timers sc) →
  intervals (foldl (λ s' x, cleanup x s') s l) !! t = None.
Proof.
  revert s. induction l as [|x l IH]; intros s.
  - intros [?|(sid & sc & Hin & _)]; [done|by apply elem_of_nil in Hin].
  - intros [Ht|(sid & sc & Hin & Hsc & Htm)]; simpl; apply IH.
    + left. by apply intervals_cleanup_gone.
    + destruct (decide (x = sid)) as [->|Hne].
      * left. rewrite (cleanup_unfold _ _ _ Hsc). cbn [intervals].
        by rewrite lookup_foldl_delete, decide_True.
      * right. exists sid, sc. apply elem_of_cons in Hin as [->|Hin]; [done|].
        split; [done|]. split; [|done].
        apply (scopes_step_other s (OpCleanup x)); [done| |intros H; discriminate H].
        cbn. congruence.
Qed.

End onload_facts.

Section onload_steps.
Implicit Types (s : world) (sc : scope).

Lemma SocketPage_frame nm s :
  calls (SocketPage nm s).2 = calls s ∧
  connected (SocketPage nm s).2 = connected s ∧
  next_wrapper (SocketPage nm s).2 = next_wrapper s ∧
  intervals (SocketPage nm s).2 = intervals s ∧
  hidden (SocketPage nm s).2 = hidden s ∧
  beforeunload (SocketPage nm s).2 = beforeunload s ++ [(SocketPage nm s).1].
Proof. done. Qed.

Lemma SocketPage_scope nm s :
  scopes (SocketPage nm s).2 !! (SocketPage nm s).1 = Some (Scope nm [] ∅ false None).
Proof. rewrite scopes_SocketPage. apply lookup_insert_eq. Qed.

Lemma onReconnect_unfold s sid sc fn :
  scopes s !! sid = Some sc →
  onReconnect sid fn s = set_scope sid (set_onReconnect (Some fn) sc) s.
Proof. intros H. unfold onReconnect. by rewrite H. Qed.

Lemma markStarted_unfold s sid sc :
  scopes s !! sid = Some sc →
  markStarted sid s = set_scope sid (set_started true sc) s.
Proof. intros H. unfold markStarted. by rewrite H. Qed.

Lemma scopes_set_scope s sid sc :
  scopes (set_scope sid sc s) = <[sid := sc]> (scopes s).
Proof. done. Qed.

End onload_steps.

Section onload_state.
Implicit Types (s : world) (sc : scope).

Lemma standard_onload_state nm ev on_payload refresh request s :
  let page := (standard_onload nm ev on_payload refresh request s).1 in
  let s' := (standard_onload nm ev on_payload refresh request s).2 in
  let s1 := (SocketPage nm s).2 in
  let s3 := onReconnect page refresh (on page ev on_payload s1) in
  let t := fresh (dom (intervals s)) in
  page = fresh (dom (scopes s)) ∧
  scopes s3 !! page = Some (Scope nm [] {[ev := on_payload]} false (Some refresh)) ∧
  scopes s' =
    <[page := Scope nm [t] {[ev := on_payload]} true (Some refresh)]> (scopes s) ∧
  intervals s' = <[t := Interval 180000 true request]> (intervals s) ∧
  calls s' = calls (emitWhenReady page request s3) ∧
  (∀ e, cbs s' e = cbs (emitWhenReady page request s3) e) ∧
  calls s3 = calls s ∧ connected s3 = connected s ∧
  next_wrapper s3 = next_wrapper s ∧
  (∀ e, cbs s3 e =
        if decide (ev = e) then cbs s1 e ++ [Fn on_payload] else cbs s1 e).
Proof.
  intros page s' s1 s3 t.
  assert (Hpage : page = (SocketPage nm s).1).
  { unfold page, standard_onload. by destruct (SocketPage nm s). }
  assert (Hs' : s' = markStarted page
                       (poll page 180000 request (Some true) (Some true) s3)).
  { unfold s', s3, s1, standard_onload. rewrite Hpage.
    by destruct (SocketPage nm s). }
  assert (Hsc1 : scopes s1 !! page = Some (Scope nm [] ∅ false None)).
  { rewrite Hpage. apply SocketPage_scope. }
  set (s2 := on page ev on_payload s1) in *.
  assert (Hsc2 : scopes s2 !! page = Some (Scope nm [] {[ev := on_payload]} false None)).
  { unfold s2. rewrite (scopes_on _ _ _ _ _ Hsc1). apply lookup_insert_eq. }
  assert (Hsc3 : scopes s3 !! page =
                 Some (Scope nm [] {[ev := on_payload]} false (Some refresh))).
  { unfold s3. rewrite (onReconnect_unfold _ _ _ _ Hsc2). apply lookup_insert_eq. }
  destruct (on_frame s1 page ev on_payload) as (Hn2 & Hc2 & Hi2 & Hk2 & _).
  fold s2 in Hn2, Hc2, Hi2, Hk2.
  assert (Hi3 : intervals s3 = intervals s).
  { unfold s3. by rewrite (onReconnect_unfold _ _ _ _ Hsc2). }
  set (s4 := poll page 180000 request (Some true) (Some true) s3) in *.
  assert (Hsc4 : scopes s4 !! page =
                 Some (Scope nm [t] {[ev := on_payload]} false (Some refresh))).
  { unfold s4. rewrite (poll_scopes _ _ _ _ _ _ _ Hsc3), Hi3. apply lookup_insert_eq. }
  split; [by rewrite Hpage|]. split; [done|].
  split.
  { rewrite Hs', (markStarted_unfold _ _ _ Hsc4), scopes_set_scope.
    unfold s4. rewrite (poll_scopes _ _ _ _ _ _ _ Hsc3).
    unfold s3. rewrite (onReconnect_unfold _ _ _ _ Hsc2), scopes_set_scope.
    unfold s2. rewrite (scopes_on _ _ _ _ _ Hsc1).
    unfold s1. rewrite scopes_SocketPage, <- Hpage.
    by rewrite !insert_insert_eq. }
  split.
  { rewrite Hs', (markStarted_unfold _ _ _ Hsc4). cbn [intervals set_scope set_scopes].
    unfold s4. by rewrite (poll_intervals _ _ _ _ _ _ _ Hsc3), Hi3. }
  split.
  { rewrite Hs', (markStarted_unfold _ _ _ Hsc4). cbn [calls set_scope set_scopes].
    unfold s4. by rewrite (poll_calls _ _ _ _ _ _ _ Hsc3). }
  split.
  { intros e. rewrite Hs', (markStarted_unfold _ _ _ Hsc4), cbs_set_scope.
    unfold s4. by rewrite (poll_cbs _ _ _ _ _ _ _ _ Hsc3). }
  unfold s3. rewrite (onReconnect_unfold _ _ _ _ Hsc2).
  cbn [calls connected next_wrapper set_scope set_scopes].
  split; [by rewrite Hc2|]. split; [by rewrite Hk2|]. split; [by rewrite Hn2|].
  intros e. rewrite cbs_set_scope. unfold s2. rewrite (cbs_on _ _ _ _ _ _ Hsc1).
  cbn [listeners]. rewrite lookup_empty. by case_decide; subst.
Qed.

End onload_state.

(** X10: what the ready handlers of resources.js and dashboard.js set
    up.  Run on a well-formed page, the handler leaves one new session
    that tracks the payload handler for its event, owns one timer of
    period 180000 ms that skips hidden ticks, has its reconnect callback
    and is started.  The first request is made at once when the socket is
    connected; when it is not, nothing is called yet and the next
    [connect] signal makes the request exactly once, after every callback
    registered before.  From then on the payload handler is called on
    its event and a [reconnect] signal makes the session call the
    reconnect callback exactly once. *)
Theorem standard_onload_ready nm ev on_payload refresh request s :
  wf s →
  let page := (standard_onload nm ev on_payload refresh request s).1 in
  let s' := (standard_onload nm ev on_payload refresh request s).2 in
  let t := fresh (dom (intervals s)) in
  let w := next_wrapper s in
  scopes s !! page = None ∧ intervals s !! t = None ∧
  scopes s' =
    <[page := Scope nm [t] {[ev := on_payload]} true (Some refresh)]> (scopes s) ∧
  intervals s' = <[t := Interval 180000 true request]> (intervals s) ∧
  (connected s = true → calls s' = calls s ++ [CallDirect request]) ∧
  (connected s = false →
     calls s' = calls s ∧
     fired w (signal "connect" s') = 1 ∧
     last (calls (signal "connect" s')) = Some (CallDeferred w request)) ∧
  CallListener ev on_payload ∈ calls_since (length (calls s')) (signal ev s') ∧
  reconnect_calls page
    (calls_since (length (calls s')) (signal "reconnect" s')) = [refresh].
Proof.
  intros Hwf page s' t w.
  pose proof (wf_standard_onload nm ev on_payload refresh request s Hwf) as Hwf'.
  fold s' in Hwf'.
  destruct (standard_onload_state nm ev on_payload refresh request s)
    as (Hpage & Hsc3 & Hsc & Hiv & Hcalls & Hcbs & Hc3 & Hk3 & Hn3 & Hcbs3).
  fold page in Hpage, Hsc3, Hcalls, Hcbs, Hc3, Hk3, Hn3, Hcbs3.
  fold s' in Hsc, Hiv, Hcalls, Hcbs. fold t in Hsc, Hiv.
  set (s3 := onReconnect page refresh (on page ev on_payload (SocketPage nm s).2)) in *.
  assert (Hwf3 : wf s3).
  { apply (wf_step _ (OpOnReconnect page refresh)), wf_on. by apply wf_SocketPage. }
  assert (His3 : is_Some (scopes s3 !! page)) by by rewrite Hsc3.
  split. { rewrite Hpage. apply not_elem_of_dom, is_fresh. }
  split. { apply not_elem_of_dom, is_fresh. }
  split; [done|]. split; [done|].
  split; [|split; [|split]].
  - intros Hcon. rewrite Hcalls, emitWhenReady_connected by (done || congruence).
    cbn. by rewrite Hc3.
  - intros Hcon. rewrite <- Hk3 in Hcon.
    destruct (emitWhenReady_queued s3 page request Hwf3 His3 Hcon)
      as (_ & Hfired & Hpend).
    rewrite Hn3 in Hfired, Hpend. fold w in Hfired, Hpend.
    split; [|split].
    + rewrite Hcalls, emitWhenReady_disconnected by done. cbn. by rewrite Hc3.
    + rewrite fired_signal. unfold fired in *. rewrite Hcalls, Hfired.
      unfold pending in Hpend. by rewrite Hcbs, Hpend.
    + rewrite calls_signal, Hcbs, emitWhenReady_disconnected by done.
      rewrite cbs_socket_once, decide_True by done.
      rewrite flat_map_app. cbn [flat_map emitted app]. rewrite Hn3.
      by rewrite !app_assoc, last_snoc.
  - unfold calls_since. rewrite calls_signal, drop_app_length.
    apply elem_of_flat_map. exists (Fn on_payload). split; [|by left].
    rewrite Hcbs. unfold emitWhenReady. destruct His3 as [sc3 ->].
    destruct (connected s3).
    + rewrite cbs_log, Hcbs3, decide_True by done. apply elem_of_app. right. by left.
    + rewrite cbs_socket_once. case_decide.
      * apply elem_of_app. left. subst ev. rewrite Hcbs3, decide_True by done.
        apply elem_of_app. right. by left.
      * rewrite Hcbs3, decide_True by done. apply elem_of_app. right. by left.
  - rewrite (reconnect_signal_calls s' page
               (Scope nm [t] {[ev := on_payload]} true (Some refresh)) Hwf').
    + done.
    + rewrite Hsc. apply lookup_insert_eq.
Qed.

Lemma standard_onload_ready_witness :
  wf init ∧
  calls (signal "connect" (resources_onload 1 2 3 init).2) =
    [CallDeferred 0 3] ∧
  reconnect_calls 0
    (calls_since 0 (signal "reconnect" (resources_onload 1 2 3 init).2)) = [2].
Proof.
  split; [exact wf_init|].
  destruct (standard_onload_ready "resources" "resources_list" 1 2 3 init wf_init)
    as (_ & _ & _ & _ & _ & _ & _ & H).
  split; [reflexivity|exact H].
Defined.

Section jobs_onload_facts.
Implicit Types (s : world) (sc : scope).

Lemma beforeunload_poll sid ms fn im vo s :
  beforeunload (poll sid ms fn im vo s) = beforeunload s.
Proof.
  destruct (scopes s !! sid) as [sc|] eqn:Hsc; [|unfold poll; by rewrite Hsc].
  rewrite (poll_unfold _ _ _ _ _ _ _ Hsc).
  cbn [beforeunload set_scope set_scopes set_intervals].
  destruct (default true im); [|done].
  unfold emitWhenReady. rewrite Hsc. by destruct (connected s).
Qed.

Lemma jobs_onload_state rateMs a b c d refresh requestJobs s :
  let page := fresh (dom (scopes s)) in
  let pollId := fresh ({[page]} ∪ dom (scopes s)) in
  let t := fresh (dom (intervals s)) in
  ∃ s',
    jobs_onload None rateMs a b c d refresh requestJobs s =
      Returned (page, Some pollId, s') ∧
    scopes s' !! page =
      Some (Scope "jobs" [] (jobs_listeners a b c d) true (Some refresh)) ∧
    scopes s' !! pollId = Some (Scope "jobs" [t] ∅ false None) ∧
    intervals s' = <[t := Interval rateMs true requestJobs]> (intervals s) ∧
    pollId ∈ beforeunload s' ∧
    (wf s → wf s').
Proof.
  intros page pollId t.
  unfold jobs_onload, startJobsPolling.
  destruct (SocketPage "jobs" s) as [page' s1] eqn:Hp.
  assert (Hpage : page' = page) by (by inversion Hp). subst page'.
  assert (Hs1 : s1 = (SocketPage "jobs" s).2) by (by rewrite Hp).
  assert (Hsc1 : scopes s1 !! page = Some (Scope "jobs" [] ∅ false None)).
  { rewrite Hs1. apply SocketPage_scope. }
  set (sa := on page "jobs_list" a s1).
  assert (Hsa : scopes sa !! page =
                Some (Scope "jobs" [] {["jobs_list" := a]} false None)).
  { unfold sa. rewrite (scopes_on _ _ _ _ _ Hsc1). apply lookup_insert_eq. }
  set (sb := on page "error" b sa).
  assert (Hsb : scopes sb !! page =
                Some (Scope "jobs" [] (<["error" := b]> {["jobs_list" := a]})
                        false None)).
  { unfold sb. rewrite (scopes_on _ _ _ _ _ Hsa). apply lookup_insert_eq. }
  set (sc' := on page "job_submitted" c sb).
  assert (Hsc' : scopes sc' !! page =
                 Some (Scope "jobs" []
                         (<["job_submitted" := c]>
                            (<["error" := b]> {["jobs_list" := a]}))
                         false None)).
  { unfold sc'. rewrite (scopes_on _ _ _ _ _ Hsb). apply lookup_insert_eq. }
  set (sd := on page "view_output" d sc').
  assert (Hsd : scopes sd !! page =
                Some (Scope "jobs" [] (jobs_listeners a b c d) false None)).
  { unfold sd. rewrite (scopes_on _ _ _ _ _ Hsc'). apply lookup_insert_eq. }
  set (s3 := onReconnect page refresh sd).
  assert (Hs3 : scopes s3 !! page =
                Some (Scope "jobs" [] (jobs_listeners a b c d) false (Some refresh))).
  { unfold s3. rewrite (onReconnect_unfold _ _ _ _ Hsd). apply lookup_insert_eq. }
  assert (Hdom : dom (scopes s3) = {[page]} ∪ dom (scopes s)).
  { unfold s3. rewrite (onReconnect_unfold _ _ _ _ Hsd), scopes_set_scope.
    unfold sd. rewrite (scopes_on _ _ _ _ _ Hsc'). unfold sc'.
    rewrite (scopes_on _ _ _ _ _ Hsb). unfold sb.
    rewrite (scopes_on _ _ _ _ _ Hsa). unfold sa.
    rewrite (scopes_on _ _ _ _ _ Hsc1), Hs1, scopes_SocketPage, Hp. cbn [fst].
    rewrite !insert_insert_eq. apply dom_insert_L. }
  assert (Hi3 : intervals s3 = intervals s).
  { unfold s3. rewrite (onReconnect_unfold _ _ _ _ Hsd).
    cbn [intervals set_scope set_scopes]. unfold sd, sc', sb, sa.
    repeat match goal with
           | |- context [intervals (on ?p ?e ?h ?x)] =>
               replace (intervals (on p e h x)) with (intervals x)
                 by (symmetry; apply on_frame)
           end.
    by rewrite Hs1. }
  destruct (SocketPage "jobs" s3) as [pollId' s4] eqn:Hp2.
  assert (HpollId : pollId' = pollId).
  { inversion Hp2. unfold pollId. by rewrite <- Hdom. }
  subst pollId'.
  assert (Hs4 : s4 = (SocketPage "jobs" s3).2) by (by rewrite Hp2).
  assert (Hne : page ≠ pollId).
  { intros Heq. pose proof (SocketPage_fresh "jobs" s3) as Hf.
    rewrite Hp2 in Hf. cbn [fst] in Hf. rewrite <- Heq, Hs3 in Hf. done. }
  assert (Hsc4 : scopes s4 !! pollId = Some (Scope "jobs" [] ∅ false None)).
  { pose proof (SocketPage_scope "jobs" s3) as Hf. rewrite Hp2 in Hf. exact Hf. }
  assert (Hsc4p : scopes s4 !! page =
                  Some (Scope "jobs" [] (jobs_listeners a b c d) false (Some refresh))).
  { rewrite Hs4, scopes_SocketPage, Hp2. cbn [fst].
    by rewrite lookup_insert_ne. }
  set (s5 := poll pollId rateMs requestJobs (Some true) (Some true) s4).
  assert (Hi4 : intervals s4 = intervals s) by (by rewrite Hs4).
  assert (Hsc5 : scopes s5 = <[pollId := Scope "jobs" [t] ∅ false None]> (scopes s4)).
  { unfold s5. by rewrite (poll_scopes _ _ _ _ _ _ _ Hsc4), Hi4. }
  assert (Hsc5p : scopes s5 !! page =
                  Some (Scope "jobs" [] (jobs_listeners a b c d) false (Some refresh))).
  { rewrite Hsc5. by rewrite lookup_insert_ne. }
  eexists. split; [reflexivity|].
  rewrite (markStarted_unfold _ _ _ Hsc5p).
  cbn [scopes intervals beforeunload set_scope set_scopes].
  split; [apply lookup_insert_eq|].
  split. { rewrite lookup_insert_ne by done. rewrite Hsc5. apply lookup_insert_eq. }
  split. { unfold s5. by rewrite (poll_intervals _ _ _ _ _ _ _ Hsc4), Hi4. }
  split.
  { unfold s5. rewrite beforeunload_poll, Hs4.
    change (beforeunload (SocketPage "jobs" s3).2)
      with (beforeunload s3 ++ [(SocketPage "jobs" s3).1]).
    rewrite Hp2. cbn [fst]. apply elem_of_app. right. by left. }
  intros Hwf.
  change (wf (set_scope page (set_started true
            (Scope "jobs" [] (jobs_listeners a b c d) false (Some refresh))) s5)).
  rewrite <- (markStarted_unfold _ _ _ Hsc5p).
  apply (wf_step _ (OpMarkStarted page)), wf_poll. rewrite Hs4.
  apply wf_SocketPage, (wf_step _ (OpOnReconnect page refresh)).
  repeat apply wf_on. rewrite Hs1. by apply wf_SocketPage.
Qed.

End jobs_onload_facts.

(** X11: the ready handler of jobs.js polls in a second session.  The
    handler creates the page's session and, through [startJobsPolling],
    another one of the same name; the returned poll id is that second
    session.  The page's own session tracks the four listeners and no
    timer, so its [cleanup] leaves the polling timer running; the timer
    is owned by the second session and stops with the page's unload.
    On a [reconnect] signal the page's session calls its reconnect
    callback once and the polling session, never started, calls
    nothing. *)
Theorem jobs_onload_polls_in_second_session
    rateMs on_list on_error on_submitted on_output refresh requestJobs s :
  wf s →
  let t := fresh (dom (intervals s)) in
  ∃ page pollId s',
    jobs_onload None rateMs on_list on_error on_submitted on_output
      refresh requestJobs s = Returned (page, Some pollId, s') ∧
    page ≠ pollId ∧
    scopes s' !! page =
      Some (Scope "jobs" [] (jobs_listeners on_list on_error on_submitted on_output)
              true (Some refresh)) ∧
    scopes s' !! pollId = Some (Scope "jobs" [t] ∅ false None) ∧
    intervals s !! t = None ∧
    intervals s' !! t = Some (Interval rateMs true requestJobs) ∧
    intervals (cleanup page s') !! t = Some (Interval rateMs true requestJobs) ∧
    intervals (unload s') !! t = None ∧
    reconnect_calls page
      (calls_since (length (calls s')) (signal "reconnect" s')) = [refresh] ∧
    reconnect_calls pollId
      (calls_since (length (calls s')) (signal "reconnect" s')) = [].
Proof.
  intros Hwf t.
  destruct (jobs_onload_state rateMs on_list on_error on_submitted on_output
              refresh requestJobs s)
    as (s' & Hrun & Hpage & Hpoll & Hiv & Hbu & Hwf').
  specialize (Hwf' Hwf). fold t in Hpoll, Hiv.
  set (page := fresh (dom (scopes s))) in *.
  set (pollId := fresh ({[page]} ∪ dom (scopes s))) in *.
  exists page, pollId, s'.
  assert (Ht : intervals s' !! t = Some (Interval rateMs true requestJobs)).
  { rewrite Hiv. apply lookup_insert_eq. }
  split; [done|]. split.
  { intros Heq. pose proof (is_fresh ({[page]} ∪ dom (scopes s))) as Hf.
    fold pollId in Hf. rewrite <- Heq in Hf. set_solver. }
  split; [done|]. split; [done|].
  split. { apply not_elem_of_dom, is_fresh. }
  split; [done|]. split.
  { rewrite (cleanup_unfold _ _ _ Hpage). cbn [intervals timers foldl]. done. }
  split.
  { apply intervals_cleanups_gone. right.
    exists pollId, (Scope "jobs" [t] ∅ false None).
    split; [done|]. split; [done|]. by left. }
  split.
  - by rewrite (reconnect_signal_calls s' page _ Hwf' Hpage).
  - by rewrite (reconnect_signal_calls s' pollId _ Hwf' Hpoll).
Qed.

Lemma jobs_onload_polls_in_second_session_witness :
  wf init ∧
  ∃ page pollId s',
    jobs_onload None 180000 1 2 3 4 5 6 init = Returned (page, Some pollId, s') ∧
    page ≠ pollId ∧
    intervals (cleanup page s') !! 1%positive = Some (Interval 180000 true 6) ∧
    intervals (unload s') !! 1%positive = None.
Proof.
  split; [exact wf_init|].
  destruct (jobs_onload_polls_in_second_session 180000 1 2 3 4 5 6 init wf_init)
    as (page & pollId & s' & Hrun & Hne & _ & _ & _ & _ & Hcl & Hun & _).
  exists page, pollId, s'. split; [exact Hrun|]. split; [exact Hne|].
  split; [exact Hcl|exact Hun].
Defined.

(** * The job filters *)

Section job_filters.
Context `{JsRuntime}.
Implicit Types (jb : job) (f : job_filter) (fs : list job_filter) (jobs : list job).

Lemma array_every_true {A} (p : A → outcome bool) (l : list A) :
  array_every p l = Returned true ↔ Forall (λ x, p x = Returned true) l.
Proof.
  induction l as [|x l IH]; cbn [array_every].
  - split; [constructor|done].
  - destruct (p x) as [[|]|e] eqn:Hp.
    + rewrite IH. split; [by constructor|]. by inversion 1.
    + split; [done|]. inversion 1; congruence.
    + split; [done|]. inversion 1; congruence.
Qed.

Lemma array_filter_spec {A} (p : A → outcome bool) (l r : list A) :
  array_filter p l = Returned r → r = filter (λ x, p x = Returned true) l.
Proof.
  revert r. induction l as [|x l IH]; intros r; cbn [array_filter].
  - by intros [= <-].
  - destruct (p x) as [b|e] eqn:Hp; [|done].
    destruct (array_filter p l) as [r'|e]; [|done].
    intros [= <-]. rewrite (IH r' eq_refl).
    destruct b.
    + by rewrite filter_cons_True.
    + rewrite filter_cons_False; [done|]. congruence.
Qed.

Lemma array_filter_thrown {A} (p : A → outcome bool) (l : list A) x e :
  x ∈ l → p x = Thrown e → ∃ e', array_filter p l = Thrown e'.
Proof.
  intros Hin Hp. induction l as [|y l IH]; [by apply elem_of_nil in Hin|].
  cbn [array_filter]. destruct (p y) as [b|e'] eqn:Hy; [|by eexists].
  apply elem_of_cons in Hin as [->|Hin]; [congruence|].
  destruct (IH Hin) as [e' ->]. by eexists.
Qed.

Lemma array_filter_returns {A} (p : A → outcome bool) (l : list A) :
  (∀ x, x ∈ l → ∃ b, p x = Returned b) → ∃ r, array_filter p l = Returned r.
Proof.
  induction l as [|y l IH]; intros Hall; cbn [array_filter]; [by eexists|].
  destruct (Hall y) as [b ->]; [by left|].
  destruct IH as [r ->]; [|by eexists].
  intros x Hx. apply Hall. by right.
Qed.

Lemma array_every_returns {A} (p : A → outcome bool) (l : list A) :
  (∀ x, x ∈ l → ∃ b, p x = Returned b) → ∃ b, array_every p l = Returned b.
Proof.
  induction l as [|y l IH]; intros Hall; cbn [array_every]; [by eexists|].
  destruct (Hall y) as [[|] ->]; [by left| |by eexists].
  apply IH. intros x Hx. apply Hall. by right.
Qed.

Lemma filter_all {A} (P : A → Prop) `{∀ x, Decision (P x)} (l : list A) :
  (∀ x, P x) → filter P l = l.
Proof.
  intros HP. induction l as [|x l IH]; [done|].
  by rewrite filter_cons_True, IH.
Qed.

Lemma filterJobs_filter fs jobs shown :
  filterJobs fs jobs = Returned shown →
  shown = filter (λ jb, Forall (λ f, passes jb f = Returned true) fs) jobs.
Proof.
  destruct fs as [|f fs].
  - cbn. intros [= <-]. symmetry. apply filter_all. intros jb. constructor.
  - unfold filterJobs. intros ->%array_filter_spec.
    apply list_filter_iff. intros jb. apply array_every_true.
Qed.

End job_filters.

Section filter_actions.
Implicit Types (f : job_filter) (fs : list job_filter).

Lemma splice_sublist {A} (start : option Z) (deleteCount : Z) (l : list A) :
  splice start deleteCount l `sublist_of` l.
Proof.
  unfold splice.
  set (len := Z.of_nat (length l)).
  set (a := if (default 0%Z start <? 0)%Z then Z.max (len + default 0%Z start) 0
            else Z.min (default 0%Z start) len).
  set (c := Z.min (Z.max deleteCount 0) (len - a)).
  assert (0 ≤ a ≤ len)%Z as Ha.
  { unfold a. destruct (Z.ltb_spec (default 0%Z start) 0); lia. }
  assert (0 ≤ c)%Z as Hc by (unfold c; lia).
  rewrite <- (take_drop (Z.to_nat a) l) at 3.
  apply sublist_app; [done|].
  replace (Z.to_nat (a + c)) with (Z.to_nat a + Z.to_nat c)%nat by lia.
  rewrite <- drop_drop. apply sublist_drop.
Qed.

Lemma existsb_duplicate type value fs :
  existsb (λ f, bool_decide (filter_type f = type) &&
                bool_decide (filter_value f = value)) fs = false →
  (type, value) ∉ filter_key <$> fs.
Proof.
  intros Hex (f & Heq & Hin)%list_elem_of_fmap.
  assert (existsb (λ f, bool_decide (filter_type f = type) &&
                        bool_decide (filter_value f = value)) fs = true); [|congruence].
  apply existsb_exists. exists f. split; [by apply list_elem_of_In|].
  inversion Heq. by rewrite !bool_decide_eq_true_2.
Qed.

End filter_actions.

(** X12: [filterJobs] shows exactly the jobs that pass every filter, in
    the order of [jobsData].  Whenever it reaches [updateJobsTable], the
    list it hands over is [jobsData] restricted to the jobs for which
    every active filter answers [true] (all jobs when no filter is
    active); and it does reach it whenever no filter throws on any job. *)
Theorem filterJobs_shows_matching_jobs `{JsRuntime}
    (fs : list job_filter) (jobs : list job) :
  (∀ shown, filterJobs fs jobs = Returned shown →
     shown = filter (λ jb, Forall (λ f, passes jb f = Returned true) fs) jobs ∧
     shown `sublist_of` jobs) ∧
  ((∀ jb f, jb ∈ jobs → f ∈ fs → ∃ b, passes jb f = Returned b) →
     ∃ shown, filterJobs fs jobs = Returned shown).
Proof.
  split.
  - intros shown Heq. pose proof (filterJobs_filter _ _ _ Heq) as ->.
    split; [done|]. apply sublist_filter.
  - intros Hall. destruct fs as [|f fs]; [by eexists|].
    unfold filterJobs. apply array_filter_returns.
    intros jb Hjb. apply array_every_returns. intros f' Hf'. by apply Hall.
Qed.

(** X13: a partition or QOS filter does not tolerate a job without the
    field.  When the first active filter is not a state filter and some
    job of [jobsData] has [undefined] or [null] under the filter's
    type, [filterJobs] ends with a [TypeError] from
    [jobValue.toString()] and never reaches [updateJobsTable], whatever
    the other jobs and the other filters are. *)
Theorem filterJobs_throws_on_missing_field `{JsRuntime}
    (f : job_filter) (fs : list job_filter) (jobs : list job) (jb : job) :
  filter_type f ≠ "state" → filter_type f ≠ "status" →
  jb ∈ jobs →
  get_prop jb (filter_type f) = Undefined ∨ get_prop jb (filter_type f) = Null →
  ∃ msg, filterJobs (f :: fs) jobs = Thrown (TypeError msg).
Proof.
  intros Hs1 Hs2 Hin Hmiss.
  assert (∃ e, passes jb f = Thrown e) as [e He].
  { unfold passes. rewrite !bool_decide_eq_false_2 by done. cbn [orb].
    destruct Hmiss as [-> | ->]; by eexists. }
  assert (array_every (passes jb) (f :: fs) = Thrown e) as Hev.
  { cbn [array_every]. by rewrite He. }
  destruct (array_filter_thrown (λ jb, array_every (passes jb) (f :: fs)) jobs jb e
              Hin Hev) as [[msg] Hthrown].
  exists msg. exact Hthrown.
Qed.

Lemma filterJobs_throws_on_missing_field_witness :
  ∃ msg,
    @filterJobs ascii_runtime [Filter "partition" "gpu" "partition: gpu"]
      [{["partition" := Str "gpu"]}; {["state" := Str "RUNNING"]}]
    = Thrown (TypeError msg).
Proof.
  apply (@filterJobs_throws_on_missing_field ascii_runtime
           (Filter "partition" "gpu" "partition: gpu") []
           [{["partition" := Str "gpu"]}; {["state" := Str "RUNNING"]}]
           {["state" := Str "RUNNING"]}).
  - discriminate.
  - discriminate.
  - apply list_elem_of_further, list_elem_of_here.
  - left. reflexivity.
Defined.

(** X14: a status filter is a state filter, and both read [job.state]
    before [job.status].  The filter types [state] and [status] give the
    same answer on every job, whatever the label.  A job whose [state]
    is a non-empty string is judged by that string alone, compared in
    upper case with the filter's value, [EXITED] standing for the five
    exit states; [job.status] is then not looked at.  A job whose state
    (or, failing that, status) is truthy but no string makes the filter
    throw. *)
Theorem state_filter_reads_state_first `{JsRuntime}
    (jb : job) (v l l' : string) :
  passes jb (Filter "status" v l) = passes jb (Filter "state" v l') ∧
  (∀ s, get_prop jb "state" = Str s → s ≠ "" →
     passes jb (Filter "state" v l) =
       Returned (if bool_decide (toUpperCase v = "EXITED")
                 then bool_decide (toUpperCase s ∈ EXIT_STATES)
                 else bool_decide (toUpperCase s = toUpperCase v)) ∧
     ∀ x, passes (<["status" := x]> jb) (Filter "state" v l) =
          passes jb (Filter "state" v l)) ∧
  (∀ x, js_or (get_prop jb "state") (get_prop jb "status") = x →
        truthy x = true → (∀ s, x ≠ Str s) →
        ∃ msg, passes jb (Filter "state" v l) = Thrown (TypeError msg)).
Proof.
  split; [done|]. split.
  - intros s Hs Hne.
    assert (Hstate : ∀ jb', get_prop jb' "state" = Str s →
              passes jb' (Filter "state" v l) =
              Returned (if bool_decide (toUpperCase v = "EXITED")
                        then bool_decide (toUpperCase s ∈ EXIT_STATES)
                        else bool_decide (toUpperCase s = toUpperCase v))).
    { intros jb' Hjb'. unfold passes. cbn [filter_type filter_value].
      rewrite bool_decide_eq_true_2 by done. cbn [orb].
      rewrite Hjb'. unfold js_or. cbn [truthy].
      rewrite bool_decide_eq_false_2 by done. cbn [negb truthy].
      rewrite bool_decide_eq_false_2 by done. cbn [negb call_toUpperCase].
      by case_bool_decide. }
    split; [by apply Hstate|].
    intros x. rewrite (Hstate jb Hs). apply Hstate.
    unfold get_prop. rewrite lookup_insert_ne by done. exact Hs.
  - intros x Hx Htr Hns. unfold passes. cbn [filter_type filter_value].
    rewrite bool_decide_eq_true_2 by done. cbn [orb].
    rewrite Hx. unfold js_or at 1. rewrite Htr.
    destruct x; try done; try by eexists.
    by destruct (Hns s).
Qed.

(** X15: the order of the active filters does not change what is shown.
    Two filter lists that are permutations of each other, when
    [filterJobs] reaches [updateJobsTable] under both, hand over the
    same list. *)
Theorem filterJobs_order_irrelevant `{JsRuntime}
    (fs fs' : list job_filter) (jobs shown shown' : list job) :
  fs ≡ₚ fs' →
  filterJobs fs jobs = Returned shown →
  filterJobs fs' jobs = Returned shown' →
  shown = shown'.
Proof.
  intros Hp ->%filterJobs_filter ->%filterJobs_filter.
  apply list_filter_iff. intros jb. by rewrite Hp.
Qed.

Lemma filterJobs_order_irrelevant_witness :
  [Filter "state" "running" "state: RUNNING"; Filter "status" "Running" "status: RUNNING"]
    ≡ₚ [Filter "status" "Running" "status: RUNNING"; Filter "state" "running" "state: RUNNING"] ∧
  @filterJobs ascii_runtime
    [Filter "state" "running" "state: RUNNING"; Filter "status" "Running" "status: RUNNING"]
    [{["state" := Str "RUNNING"]}; ∅] = Returned [{["state" := Str "RUNNING"]}] ∧
  @filterJobs ascii_runtime
    [Filter "status" "Running" "status: RUNNING"; Filter "state" "running" "state: RUNNING"]
    [{["state" := Str "RUNNING"]}; ∅] = Returned [{["state" := Str "RUNNING"]}] ∧
  [({["state" := Str "RUNNING"]} : @gmap string _ _ (@js_value ascii_runtime))]
    = [{["state" := Str "RUNNING"]}].
Proof.
  assert (Hp : [Filter "state" "running" "state: RUNNING";
                Filter "status" "Running" "status: RUNNING"]
               ≡ₚ [Filter "status" "Running" "status: RUNNING";
                   Filter "state" "running" "state: RUNNING"]) by apply perm_swap.
  assert (H1 : @filterJobs ascii_runtime
      [Filter "state" "running" "state: RUNNING"; Filter "status" "Running" "status: RUNNING"]
      [{["state" := Str "RUNNING"]}; ∅] = Returned [{["state" := Str "RUNNING"]}])
    by reflexivity.
  assert (H2 : @filterJobs ascii_runtime
      [Filter "status" "Running" "status: RUNNING"; Filter "state" "running" "state: RUNNING"]
      [{["state" := Str "RUNNING"]}; ∅] = Returned [{["state" := Str "RUNNING"]}])
    by reflexivity.
  split; [exact Hp|]. split; [exact H1|]. split; [exact H2|].
  exact (@filterJobs_order_irrelevant ascii_runtime _ _ _ _ _ Hp H1 H2).
Defined.

Section filter_invariant.
Implicit Types (f : job_filter) (fs : list job_filter).

Lemma handleApplyFilter_cases type valueEl fs :
  handleApplyFilter type valueEl fs = fs ∨
  ∃ value text,
    valueEl = Some (value, text) ∧ type ≠ "" ∧ value ≠ "" ∧
    ((type, value) ∉ filter_key <$> fs) ∧
    handleApplyFilter type valueEl fs = fs ++ [Filter type value (type +:+ ": " +:+ text)].
Proof.
  unfold handleApplyFilter. destruct valueEl as [[value text]|]; [|by left].
  destruct (bool_decide (type = "")) eqn:Ht; [by left|].
  destruct (bool_decide (value = "")) eqn:Hv; [by left|]. cbn [orb].
  destruct (existsb _ fs) eqn:Hex; [by left|].
  right. exists value, text.
  apply bool_decide_eq_false in Ht, Hv.
  by split; [|split; [|split; [|split; [apply existsb_duplicate|]]]].
Qed.

Lemma removeFilter_sublist index fs : removeFilter index fs `sublist_of` fs.
Proof. apply splice_sublist. Qed.

Lemma filters_ok_step fs a : filters_ok fs → filters_ok (filter_step fs a).
Proof.
  intros [Hnd Hall].
  destruct a as [type valueEl|index]; cbn [filter_step].
  - destruct (handleApplyFilter_cases type valueEl fs)
      as [-> | (value & text & _ & Ht & Hv & Hnew & ->)]; [done|].
    split.
    + rewrite fmap_app. apply NoDup_app. split; [done|]. split.
      * intros k Hk ->%list_elem_of_singleton. done.
      * apply NoDup_singleton.
    + apply Forall_app. split; [done|]. constructor; [|constructor].
      cbn. split; [done|]. split; [done|]. by exists text.
  - pose proof (removeFilter_sublist index fs) as Hsub. split.
    + eapply sublist_NoDup; [exact Hnd|]. by apply fmap_sublist.
    + rewrite Forall_forall in Hall |- *. intros f Hf. apply Hall.
      by eapply elem_of_sublist.
Qed.

Lemma filters_ok_run actions fs :
  filters_ok fs → filters_ok (foldl filter_step fs actions).
Proof.
  revert fs. induction actions as [|a actions IH]; intros fs Hfs; [done|].
  cbn [foldl]. by apply IH, filters_ok_step.
Qed.

End filter_invariant.

(** X16: the active filters stay well formed under everything the form
    can do.  After any sequence of [handleApplyFilter] and
    [removeFilter] calls, with whatever inputs, starting from no filter:
    no two active filters have the same type and value, no filter has an
    empty type or an empty value, and every label is the type, a colon
    and a space, and a text. *)
Theorem active_filters_invariant (actions : list filter_action) :
  let fs := foldl filter_step [] actions in
  NoDup (filter_key <$> fs) ∧
  Forall (λ f, filter_type f ≠ "" ∧ filter_value f ≠ "" ∧
               ∃ text, filter_label f = filter_type f +:+ ": " +:+ text) fs.
Proof.
  apply (filters_ok_run actions []). split; constructor.
Qed.

(** X17: what [removeFilter] removes.  With an index inside the array it
    removes exactly the filter at that index; with an index at or past
    the end it removes nothing; with [NaN], which [parseInt] gives for a
    button without a readable index, it removes the first filter; a
    negative index counts from the end.  Removing at the old length
    right after [handleApplyFilter] has added a filter gives the old
    filters back. *)
Theorem removeFilter_removes_one_filter (fs : list job_filter) :
  (∀ i : nat, (i < length fs)%nat →
     removeFilter (Some (Z.of_nat i)) fs = delete i fs) ∧
  (∀ z : Z, (Z.of_nat (length fs) ≤ z)%Z → removeFilter (Some z) fs = fs) ∧
  removeFilter None fs = drop 1 fs ∧
  (∀ k : nat, (0 < k ≤ length fs)%nat →
     removeFilter (Some (- Z.of_nat k)%Z) fs = delete (length fs - k)%nat fs) ∧
  (∀ type value text,
     handleApplyFilter type (Some (value, text)) fs ≠ fs →
     removeFilter (Some (Z.of_nat (length fs)))
       (handleApplyFilter type (Some (value, text)) fs) = fs).
Proof.
  assert (Hsplice : ∀ (start : option Z) (a b : nat) (l : list job_filter),
            (∀ rel, rel = default 0%Z start →
               let len := Z.of_nat (length l) in
               let actualStart :=
                 if (rel <? 0)%Z then Z.max (len + rel) 0 else Z.min rel len in
               Z.to_nat actualStart = a ∧
               Z.to_nat (actualStart + Z.min (Z.max 1 0) (len - actualStart)) = b) →
            removeFilter start l = take a l ++ drop b l).
  { intros start a b l Hab. destruct (Hab _ eq_refl) as [Ha Hb].
    unfold removeFilter, splice. by rewrite Ha, Hb. }
  assert (Hin : ∀ i : nat, (i < length fs)%nat →
            removeFilter (Some (Z.of_nat i)) fs = delete i fs).
  { intros i Hi. rewrite delete_take_drop. apply Hsplice.
    intros rel ->. cbn. destruct (Z.ltb_spec (Z.of_nat i) 0); lia. }
  split; [exact Hin|]. split; [|split; [|split]].
  - intros z Hz.
    transitivity (take (length fs) fs ++ drop (length fs) fs);
      [|by rewrite firstn_all, drop_all, app_nil_r].
    apply Hsplice. intros rel ->. cbn. destruct (Z.ltb_spec z 0); lia.
  - destruct fs as [|f fs']; [done|].
    change (drop 1 (f :: fs')) with (take 0 (f :: fs') ++ drop 1 (f :: fs')).
    apply Hsplice. intros rel ->. cbn [default from_option id length].
    change (0 <? 0)%Z with false. cbn zeta iota. lia.
  - intros k Hk. rewrite delete_take_drop. apply Hsplice.
    intros rel ->. cbn [default from_option id].
    destruct (Z.ltb_spec (- Z.of_nat k) 0); lia.
  - intros type value text Hne.
    destruct (handleApplyFilter_cases type (Some (value, text)) fs)
      as [Heq | (value' & text' & _ & _ & _ & _ & Heq)]; [done|].
    rewrite Heq.
    rewrite (Hsplice _ (length fs) (S (length fs))).
    + rewrite take_app_length. rewrite drop_ge; [by rewrite app_nil_r|].
      rewrite length_app. cbn. lia.
    + intros rel ->. cbn [default from_option id]. rewrite length_app. cbn [length].
      destruct (Z.ltb_spec (Z.of_nat (length fs)) 0); lia.
Qed.

(** * Indices read back from the badges *)

Section parse_decimal.

Lemma is_digit_cases a :
  is_digit a = true →
  a ∈ ["0"; "1"; "2"; "3"; "4"; "5"; "6"; "7"; "8"; "9"]%char.
Proof.
  destruct a as [[] [] [] [] [] [] [] []]; cbn; intros Hd; try discriminate Hd;
    repeat (first [apply list_elem_of_here | apply list_elem_of_further]).
Qed.

Lemma pretty_N_char_digit (d : N) :
  (d < 10)%N →
  is_digit (pretty_N_char d) = true ∧
  digit_value (pretty_N_char d) = Some (Z.of_N d).
Proof.
  intros Hd.
  assert (d = 0 ∨ d = 1 ∨ d = 2 ∨ d = 3 ∨ d = 4 ∨ d = 5 ∨ d = 6 ∨ d = 7 ∨
          d = 8 ∨ d = 9)%N as Hcases by lia.
  repeat (destruct Hcases as [-> | Hcases]; [by split|]). by subst.
Qed.

Lemma pretty_N_go_digits (x : N) (s : string) :
  all_digits s = true → all_digits (pretty_N_go x s) = true.
Proof.
  revert s. induction (N.lt_wf_0 x) as [x _ IH]; intros s Hs.
  assert (x = 0 ∨ 0 < x)%N as [-> | Hx] by lia; [by rewrite pretty_N_go_0|].
  rewrite pretty_N_go_step by done. apply IH; [by apply N.div_lt|].
  cbn [all_digits]. rewrite Hs.
  destruct (pretty_N_char_digit (x `mod` 10)) as [-> _]; [|done].
  by apply N.mod_lt.
Qed.

Lemma pretty_N_go_not_empty (x : N) (s : string) :
  (0 < x)%N → pretty_N_go x s ≠ "".
Proof.
  revert s. induction (N.lt_wf_0 x) as [x _ IH]; intros s Hx.
  rewrite pretty_N_go_step by done.
  destruct (N.eq_0_gt_0_cases (x `div` 10)) as [-> | Hq].
  - by rewrite pretty_N_go_0.
  - apply IH; [by apply N.div_lt|done].
Qed.

Lemma parse_digits_pretty_go (x : N) :
  (0 < x)%N →
  ∃ k : Z, (0 ≤ k)%Z ∧ ∀ acc s,
    parse_digits 10 acc (pretty_N_go x s) =
    parse_digits 10 (Some (default 0 acc * 10 ^ k + Z.of_N x)%Z) s.
Proof.
  induction (N.lt_wf_0 x) as [x _ IH]. intros Hx.
  assert (Hdm : x = (10 * x `div` 10 + x `mod` 10)%N) by by apply N.div_mod.
  assert (Hr : (x `mod` 10 < 10)%N) by by apply N.mod_lt.
  destruct (pretty_N_char_digit (x `mod` 10)) as [_ Hdv]; [done|].
  destruct (N.eq_0_gt_0_cases (x `div` 10)) as [Hq | Hq].
  - exists 1%Z. split; [done|]. intros acc s.
    rewrite pretty_N_go_step, Hq, pretty_N_go_0 by done.
    cbn [parse_digits]. rewrite Hdv.
    destruct (Z.ltb_spec (Z.of_N (x `mod` 10)) 10) as [_|?]; [|lia].
    do 2 f_equal. lia.
  - destruct (IH (x `div` 10)%N) as (k & Hk0 & Hk); [by apply N.div_lt|done|].
    exists (k + 1)%Z. split; [lia|]. intros acc s.
    rewrite pretty_N_go_step, Hk by done.
    cbn [parse_digits default from_option id]. rewrite Hdv.
    destruct (Z.ltb_spec (Z.of_N (x `mod` 10)) 10) as [_|?]; [|lia].
    do 2 f_equal. rewrite Z.pow_add_r by lia. lia.
Qed.

Lemma parseInt_all_digits (s : string) :
  s ≠ "" → all_digits s = true → parseInt s = parse_digits 10 None s.
Proof.
  assert (Hone : ∀ o : option Z, Z.mul 1 <$> o = o).
  { intros [z|]; [|done]. cbn. f_equal. lia. }
  destruct s as [|a s]; [done|]. intros _. cbn [all_digits].
  intros [Ha Hs]%andb_true_iff. apply is_digit_cases in Ha.
  unfold parseInt.
  repeat (apply elem_of_cons in Ha as [-> | Ha]; [cbn; try apply Hone|]);
    [|by apply elem_of_nil in Ha].
  destruct s as [|b s]; [apply Hone|].
  cbn [all_digits] in Hs. apply andb_true_iff in Hs as [Hb _].
  apply is_digit_cases in Hb.
  repeat (apply elem_of_cons in Hb as [-> | Hb]; [apply Hone|]).
  by apply elem_of_nil in Hb.
Qed.

Lemma parseInt_pretty (n : nat) : parseInt (pretty n) = Some (Z.of_nat n).
Proof.
  unfold pretty, pretty_nat, pretty, pretty_N.
  case_decide as Hn.
  - replace n with 0%nat by lia. reflexivity.
  - rewrite parseInt_all_digits.
    + destruct (parse_digits_pretty_go (N.of_nat n)) as (k & _ & Hk); [lia|].
      rewrite Hk. cbn. f_equal. lia.
    + apply pretty_N_go_not_empty. lia.
    + by apply pretty_N_go_digits.
Qed.

End parse_decimal.

Section remove_click.
Implicit Types (fs : list job_filter).

Lemma removeFilter_inside fs (i : nat) :
  (i < length fs)%nat → removeFilter (Some (Z.of_nat i)) fs = delete i fs.
Proof.
  intros Hi. rewrite delete_take_drop. unfold removeFilter, splice.
  cbn [default from_option id].
  destruct (Z.ltb_spec (Z.of_nat i) 0) as [?|_]; [lia|].
  f_equal; f_equal; lia.
Qed.

Lemma removeFilter_NaN fs : removeFilter None fs = drop 1 fs.
Proof.
  destruct fs as [|f fs]; [done|].
  unfold removeFilter, splice. cbn [default from_option id length].
  change (0 <? 0)%Z with false. cbn iota.
  replace (Z.to_nat (0 `min` Z.of_nat (S (length fs)))) with 0%nat by lia.
  replace (Z.to_nat (0 `min` Z.of_nat (S (length fs)) +
                     (1 `max` 0) `min`
                       (Z.of_nat (S (length fs)) - 0 `min` Z.of_nat (S (length fs)))))
    with 1%nat by lia.
  done.
Qed.

End remove_click.

(** X24: the remove button of a badge removes the filter of that badge.
    [renderActiveFilters] writes the index of each filter, in decimal,
    into the [data-index] of its remove button, and the click listener
    reads it back with [parseInt]: the index read is the index written,
    and the click removes from [activeFilters] exactly the filter at
    that index and no other.  A remove button without the attribute
    removes the first filter. *)
Theorem badge_button_removes_its_filter (fs : list job_filter) (k : nat) :
  parseInt (badge_index k) = Some (Z.of_nat k) ∧
  ((k < length fs)%nat →
     on_remove_click (Some (badge_index k)) fs = delete k fs ∧
     length (on_remove_click (Some (badge_index k)) fs) = (length fs - 1)%nat ∧
     ∀ i, on_remove_click (Some (badge_index k)) fs !! i =
          if decide (i < k)%nat then fs !! i else fs !! S i) ∧
  on_remove_click None fs = drop 1 fs.
Proof.
  assert (Hp : parseInt (badge_index k) = Some (Z.of_nat k)) by apply parseInt_pretty.
  split; [done|]. split.
  - intros Hk. unfold on_remove_click. cbn [default from_option id]. rewrite Hp.
    rewrite removeFilter_inside by done. split; [done|]. split.
    + rewrite length_delete; [done|]. by apply lookup_lt_is_Some.
    + intros i. case_decide.
      * by apply list_lookup_delete_lt.
      * apply list_lookup_delete_ge. lia.
  - unfold on_remove_click. cbn [default from_option id].
    change (parseInt "undefined") with (@None Z). apply removeFilter_NaN.
Qed.

(** * Stored settings *)

Section settings.
Implicit Types (st : gmap string string) (sel : select).

Lemma item_or_not_empty k d st : d ≠ "" → item_or k d st ≠ "".
Proof.
  intros Hd. unfold item_or. destruct (st !! k) as [v|]; [|done].
  by case_bool_decide.
Qed.

Lemma item_or_insert k d v st :
  item_or k d (<[k := v]> st) = if bool_decide (v = "") then d else v.
Proof. unfold item_or. by rewrite lookup_insert_eq. Qed.

Lemma item_or_insert_ne k k' d v st :
  k' ≠ k → item_or k d (<[k' := v]> st) = item_or k d st.
Proof. intros Hne. unfold item_or. by rewrite lookup_insert_ne. Qed.

Lemma item_or_missing k d st :
  st !! k = None ∨ st !! k = Some "" → item_or k d st = d.
Proof. unfold item_or. by intros [-> | ->]. Qed.

Lemma select_value_set v sel :
  select_value (select_set_value v sel) =
  if bool_decide (v ∈ options sel) then v else "".
Proof.
  unfold select_value, select_set_value. cbn [options selectedIndex].
  destruct (list_find (λ o, o = v) (options sel)) as [[i o]|] eqn:Hfind.
  - apply list_find_Some in Hfind as (Hi & -> & _). cbn. rewrite Hi. cbn.
    rewrite bool_decide_eq_true_2; [done|]. by eapply list_elem_of_lookup_2.
  - cbn. rewrite bool_decide_eq_false_2; [done|].
    intros Hin. rewrite list_find_None in Hfind.
    rewrite Forall_forall in Hfind. by apply (Hfind v).
Qed.

Lemma select_value_option sel :
  select_value sel ≠ "" → select_value sel ∈ options sel.
Proof.
  unfold select_value. destruct (selectedIndex sel) as [i|]; [|done]. cbn.
  destruct (options sel !! i) as [o|] eqn:Hi; [|done]. cbn.
  intros _. by eapply list_elem_of_lookup_2.
Qed.

End settings.

(** X18: the default QOS and partition are never empty, and the settings
    page and the submit form agree on them.  [getDefaultQos] and
    [getDefaultPartition] return a non-empty string on every storage.
    After [saveDefaultSlurmSettings] they return what the two selects
    showed, or [normal] and [standard] for a select with nothing
    selected; and [loadDefaultSlurmSettings], on selects with the same
    options, shows again what was selected when it was saved. *)
Theorem slurm_defaults_saved_and_read_back
    (qsel psel : select) (st : gmap string string) :
  getDefaultQos st ≠ "" ∧ getDefaultPartition st ≠ "" ∧
  let st' := saveDefaultSlurmSettings qsel psel st in
  getDefaultQos st' =
    (if bool_decide (select_value qsel = "") then "normal" else select_value qsel) ∧
  getDefaultPartition st' =
    (if bool_decide (select_value psel = "") then "standard" else select_value psel) ∧
  (∀ q0 p0, options q0 = options qsel → options p0 = options psel →
     (select_value qsel ≠ "" →
        select_value (loadDefaultSlurmSettings q0 p0 st').1 = select_value qsel) ∧
     (select_value psel ≠ "" →
        select_value (loadDefaultSlurmSettings q0 p0 st').2 = select_value psel)).
Proof.
  split; [by apply item_or_not_empty|]. split; [by apply item_or_not_empty|].
  cbn zeta. unfold saveDefaultSlurmSettings.
  split; [|split].
  - unfold getDefaultQos. rewrite item_or_insert_ne by done. apply item_or_insert.
  - unfold getDefaultPartition. apply item_or_insert.
  - intros q0 p0 Hq Hp. unfold loadDefaultSlurmSettings. cbn [fst snd].
    rewrite lookup_insert_ne by done. rewrite !lookup_insert_eq. split.
    + intros Hne. rewrite bool_decide_eq_false_2 by done.
      rewrite select_value_set, Hq, bool_decide_eq_true_2; [done|].
      by apply select_value_option.
    + intros Hne. rewrite bool_decide_eq_false_2 by done.
      rewrite select_value_set, Hp, bool_decide_eq_true_2; [done|].
      by apply select_value_option.
Qed.

(** X19: the two defaults of the refresh rate disagree.  On a storage
    with no refresh rate, or an empty one, [getCurrentRefreshRateMs]
    answers 180000; once the settings page has been loaded on that
    storage, [loadRefreshRate] has stored [60] and the answer is 60000,
    though the user saved nothing.  The select shows [60] where it has
    that option, and nothing otherwise. *)
Theorem refresh_rate_defaults_disagree (sel : select) (st : gmap string string) :
  st !! "refreshRate" = None ∨ st !! "refreshRate" = Some "" →
  getCurrentRefreshRateMs st = Some 180000%Z ∧
  (loadRefreshRate sel st).2 !! "refreshRate" = Some "60" ∧
  getCurrentRefreshRateMs (loadRefreshRate sel st).2 = Some 60000%Z ∧
  select_value (loadRefreshRate sel st).1 =
    (if bool_decide ("60" ∈ options sel) then "60" else "").
Proof.
  intros Hst. split.
  { unfold getCurrentRefreshRateMs. by rewrite item_or_missing. }
  assert (loadRefreshRate sel st =
          (select_set_value "60" sel, <["refreshRate" := "60"]> st)) as ->.
  { unfold loadRefreshRate. by destruct Hst as [-> | ->]. }
  cbn [fst snd]. split; [apply lookup_insert_eq|]. split.
  - unfold getCurrentRefreshRateMs. by rewrite item_or_insert.
  - apply select_value_set.
Qed.

Lemma refresh_rate_defaults_disagree_witness :
  getCurrentRefreshRateMs ∅ = Some 180000%Z ∧
  getCurrentRefreshRateMs (loadRefreshRate (Select ["30"; "60"; "180"] (Some 0%nat)) ∅).2
    = Some 60000%Z.
Proof.
  destruct (refresh_rate_defaults_disagree (Select ["30"; "60"; "180"] (Some 0%nat)) ∅)
    as (H1 & _ & H2 & _).
  - left. apply lookup_empty.
  - split; [exact H1|exact H2].
Defined.


(** * Timers set outside the sessions *)

Section untracked_timers.
Implicit Types (s : world) (sc : scope).

Lemma untracked_cleanup t iv sid s : untracked t iv s → untracked t iv (cleanup sid s).
Proof.
  intros [Hi Hs]. destruct (scopes s !! sid) as [sc|] eqn:Hsc;
    [|by rewrite cleanup_absent].
  rewrite (cleanup_unfold _ _ _ Hsc). split; cbn [intervals scopes].
  - rewrite lookup_foldl_delete, decide_False; [done|]. by apply (Hs sid).
  - intros sid' sc'. rewrite lookup_insert. case_decide.
    + intros [= <-]. cbn. apply not_elem_of_nil.
    + apply Hs.
Qed.

Lemma untracked_step t iv s o : untracked t iv s → untracked t iv (step s o).
Proof.
  intros [Hi Hs].
  destruct o as [nm|sid ev h|sid h|sid ms h im vo|sid|sid h|sid|ev|t'|hid|];
    cbn [step].
  - split; [done|]. intros sid sc. rewrite scopes_SocketPage, lookup_insert.
    case_decide; [|apply Hs]. intros [= <-]. apply not_elem_of_nil.
  - destruct (scopes s !! sid) as [sc0|] eqn:Hsc0; [|unfold on; by rewrite Hsc0].
    split.
    + destruct (on_frame s sid ev h) as (_ & _ & -> & _). done.
    + intros sid' sc'. rewrite (scopes_on _ _ _ _ _ Hsc0), lookup_insert.
      case_decide; [|apply Hs]. intros [= <-]. cbn. by apply (Hs sid).
  - destruct (emitWhenReady_frame s sid h) as (Hsc & Hiv & _).
    split; [by rewrite Hiv|]. intros sid' sc'. rewrite Hsc. apply Hs.
  - destruct (scopes s !! sid) as [sc0|] eqn:Hsc0; [|unfold poll; by rewrite Hsc0].
    assert (Hne : fresh (dom (intervals s)) ≠ t).
    { intros Heq. pose proof (poll_fresh s) as Hf. rewrite Heq in Hf. congruence. }
    split.
    + rewrite (poll_intervals _ _ _ _ _ _ _ Hsc0). by rewrite lookup_insert_ne.
    + intros sid' sc'. rewrite (poll_scopes _ _ _ _ _ _ _ Hsc0), lookup_insert.
      case_decide; [|apply Hs]. intros [= <-]. cbn.
      intros [Hin | ->%list_elem_of_singleton]%elem_of_app; [|done].
      by apply (Hs sid sc0).
  - by apply untracked_cleanup.
  - unfold onReconnect. destruct (scopes s !! sid) as [sc0|] eqn:Hsc0; [|done].
    split; [done|]. intros sid' sc'. cbn [scopes set_scope set_scopes].
    rewrite lookup_insert. case_decide; [|apply Hs].
    intros [= <-]. cbn. by apply (Hs sid).
  - unfold markStarted. destruct (scopes s !! sid) as [sc0|] eqn:Hsc0; [|done].
    split; [done|]. intros sid' sc'. cbn [scopes set_scope set_scopes].
    rewrite lookup_insert. case_decide; [|apply Hs].
    intros [= <-]. cbn. by apply (Hs sid).
  - destruct (signal_frame ev s) as (Hsc & _ & Hiv & _).
    split; [by rewrite Hiv|]. intros sid' sc'. rewrite Hsc. apply Hs.
  - by destruct (tick_cases t' s) as [->|[h ->]].
  - done.
  - unfold unload. generalize (beforeunload s). intros l.
    assert (Hu : untracked t iv s) by done. revert Hu. generalize s.
    induction l as [|x l IH]; intros s' Hu; [done|].
    cbn [foldl]. by apply IH, untracked_cleanup.
Qed.

Lemma untracked_run t iv ops s : untracked t iv s → untracked t iv (run ops s).
Proof.
  revert s. induction ops as [|o ops IH]; intros s Hu; [done|].
  cbn [run foldl]. by apply IH, untracked_step.
Qed.

End untracked_timers.

(** X21: the poll of main.js outlives every session.  main.js sets its
    interval on [window] directly; whatever the sessions did before and
    whatever they do afterwards, their [cleanup] and the unload of the
    page included, that interval stays active, no session ever has it in
    its [timers], and each of its ticks calls the request function, the
    document hidden or not. *)
Theorem main_poll_outlives_sessions (before after : list op)
    (on_stats request : handler) :
  let s := run before init in
  let t := (main_onload on_stats request s).1 in
  let s' := run after (main_onload on_stats request s).2 in
  intervals s !! t = None ∧
  intervals s' !! t = Some (Interval 180000 false request) ∧
  (∀ sid sc, scopes s' !! sid = Some sc → t ∉ timers sc) ∧
  calls (tick t s') = calls s' ++ [CallTick t request].
Proof.
  intros s t s'.
  assert (Hok : timers_ok s) by apply timers_ok_run, timers_ok_init.
  assert (Hfresh : intervals s !! t = None) by exact (poll_fresh s).
  assert (Hu : untracked t (Interval 180000 false request) s').
  { apply untracked_run. split.
    - unfold main_onload, setInterval. cbn. apply lookup_insert_eq.
    - intros sid sc Hsc Hin.
      destruct (tracked_is_active s Hok sid (timers sc) t) as [iv Hiv]; [|done|].
      + unfold timers_of.
        change (scopes (main_onload on_stats request s).2) with (scopes s) in Hsc.
        by rewrite Hsc.
      + congruence. }
  destruct Hu as [Hi Hs]. split; [done|]. split; [done|]. split; [done|].
  unfold tick. by rewrite Hi.
Qed.

(** * The jobs table *)

Section jobs_table.
Context `{JsRuntime}.
Implicit Types (v : jobs_view) (ev : view_event) (fs : list job_filter).

Lemma updateJobsTable_rows (l rows : list job) :
  updateJobsTable l = Returned rows → rows = l.
Proof.
  unfold updateJobsTable. destruct l as [|jb l]; [by intros [= <-]|].
  destruct (array_map _ _); [|done]. by intros [= <-].
Qed.

Lemma show_cases (rows : outcome (list job)) v v' e :
  show rows v = (v', e) →
  (∃ l, rows = Returned l ∧ v' = set_table l v ∧ e = None) ∨
  (∃ err, rows = Thrown err ∧ v' = v ∧ e = Some err).
Proof.
  destruct rows as [l|err]; cbn; intros [= <- <-]; [left|right]; by eexists.
Qed.

Lemma filterJobs_view_cases v v' e :
  filterJobs_view v = (v', e) →
  activeFilters v' = activeFilters v ∧ jobsData v' = jobsData v ∧
  match e with
  | None => shows_filtered v'
  | Some _ => table v' = table v
  end.
Proof.
  unfold filterJobs_view.
  destruct (filterJobs (activeFilters v) (jobsData v)) as [l|err] eqn:Hf.
  - intros [(l' & Hrows & -> & ->) | (err & _ & -> & ->)]%show_cases; [|done].
    apply updateJobsTable_rows in Hrows as ->. by repeat split.
  - by intros [= <- <-].
Qed.

Lemma renderActiveFilters_cases v v' e :
  renderActiveFilters v = (v', e) →
  activeFilters v' = activeFilters v ∧ jobsData v' = jobsData v ∧
  match e with
  | None => shows_filtered v'
  | Some _ => table v' = table v
  end.
Proof.
  intros Hr. apply filterJobs_view_cases. revert Hr.
  unfold renderActiveFilters. by destruct (activeFilters v).
Qed.

Lemma on_jobs_list_cases (r : response) v v' e :
  on_jobs_list r v = (v', e) →
  activeFilters v' = activeFilters v ∧
  jobsData v' = (if truthy (success r) then default [] (jobs r) else []) ∧
  match e with
  | None => shows_filtered v'
  | Some _ => table v' = table v
  end.
Proof.
  unfold on_jobs_list. destruct (truthy (success r)).
  - cbn [set_jobsData activeFilters jobsData].
    destruct (activeFilters v) as [|f fs] eqn:Hfs.
    + intros [(l' & Hrows & -> & ->) | (err & _ & -> & ->)]%show_cases.
      * apply updateJobsTable_rows in Hrows as ->.
        split; [done|]. split; [done|]. unfold shows_filtered. cbn. by rewrite Hfs.
      * done.
    + intros Hv. apply filterJobs_view_cases in Hv. cbn in Hv.
      by rewrite Hfs in Hv.
  - cbn. intros [= <- <-]. split; [done|]. split; [done|].
    unfold shows_filtered. cbn. by destruct (activeFilters v).
Qed.

Lemma handleApplyFilter_view_cases type valueEl v v' e :
  handleApplyFilter_view type valueEl v = (v', e) →
  activeFilters v' = handleApplyFilter type valueEl (activeFilters v) ∧
  jobsData v' = jobsData v ∧
  match e with
  | None => shows_filtered v → shows_filtered v'
  | Some _ => table v' = table v
  end.
Proof.
  unfold handleApplyFilter_view, handleApplyFilter.
  destruct valueEl as [[value text]|]; [|by intros [= <- <-]].
  destruct (bool_decide (type = "") || bool_decide (value = ""));
    [by intros [= <- <-]|].
  destruct (existsb _ _); [by intros [= <- <-]|].
  intros (Hfs & Hdata & He)%renderActiveFilters_cases.
  split; [done|]. split; [done|]. by destruct e.
Qed.

Lemma removeFilter_view_cases index v v' e :
  removeFilter_view index v = (v', e) →
  activeFilters v' = removeFilter index (activeFilters v) ∧
  jobsData v' = jobsData v ∧
  match e with
  | None => shows_filtered v'
  | Some _ => table v' = table v
  end.
Proof.
  unfold removeFilter_view. intros Hr. by apply renderActiveFilters_cases in Hr.
Qed.

Lemma view_step_cases v ev v' e :
  view_step v ev = (v', e) →
  activeFilters v' =
    match ev with
    | FilterAction a => filter_step (activeFilters v) a
    | JobsList _ => activeFilters v
    end ∧
  jobsData v' =
    match ev with
    | FilterAction _ => jobsData v
    | JobsList r => if truthy (success r) then default [] (jobs r) else []
    end ∧
  match e with
  | None => shows_filtered v → shows_filtered v'
  | Some _ => table v' = table v
  end.
Proof.
  destruct ev as [r|[type valueEl|index]]; cbn [view_step filter_step].
  - intros (Hfs & Hd & He)%on_jobs_list_cases. split; [done|]. split; [done|].
    by destruct e.
  - intros (Hfs & Hd & He)%handleApplyFilter_view_cases. done.
  - intros (Hfs & Hd & He)%removeFilter_view_cases. split; [done|]. split; [done|].
    by destruct e.
Qed.

Lemma view_run_cases evs v v' errs :
  view_run evs v = (v', errs) →
  activeFilters v' = foldl filter_step (activeFilters v) (filter_actions evs) ∧
  (errs = [] → shows_filtered v → shows_filtered v').
Proof.
  revert v v' errs. induction evs as [|ev evs IH]; intros v v' errs.
  - cbn. by intros [= <- <-].
  - cbn [view_run]. destruct (view_step v ev) as [v1 e] eqn:Hstep.
    destruct (view_run evs v1) as [v2 es] eqn:Hrun.
    intros [= <- <-].
    destruct (view_step_cases _ _ _ _ Hstep) as (Hfs & _ & He).
    destruct (IH _ _ _ Hrun) as [Hfs2 Hes]. split.
    + rewrite Hfs2, Hfs. by destruct ev as [r|a].
    + intros Hnil Hv. destruct e as [err|]; [done|]. cbn in Hnil. by apply Hes, He.
Qed.

End jobs_table.

(** X22: the jobs table shows the filtered jobs as long as nothing
    throws.  After any sequence of [jobs_list] payloads, applied filters
    and removed filters on the freshly loaded page, if no handler ended
    with an exception then the rows in the table are exactly what
    [filterJobs] computes from the current filters and the current
    data.  A handler that does end with an exception leaves the rows as
    they were, although it has already changed the filters or replaced
    the data; in either case [activeFilters] is what the filter actions
    alone make of it, and a [jobs_list] payload that is handled without
    an exception brings the table up to date whatever it showed
    before. *)
Theorem jobs_table_shows_filtered_jobs `{JsRuntime} (evs : list view_event) :
  activeFilters (view_run evs view_init).1 = foldl filter_step [] (filter_actions evs) ∧
  ((view_run evs view_init).2 = [] → shows_filtered (view_run evs view_init).1) ∧
  (∀ v ev v' e, view_step v ev = (v', Some e) →
     table v' = table v ∧
     match ev with
     | FilterAction a =>
         activeFilters v' = filter_step (activeFilters v) a ∧
         (∀ type valueEl, a = Apply type valueEl →
            length (activeFilters v') = S (length (activeFilters v)))
     | JobsList r =>
         jobsData v' = if truthy (success r) then default [] (jobs r) else []
     end) ∧
  (∀ v r v', on_jobs_list r v = (v', None) → shows_filtered v').
Proof.
  destruct (view_run evs view_init) as [v errs] eqn:Hrun. cbn [fst snd].
  destruct (view_run_cases _ _ _ _ Hrun) as [Hfs Hok].
  split; [done|]. split.
  { intros Hnil. by apply Hok. }
  split.
  - intros v0 ev v' e Hstep.
    destruct (view_step_cases _ _ _ _ Hstep) as (Hfs' & Hd & Ht).
    split; [done|]. destruct ev as [r|a]; [done|]. split; [done|].
    intros type valueEl ->. cbn [view_step] in Hstep.
    unfold handleApplyFilter_view in Hstep.
    cbn [filter_step] in Hfs'. unfold handleApplyFilter in Hfs'.
    destruct valueEl as [[value text]|]; [|done].
    destruct (bool_decide (type = "") || bool_decide (value = "")); [done|].
    destruct (existsb _ _); [done|].
    rewrite Hfs', length_app. cbn. lia.
  - intros v0 r v' Hr. by destruct (on_jobs_list_cases _ _ _ _ Hr) as (_ & _ & Hs).
Qed.

(** A partition filter applied while a job without partition is listed:
    the filter is added, the handler throws, the row stays. *)
Example apply_filter_on_incomplete_job :
  @view_step ascii_runtime (JobsView [] [∅] [∅])
    (FilterAction (Apply "partition" (Some ("gpu", "gpu")))) =
  (JobsView [Filter "partition" "gpu" "partition: gpu"] [∅] [∅],
   Some (TypeError "Cannot read properties of undefined (reading 'toString')")).
Proof. reflexivity. Qed.

(** * The notification bell *)

Section bell_facts.
Context `{JsRuntime}.
Implicit Types (c : bell) (data : gmap string js_value).

Lemma addNotification_cases now iso data c :
  let c' := addNotification now iso data c in
  bell_open c' = bell_open c ∧
  nextClientId c' =
    (nextClientId c + if truthy (get_prop data "id") then 0 else 1)%Z ∧
  if decide (is_Some (notification_text data))
  then count c' = (count c + 1)%Z ∧
       length (notifications c') = (S (length (notifications c)) `min` 50)%nat
  else count c' = count c ∧ notifications c' = notifications c.
Proof.
  cbn zeta. unfold addNotification.
  set (ids := if truthy (get_prop data "id")
              then (ServerId (get_prop data "id"), nextClientId c)
              else (ClientId now (nextClientId c), (nextClientId c + 1)%Z)).
  assert (Hnext : ids.2 =
            (nextClientId c + if truthy (get_prop data "id") then 0 else 1)%Z).
  { unfold ids. destruct (truthy (get_prop data "id")); cbn; lia. }
  destruct ids as [uniqueId next]. cbn [snd] in Hnext. subst next.
  destruct (notification_text data) as [[title message]|].
  - rewrite decide_True by (by eexists). cbn [bell_open count notifications nextClientId].
    split; [done|]. split; [done|]. split; [done|].
    case_bool_decide as Hlen; cbn [length] in *.
    + rewrite length_take. cbn [length]. lia.
    + lia.
  - rewrite decide_False by (by intros [? [=]]).
    cbn [bell_open count notifications nextClientId]. done.
Qed.

End bell_facts.

(** X23: the bell keeps the newest fifty and counts them all.  After any
    run of [new_job_notification] payloads on any state of the
    component: the counter has grown by the number of payloads of a
    known type, however many of them are still listed; the list, once
    one was added, holds fifty notifications at most, exactly the old
    length plus the number added where that is below fifty; a payload
    of another type adds nothing; and every payload without an [id],
    of a known type or not, has used up one client id. *)
Theorem bell_keeps_newest_fifty `{JsRuntime}
    (payloads : list (number * string * gmap string js_value)) (c : bell) :
  let c' := add_all payloads c in
  let k := length (shown_payloads payloads) in
  bell_open c' = bell_open c ∧
  count c' = (count c + Z.of_nat k)%Z ∧
  nextClientId c' = (nextClientId c + Z.of_nat (length (anonymous_payloads payloads)))%Z ∧
  (k = 0%nat → notifications c' = notifications c) ∧
  ((0 < k)%nat →
     length (notifications c') = ((length (notifications c) + k) `min` 50)%nat).
Proof.
  revert c. induction payloads as [|[[now iso] data] payloads IH]; intros c.
  - cbn. repeat split; (lia || done).
  - unfold add_all. cbn [foldl]. fold (add_all payloads (addNotification now iso data c)).
    specialize (IH (addNotification now iso data c)). cbn zeta in IH.
    destruct IH as (Ho & Hc & Hn & H0 & Hk).
    destruct (addNotification_cases now iso data c) as (Ho1 & Hn1 & H1).
    unfold shown_payloads, anonymous_payloads in *. cbn zeta.
    rewrite Ho, Hc, Hn, Ho1, Hn1. split; [done|].
    destruct (decide (is_Some (notification_text data))) as [Hs|Hs].
    + destruct H1 as [Hc1 Hl1]. rewrite filter_cons_True by done. cbn [length].
      rewrite Hc1. split; [lia|]. split.
      { destruct (truthy (get_prop data "id")) eqn:Hid.
        - rewrite filter_cons_False by (cbn; congruence). lia.
        - rewrite filter_cons_True by done. cbn [length]. lia. }
      split; [lia|]. intros _.
      destruct (length (filter (λ p, is_Some (notification_text p.2)) payloads))
        as [|k'] eqn:Hk'.
      * rewrite H0 by done. lia.
      * rewrite Hk by lia. lia.
    + destruct H1 as [Hc1 Hl1]. rewrite filter_cons_False by done.
      rewrite Hl1 in H0, Hk. rewrite Hc1. split; [done|]. split.
      { destruct (truthy (get_prop data "id")) eqn:Hid.
        - rewrite filter_cons_False by (cbn; congruence). lia.
        - rewrite filter_cons_True by done. cbn [length]. lia. }
      split; [exact H0|exact Hk].
Qed.
